(** * Pixel Sprite Generator: a shallow embedding of v0.0.1 and v0.0.2

    The two revisions of the generator
    ([pixel-sprite-generator-v0.0.1.js] and the v0.0.2 text that follows
    [resize] in [example/resize.js]) share the [Mask] constructor and the
    grid methods of [Sprite.prototype]; they differ in [init], in
    [renderPixelData] and in the [Sprite] constructor (v0.0.2 takes an
    options object).  The shared part is embedded once, the rest lives in
    the modules [V001] and [V002].

    Conventions of the embedding:
    - a grid cell is a JavaScript value read from an array of integers:
      [Some z] for the number [z], [None] for [undefined] (a hole of
      [new Array(n)] or a read past the end of [mask.data]);
    - coordinates and sprite dimensions are integers ([Z]), the mask's
      [width] and [height] are array sizes ([nat]);
    - [Math.random()] is an explicit source of draws that every call
      advances;
    - numbers that are not cell codes (options, colour channels, draws) are
      rationals: the arithmetic of doubles is idealised as exact;
    - the options object lives in a heap, so that the constructor's writes
      to the caller's object are visible;
    - [V002.new_Sprite] is the constructor on the calls that return;
      [Sprite_outcome] adds the two exceptions a call can end with, the
      RangeError of [new Array] and the IndexSizeError of
      [createImageData]. *)

From Stdlib Require Import ZArith QArith Qround Qabs Qminmax Lia Lqa.
From stdpp Require Import base option list list_numbers strings pretty gmap.

Local Open Scope Z_scope.

(** ** JavaScript arrays of cell codes *)

Abbreviation cell := (option Z).

(** [a[i]] for any integer [i]: [undefined] outside the array. *)
Definition array_get (a : list cell) (i : Z) : cell :=
  if i <? 0 then None else default None (a !! Z.to_nat i).

(** [a[i] = v]: in place inside the array; past the end the array grows and
    the skipped positions are holes.  A negative [i] would create a property
    that is not an element, which leaves the elements as they are. *)
Definition array_set (a : list cell) (i : Z) (v : cell) : list cell :=
  if i <? 0 then a
  else if (Z.to_nat i <? length a)%nat then <[Z.to_nat i := v]> a
  else a ++ replicate (Z.to_nat i - length a)%nat None ++ [v].

(** [val > 0] and [val === 0] on a cell; both are false on [undefined]. *)
Definition is_pos (c : cell) : bool :=
  match c with Some z => 0 <? z | None => false end.

Definition is_zero (c : cell) : bool :=
  match c with Some 0 => true | _ => false end.

(** ** Loops *)

(** [for (i = 0; i < n; i++) body]. *)
Definition for_ {S : Type} (n : Z) (body : Z -> S -> S) (s : S) : S :=
  foldl (fun s i => body i s) s (seqZ 0 n).

(** [for (y = 0; y < h; y++) for (x = 0; x < w; x++) body]. *)
Definition for_yx {S : Type} (h w : Z) (body : Z -> Z -> S -> S) (s : S) : S :=
  for_ h (fun y => for_ w (fun x => body x y)) s.

(** ** The random source *)

(** The draws still to come; [Math.random()] takes the first. *)
Definition rng := nat -> Q.

Definition Math_random (g : rng) : Q * rng := (g 0%nat, fun n => g (S n)).

(** The documented range of [Math.random()]: [0 <= r < 1]. *)
Definition unit_draws (g : rng) : Prop := forall n, (0 <= g n)%Q /\ (g n < 1)%Q.

(** [Math.round]: the nearest integer, halves going up. *)
Definition Math_round (q : Q) : Z := Qfloor (q + (1 # 2)).

(** [a > b] on numbers. *)
Definition Qgtb (a b : Q) : bool := negb (Qle_bool a b).

(** ** Outcome of a constructor call *)

Inductive error := InvalidMaskError.

Inductive completion (A : Type) :=
| Normal (a : A)
| Throw (e : error).
Arguments Normal {A} a.
Arguments Throw {A} e.

(** ** Mask *)

Module Mask.

Record t := {
  width : nat;
  height : nat;
  data : list Z;
  mirrorX : bool;
  mirrorY : bool }.

(** [new Mask(data, width, height, mirrorX, mirrorY)]; an argument left out
    is [None].  The body has five assignments and no [throw]. *)
Definition new (data : list Z) (width height : nat)
    (mirrorX mirrorY : option bool) : completion t :=
  Normal {| width := width;
            height := height;
            data := data;
            mirrorX := match mirrorX with Some b => b | None => true end;
            mirrorY := match mirrorY with Some b => b | None => true end |}.

(** [mask.data[i]]. *)
Definition data_at (m : t) (i : Z) : cell :=
  if i <? 0 then None else data m !! Z.to_nat i.

End Mask.

(** ** Sprite: the state and the shared grid methods *)

Definition loc := positive.

Record Sprite := {
  width : Z;
  height : Z;
  mask : Mask.t;
  data : list cell;
  options : option loc;   (* absent in v0.0.1 *)
  pixels : list Z }.      (* [this.pixels.data], one byte per channel *)

Definition with_data (this : Sprite) (d : list cell) : Sprite :=
  {| width := width this; height := height this; mask := mask this;
     data := d; options := options this; pixels := pixels this |}.

Definition with_pixels (this : Sprite) (p : list Z) : Sprite :=
  {| width := width this; height := height this; mask := mask this;
     data := data this; options := options this; pixels := p |}.

Definition getData (this : Sprite) (x y : Z) : cell :=
  array_get (data this) (y * width this + x).

Definition setData (this : Sprite) (x y : Z) (value : cell) : Sprite :=
  with_data this (array_set (data this) (y * width this + x) value).

Definition initData (this : Sprite) : Sprite :=
  let h := height this in
  let w := width this in
  for_yx h w (fun x y this => setData this x y (Some (-1))) this.

Definition mirrorX (this : Sprite) : Sprite :=
  let h := height this in
  let w := width this / 2 in
  for_yx h w
    (fun x y this => setData this (width this - x - 1) y (getData this x y))
    this.

Definition mirrorY (this : Sprite) : Sprite :=
  let h := height this / 2 in
  let w := width this in
  for_yx h w
    (fun x y this => setData this x (height this - y - 1) (getData this x y))
    this.

Definition applyMask (this : Sprite) : Sprite :=
  let h := Z.of_nat (Mask.height (mask this)) in
  let w := Z.of_nat (Mask.width (mask this)) in
  for_yx h w
    (fun x y this => setData this x y (Mask.data_at (mask this) (y * w + x)))
    this.

(** One cell of [generateRandomSample]: the new value and the source after
    the draws the cell took. *)
Definition sample_cell (val : cell) (g : rng) : cell * rng :=
  match val with
  | Some 1 =>
      let '(r, g) := Math_random g in
      (Some (1 * Math_round r), g)
  | Some 2 =>
      let '(r, g) := Math_random g in
      (if Qgtb r (1 # 2) then Some 1 else Some (-1), g)
  | _ => (val, g)
  end.

Definition generateRandomSample (this : Sprite) (g : rng) : Sprite * rng :=
  let h := height this in
  let w := width this in
  for_yx h w
    (fun x y '(this, g) =>
       let '(val, g) := sample_cell (getData this x y) g in
       (setData this x y val, g))
    (this, g).

(** [if (guard && this.getData(x, y) === 0) this.setData(x, y, -1)]. *)
Definition edge_at (this : Sprite) (guard : bool) (x y : Z) : Sprite :=
  if guard && is_zero (getData this x y)
  then setData this x y (Some (-1)) else this.

Definition edges_cell (x y : Z) (this : Sprite) : Sprite :=
  if is_pos (getData this x y) then
    let this := edge_at this (y - 1 >=? 0) x (y - 1) in
    let this := edge_at this (y + 1 <? height this) x (y + 1) in
    let this := edge_at this (x - 1 >=? 0) (x - 1) y in
    let this := edge_at this (x + 1 <? width this) (x + 1) y in
    this
  else this.

Definition generateEdges (this : Sprite) : Sprite :=
  let h := height this in
  let w := width this in
  for_yx h w edges_cell this.

(** [initCanvas] creates the canvas element, which is outside the
    embedding, and sets its size: no field of the sprite that the other
    methods read changes. *)
Definition initCanvas (this : Sprite) : Sprite := this.

(** [this.pixels = this.ctx.createImageData(this.width, this.height)]: four
    zero bytes per pixel. *)
Definition initContext (this : Sprite) : Sprite :=
  with_pixels this (replicate (Z.to_nat (width this * height this * 4)) 0).

(** A store into [this.pixels.data], a [Uint8ClampedArray]: the value is
    clamped to [0, 255] and rounded, halves to the even neighbour; the
    array has a fixed length, a store outside it is dropped. *)
Definition ToUint8Clamp (q : Q) : Z :=
  if Qle_bool q 0 then 0
  else if Qle_bool 255 q then 255
  else
    let f := Qfloor q in
    if Qgtb q (inject_Z f + (1 # 2)) then f + 1
    else if Qgtb (inject_Z f + (1 # 2)) q then f
    else if Z.even f then f else f + 1.

Definition pixel_store (p : list Z) (i : Z) (q : Q) : list Z :=
  if i <? 0 then p else <[Z.to_nat i := ToUint8Clamp q]> p.

Definition pixel_at (p : list Z) (i : Z) : option Z :=
  if i <? 0 then None else p !! Z.to_nat i.

(** [val === -1]. *)
Definition is_border (c : cell) : bool :=
  match c with Some (-1) => true | _ => false end.

(** The four stores that end one iteration of [renderPixelData]. *)
Definition store_rgba (this : Sprite) (index : Z) (r g b a : Q) : Sprite :=
  let p := pixels this in
  let p := pixel_store p (index + 0) (r * 255) in
  let p := pixel_store p (index + 1) (g * 255) in
  let p := pixel_store p (index + 2) (b * 255) in
  let p := pixel_store p (index + 3) (a * 255) in
  with_pixels this p.

(** [new Array(n)] for the grid: [n] holes. *)
Definition new_Array (n : Z) : list cell := replicate (Z.to_nat n) None.

(** ** Revision v0.0.1 *)

Module V001.

Definition renderPixelData (this : Sprite) : Sprite :=
  for_yx (height this) (width this)
    (fun x y this =>
       let val := getData this x y in
       let a := 1%Q in
       let r := if is_border val then 0%Q else 1%Q in
       let g := if is_border val then 0%Q else 1%Q in
       let b := if is_border val then 0%Q else 1%Q in
       let index := (y * width this + x) * 4 in
       store_rgba this index r g b a)
    this.

Definition init (this : Sprite) (g : rng) : Sprite * rng :=
  let this := initCanvas this in
  let this := initContext this in
  let this := initData this in
  let this := applyMask this in
  let '(this, g) := generateRandomSample this g in
  let this := if Mask.mirrorX (mask this) then mirrorX this else this in
  let this := if Mask.mirrorY (mask this) then mirrorX this else this in
  let this := generateEdges this in
  (renderPixelData this, g).

(** [new Sprite(mask)]. *)
Definition new_Sprite (mask : Mask.t) (g : rng) : Sprite * rng :=
  let width := Z.of_nat (Mask.width mask) * (if Mask.mirrorX mask then 2 else 1) in
  let height := Z.of_nat (Mask.height mask) * (if Mask.mirrorY mask then 2 else 1) in
  init {| width := width; height := height; mask := mask;
          data := new_Array (width * height);
          options := None; pixels := [] |} g.

End V001.

(** ** Revision v0.0.2 *)

(** The value of an option: a boolean or a number. *)
Inductive value :=
| VBool (b : bool)
| VNum (q : Q).

(** A JavaScript object used as a record of options: a map from property
    names to values; a property that is not in the map is [undefined]. *)
Abbreviation object := (gmap string value).

(** Objects live in a heap and are passed by reference. *)
Abbreviation heap := (gmap loc object).

(** [if (v)] on the value of a property: [undefined], [false] and 0 are
    falsy. *)
Definition to_boolean (v : option value) : bool :=
  match v with
  | Some (VBool b) => b
  | Some (VNum q) => negb (Qeq_bool q 0)
  | None => false
  end.

(** The value of a property in arithmetic.  [undefined] would give NaN,
    which the rationals do not have: the constructor defines the five
    properties before [renderPixelData] reads any of them, so that case is
    never reached (it reads as 0 here). *)
Definition to_number (v : option value) : Q :=
  match v with
  | Some (VNum q) => q
  | Some (VBool b) => if b then 1%Q else 0%Q
  | None => 0%Q
  end.

(** The five options, as [renderPixelData] reads them through
    [this.options]. *)
Module Options.
Record t := {
  colored : bool;
  edgeBrightness : Q;
  colorVariations : Q;
  brightnessNoise : Q;
  saturation : Q }.
End Options.

Module Rgb.
Record t := { r : Q; g : Q; b : Q }.
End Rgb.

Module V002.

(** [var defaults = {...}]: the properties in the order of the literal,
    which is the order [for (var prop in defaults)] visits them in. *)
Definition defaults : list (string * value) :=
  [("colored", VBool true);
   ("edgeBrightness", VNum (3 # 10));
   ("colorVariations", VNum (2 # 10));
   ("brightnessNoise", VNum (3 # 10));
   ("saturation", VNum (5 # 10))].

(** One turn of the loop over [defaults], [this.options] being the object
    at [l]:
    [var val = this.options[prop];
     if (typeof val === 'undefined') val = defaults[prop];
     this.options[prop] = val;] *)
Definition set_default (l : loc) (σ : heap) (entry : string * value) : heap :=
  let '(prop, dflt) := entry in
  let this_options := default ∅ (σ !! l) in
  let val := this_options !! prop in
  let val := match val with None => dflt | Some v => v end in
  <[l := <[prop := val]> this_options]> σ.

(** [this.options.colored], [this.options.edgeBrightness], ... *)
Definition read_options (this_options : object) : Options.t :=
  {| Options.colored := to_boolean (this_options !! "colored");
     Options.edgeBrightness := to_number (this_options !! "edgeBrightness");
     Options.colorVariations := to_number (this_options !! "colorVariations");
     Options.brightnessNoise := to_number (this_options !! "brightnessNoise");
     Options.saturation := to_number (this_options !! "saturation") |}.

(** [hslToRgb(h, s, l, result)]: [result] is mutated and returned; without
    it a fresh [{r: 0, g: 0, b: 0}] is.  The [switch] has no default: a
    remainder outside 0..5 leaves [result] as it was.  [%] takes the sign of
    the dividend. *)
Definition hslToRgb (h s l : Q) (result : option Rgb.t) : Rgb.t :=
  let result :=
    match result with Some c => c | None => {| Rgb.r := 0; Rgb.g := 0; Rgb.b := 0 |} end in
  let i := Qfloor (h * 6) in
  let f := (h * 6 - inject_Z i)%Q in
  let p := (l * (1 - s))%Q in
  let q := (l * (1 - f * s))%Q in
  let t := (l * (1 - (1 - f) * s))%Q in
  match Z.rem i 6 with
  | 0 => {| Rgb.r := l; Rgb.g := t; Rgb.b := p |}
  | 1 => {| Rgb.r := q; Rgb.g := l; Rgb.b := p |}
  | 2 => {| Rgb.r := p; Rgb.g := l; Rgb.b := t |}
  | 3 => {| Rgb.r := p; Rgb.g := q; Rgb.b := l |}
  | 4 => {| Rgb.r := t; Rgb.g := p; Rgb.b := l |}
  | 5 => {| Rgb.r := l; Rgb.g := p; Rgb.b := q |}
  | _ => result
  end.

Section Render.

(** [Math.sin(t * Math.PI)], as the host computes it. *)
Variable sin_pi : Q -> Q.

(** The options, as [this.options] holds them. *)
Variable o : Options.t.

(** [Math.max(Math.min(Math.random() * this.options.saturation, 1), 0)],
    [rnd] being the draw. *)
Definition sprite_saturation (rnd : Q) : Q :=
  Qmax (Qmin (rnd * Options.saturation o) 1) 0.

(** The colour of one pixel: [(rgba, source after the draws)]; [rgba.a] is
    kept apart from the three channels [hslToRgb] writes. *)
Definition pixel_color (val : cell) (u ulen : Z) (hue saturation : Q)
    (g : rng) : Rgb.t * Q * rng :=
  let rgba := {| Rgb.r := 1; Rgb.g := 1; Rgb.b := 1 |} in
  let a := 1%Q in
  if negb (is_zero val) then
    if Options.colored o then
      let '(rnd, g) := Math_random g in
      let brightness :=
        (sin_pi (inject_Z u / inject_Z ulen) * (1 - Options.brightnessNoise o)
         + rnd * Options.brightnessNoise o)%Q in
      let rgba := hslToRgb hue saturation brightness (Some rgba) in
      let rgba :=
        if is_border val then
          {| Rgb.r := Rgb.r rgba * Options.edgeBrightness o;
             Rgb.g := Rgb.g rgba * Options.edgeBrightness o;
             Rgb.b := Rgb.b rgba * Options.edgeBrightness o |}
        else rgba in
      (rgba, a, g)
    else
      let rgba :=
        if is_border val then {| Rgb.r := 0; Rgb.g := 0; Rgb.b := 0 |} else rgba in
      (rgba, a, g)
  else (rgba, 0%Q, g).

Definition render_cell (isVerticalGradient : bool) (ulen vlen u : Z)
    (hue saturation : Q) (v : Z) (st : Sprite * rng) : Sprite * rng :=
  let '(this, g) := st in
  let '(val, index) :=
    if isVerticalGradient
    then (getData this v u, (u * vlen + v) * 4)
    else (getData this u v, (v * ulen + u) * 4) in
  let '(rgba, a, g) := pixel_color val u ulen hue saturation g in
  (store_rgba this index (Rgb.r rgba) (Rgb.g rgba) (Rgb.b rgba) a, g).

Definition render_line (isVerticalGradient : bool) (ulen vlen : Z)
    (saturation : Q) (u : Z) (st : Sprite * rng * Q) : Sprite * rng * Q :=
  let '(this, g, hue) := st in
  let '(a1, g) := Math_random g in
  let '(a2, g) := Math_random g in
  let '(a3, g) := Math_random g in
  let isNewColor :=
    Qabs (((a1 * 2 - 1) + (a2 * 2 - 1) + (a3 * 2 - 1)) / 3) in
  let '(hue, g) :=
    if Qgtb isNewColor (1 - Options.colorVariations o)
    then Math_random g else (hue, g) in
  let '(this, g) :=
    for_ vlen (render_cell isVerticalGradient ulen vlen u hue saturation)
      (this, g) in
  (this, g, hue).

Definition renderPixelData (this : Sprite) (g : rng) : Sprite * rng :=
  let '(rnd, g) := Math_random g in
  let isVerticalGradient := Qgtb rnd (1 # 2) in
  let '(rnd, g) := Math_random g in
  let saturation := sprite_saturation rnd in
  let '(hue, g) := Math_random g in
  let '(ulen, vlen) :=
    if isVerticalGradient then (height this, width this)
    else (width this, height this) in
  let '(this, g, _) :=
    for_ ulen (render_line isVerticalGradient ulen vlen saturation)
      (this, g, hue) in
  (this, g).

Definition init (this : Sprite) (g : rng) : Sprite * rng :=
  let this := initCanvas this in
  let this := initContext this in
  let this := initData this in
  let this := applyMask this in
  let '(this, g) := generateRandomSample this g in
  let this := if Mask.mirrorX (mask this) then mirrorX this else this in
  let this := if Mask.mirrorY (mask this) then mirrorY this else this in
  let this := generateEdges this in
  renderPixelData this g.

End Render.

(** [new Sprite(mask, options)].  [options] is a reference to the caller's
    object, or [None] for a missing (falsy) argument, for which a fresh
    [{}] is allocated.  The constructor returns the sprite together with the
    heap and the random source it leaves behind. *)
Definition new_Sprite (sin_pi : Q -> Q) (mask : Mask.t) (options : option loc)
    (σ : heap) (g : rng) : Sprite * heap * rng :=
  let width := Z.of_nat (Mask.width mask) * (if Mask.mirrorX mask then 2 else 1) in
  let height := Z.of_nat (Mask.height mask) * (if Mask.mirrorY mask then 2 else 1) in
  let '(l, σ) :=
    match options with
    | Some l => (l, σ)
    | None => let l := fresh (dom σ : gset loc) in (l, <[l := ∅]> σ)
    end in
  let σ := foldl (set_default l) σ defaults in
  let '(this, g) :=
    init sin_pi (read_options (default ∅ (σ !! l)))
      {| width := width; height := height; mask := mask;
         data := new_Array (width * height);
         options := Some l; pixels := [] |} g in
  (this, σ, g).

End V002.

(** ** Which calls of the constructor return *)

(** What a call of the constructor can throw: the RangeError of
    [new Array(n)] and the IndexSizeError of [createImageData(w, h)]. *)
Inductive exception := RangeError | IndexSizeError.

(** The outcome of a call: the value it returns, or the exception it
    throws and the heap it leaves behind. *)
Inductive outcome (A : Type) :=
| Returns (a : A)
| Throws (e : exception) (σ : heap).
Arguments Returns {A} a.
Arguments Throws {A} e σ.

(** [new Sprite(mask, options)] (v0.0.2) with the exceptions of the calls
    it makes.  [new Array(n)] throws a RangeError unless [n] is an array
    length, an integer below 2^32: this is the fourth statement of the
    constructor, before [options] is looked at.  [createImageData(w, h)],
    which [initContext] calls, throws an IndexSizeError when [w] or [h] is
    0: by then the loop over [defaults] has written to the options object,
    and no draw has been taken.  Every other call returns what
    [V002.new_Sprite] computes.  No test looks at an option. *)
Definition Sprite_outcome (sin_pi : Q -> Q) (mask : Mask.t)
    (options : option loc) (σ : heap) (g : rng) : outcome (Sprite * heap * rng) :=
  let width := Z.of_nat (Mask.width mask) * (if Mask.mirrorX mask then 2 else 1) in
  let height := Z.of_nat (Mask.height mask) * (if Mask.mirrorY mask then 2 else 1) in
  if 4294967296 <=? width * height then Throws RangeError σ
  else if (width =? 0) || (height =? 0)
  then Throws IndexSizeError (snd (fst (V002.new_Sprite sin_pi mask options σ g)))
  else Returns (V002.new_Sprite sin_pi mask options σ g).


(** ** Vocabulary: sprites and their grids *)

(** The array of a sprite has one element per cell. *)
Definition grid_wf (s : Sprite) : Prop :=
  0 <= width s /\ 0 <= height s /\
  length (data s) = Z.to_nat (width s * height s).

(** [(x, y)] is a valid coordinate of the sprite. *)
Definition in_grid (s : Sprite) (x y : Z) : Prop :=
  0 <= x < width s /\ 0 <= y < height s.

(** [t] is [s] with other cell values: nothing else differs. *)
Definition frame (s t : Sprite) : Prop :=
  width t = width s /\ height t = height s /\ mask t = mask s /\
  options t = options s /\ pixels t = pixels s /\
  length (data t) = length (data s).

(** [t] has the grid of [s]: only the pixel buffer may differ. *)
Definition same_grid (s t : Sprite) : Prop :=
  width t = width s /\ height t = height s /\ mask t = mask s /\
  options t = options s /\ data t = data s.

(** The pixel buffer has four bytes per cell. *)
Definition pixels_wf (s : Sprite) : Prop :=
  length (pixels s) = Z.to_nat (width s * height s * 4).

(** The alpha byte of the pixel of cell [(x, y)]: [pixels.data[index + 3]]
    with [index = (y * width + x) * 4]. *)
Definition alpha_at (s : Sprite) (x y : Z) : option Z :=
  pixel_at (pixels s) ((y * width s + x) * 4 + 3).

(** The sprite object as the constructors build it before calling [init]. *)
Definition blank (m : Mask.t) (opts : option loc) : Sprite :=
  let width := Z.of_nat (Mask.width m) * (if Mask.mirrorX m then 2 else 1) in
  let height := Z.of_nat (Mask.height m) * (if Mask.mirrorY m then 2 else 1) in
  {| width := width; height := height; mask := m;
     data := new_Array (width * height); options := opts; pixels := [] |}.

(** The grid phases of [init], up to and including [generateEdges]; the two
    revisions differ in the method called for [mask.mirrorY]. *)
Definition grid_phases (second_mirror : Sprite -> Sprite) (this : Sprite)
    (g : rng) : Sprite * rng :=
  let this := initCanvas this in
  let this := initContext this in
  let this := initData this in
  let this := applyMask this in
  let '(this, g) := generateRandomSample this g in
  let this := if Mask.mirrorX (mask this) then mirrorX this else this in
  let this := if Mask.mirrorY (mask this) then second_mirror this else this in
  (generateEdges this, g).

(** The object [this.options] refers to: the caller's, or a fresh one. *)
Definition options_ref (options : option loc) (σ : heap) : loc :=
  match options with Some l => l | None => fresh (dom σ : gset loc) end.

(** What one turn of the loop over [defaults] makes of the object itself. *)
Definition with_default (o : object) (entry : string * value) : object :=
  <[entry.1 := default entry.2 (o !! entry.1)]> o.

(** ** Vocabulary: the progress of a scan *)

(** [visited y x a b]: the loop, about to visit column [x] of row [y], has
    already visited the cell [(a, b)]. *)
Definition visited (y x a b : Z) : Prop := b < y \/ (b = y /\ a < x).

#[local] Instance visited_dec y x a b : Decision (visited y x a b).
Proof. unfold visited. apply _. Defined.

#[local] Instance in_grid_dec s x y : Decision (in_grid s x y).
Proof. unfold in_grid. apply _. Defined.

(** ** Vocabulary: neighbours, outlines, symmetry *)

(** [(a, b)] is one of the four orthogonal neighbours of [(x, y)]. *)
Definition adjacent (x y a b : Z) : Prop :=
  (a = x /\ b = y - 1) \/ (a = x /\ b = y + 1) \/
  (a = x - 1 /\ b = y) \/ (a = x + 1 /\ b = y).

#[local] Instance adjacent_dec x y a b : Decision (adjacent x y a b).
Proof. unfold adjacent. apply _. Defined.

(** [(a, b)] is a cell of [s], satisfies [P] and holds a positive value. *)
Definition body_at (P : Z -> Z -> Prop) (s : Sprite) (a b : Z) : Prop :=
  in_grid s a b /\ P a b /\ is_pos (getData s a b) = true.

#[local] Instance body_at_dec P s a b :
  (forall a b, Decision (P a b)) -> Decision (body_at P s a b).
Proof. intros HP. unfold body_at. apply _. Defined.

(** Some orthogonal neighbour of [(a, b)] inside the grid satisfies [P] and
    holds a positive value. *)
Definition near_body (P : Z -> Z -> Prop) (s : Sprite) (a b : Z) : Prop :=
  body_at P s a (b - 1) \/ body_at P s a (b + 1) \/
  body_at P s (a - 1) b \/ body_at P s (a + 1) b.

#[local] Instance near_body_dec P s a b :
  (forall a b, Decision (P a b)) -> Decision (near_body P s a b).
Proof. intros HP. unfold near_body. apply _. Defined.

(** An empty cell with a body cell next to it: what edge synthesis turns
    into a border cell. *)
Definition exposed (s : Sprite) (a b : Z) : Prop :=
  getData s a b = Some 0 /\ near_body (fun _ _ => True) s a b.

#[local] Instance exposed_dec s a b : Decision (exposed s a b).
Proof. unfold exposed. apply _. Defined.

(** Symmetry of the grid about its vertical axis (columns mirrored) and
    about its horizontal axis (rows mirrored). *)
Definition symmetricX (s : Sprite) : Prop :=
  forall x y, in_grid s x y -> getData s x y = getData s (width s - 1 - x) y.

Definition symmetricY (s : Sprite) : Prop :=
  forall x y, in_grid s x y -> getData s x y = getData s x (height s - 1 - y).

(** ** Vocabulary: sampling *)

(** The codes that [generateRandomSample] resolves with a draw. *)
Definition stochastic (c : cell) : bool :=
  match c with Some 1 | Some 2 => true | _ => false end.

(** The number of draws the scan of [generateRandomSample] has taken when
    it reaches [(x, y)]: one per stochastic cell before it, in row-major
    order. *)
Definition draws_before (s : Sprite) (x y : Z) : nat :=
  length (filter (fun c => stochastic c = true)
            (take (Z.to_nat (y * width s + x)) (data s))).

(** What [sample_cell] makes of a code when the draw is [r]. *)
Definition resolve (val : cell) (r : Q) : cell :=
  fst (sample_cell val (fun _ => r)).

(** An even sample of the uniform distribution on [0, 1) that
    [Math.random()] approximates: the midpoints of its [2 * n] equal
    parts. *)
Definition midpoints (n : positive) : list Q :=
  map (fun k : nat => (2 * Z.of_nat k + 1) # (4 * n)) (seq 0 (2 * Pos.to_nat n)).

(** How many draws of a list resolve the code [c] to a body cell. *)
Definition body_count (c : cell) (draws : list Q) : nat :=
  length (filter (fun r => resolve c r = Some 1) draws).

(** ** Vocabulary: the specification's own notions *)

(** An input the documentation calls invalid: the cells do not fill the
    [width * height] rectangle, or some cell is not one of -1, 0, 1, 2. *)
Definition invalid_mask_input (data : list Z) (width height : nat) : Prop :=
  length data <> (width * height)%nat \/
  exists c, c ∈ data /\ c <> -1 /\ c <> 0 /\ c <> 1 /\ c <> 2.


(** The HSL to RGB conversion in the words of the specification: [f] is the
    fractional part of [h * 6], the sextant is [floor(h * 6) mod 6], and
    each sextant assigns its three channels. *)
Definition hsl_sextants (h s l : Q) : Rgb.t :=
  let f := (h * 6 - inject_Z (Qfloor (h * 6)))%Q in
  let p := (l * (1 - s))%Q in
  let q := (l * (1 - f * s))%Q in
  let t := (l * (1 - (1 - f) * s))%Q in
  let sextant := Qfloor (h * 6) mod 6 in
  if decide (sextant = 0) then {| Rgb.r := l; Rgb.g := t; Rgb.b := p |}
  else if decide (sextant = 1) then {| Rgb.r := q; Rgb.g := l; Rgb.b := p |}
  else if decide (sextant = 2) then {| Rgb.r := p; Rgb.g := l; Rgb.b := t |}
  else if decide (sextant = 3) then {| Rgb.r := p; Rgb.g := q; Rgb.b := l |}
  else if decide (sextant = 4) then {| Rgb.r := t; Rgb.g := p; Rgb.b := l |}
  else {| Rgb.r := l; Rgb.g := p; Rgb.b := q |}.

(** ** Concrete inputs *)

(** [new Mask([0, 1, 1, 2], 2, 2)]. *)
Definition demo_mask : Mask.t :=
  {| Mask.width := 2; Mask.height := 2; Mask.data := [0; 1; 1; 2];
     Mask.mirrorX := true; Mask.mirrorY := true |}.

(** [new Mask([0, -1], 1, 2)]: no stochastic code. *)
Definition plain_mask : Mask.t :=
  {| Mask.width := 1; Mask.height := 2; Mask.data := [0; -1];
     Mask.mirrorX := true; Mask.mirrorY := true |}.

(** [new Mask([-1], 1, 1, false, false)]: one border cell. *)
Definition border_mask : Mask.t :=
  {| Mask.width := 1; Mask.height := 1; Mask.data := [-1];
     Mask.mirrorX := false; Mask.mirrorY := false |}.

(** A source whose draws are all 1/2, and one that alternates between 3/4
    and 1/4. *)
Definition half_draws : rng := fun _ => 1 # 2.

Definition alternating_draws : rng :=
  fun n => if Nat.even n then 3 # 4 else 1 # 4.

(** A sine that is only ever asked for [sin 0]. *)
Definition flat_sine : Q -> Q := fun _ => 0%Q.

(** A 3 x 1 grid: a body cell followed by two empty cells. *)
Definition edge_demo : Sprite :=
  {| width := 3; height := 1; mask := plain_mask;
     data := [Some 1; Some 0; Some 0]; options := None; pixels := [] |}.

(** A 2 x 1 grid holding the two stochastic codes. *)
Definition sample_demo : Sprite :=
  {| width := 2; height := 1; mask := plain_mask;
     data := [Some 1; Some 2]; options := None; pixels := [] |}.

(** [{colored: true, edgeBrightness: e, colorVariations: 0.25,
      brightnessNoise: 0.5, saturation: 0.5}]. *)
Definition options_with_edgeBrightness (e : Q) : object :=
  <["colored" := VBool true]>
  (<["edgeBrightness" := VNum e]>
  (<["colorVariations" := VNum (1 # 4)]>
  (<["brightnessNoise" := VNum (1 # 2)]>
  (<["saturation" := VNum (1 # 2)]> ∅)))).

(** [{colored: false}]. *)
Definition monochrome_options : object := <["colored" := VBool false]> ∅.

(** ** Vocabulary: pixels *)

(** The four bytes of the pixel of cell [(x, y)], red first:
    [pixels.data[index + k]] for [k] from 0 to 3, with
    [index = (y * width + x) * 4]. *)
Definition rgba_at (s : Sprite) (x y : Z) : list (option Z) :=
  map (fun k => pixel_at (pixels s) ((y * width s + x) * 4 + k)) [0; 1; 2; 3].

(** The bytes the four stores of one iteration leave in the buffer. *)
Definition bytes_of (r g b a : Q) : list (option Z) :=
  [Some (ToUint8Clamp (r * 255)); Some (ToUint8Clamp (g * 255));
   Some (ToUint8Clamp (b * 255)); Some (ToUint8Clamp (a * 255))].

(** Named pixels. *)
Definition opaque_black : list (option Z) := [Some 0; Some 0; Some 0; Some 255].
Definition opaque_white : list (option Z) := [Some 255; Some 255; Some 255; Some 255].
Definition transparent_white : list (option Z) := [Some 255; Some 255; Some 255; Some 0].

(** ** Vocabulary: where a cell comes from *)

(** The position that [mirrorX] and [mirrorY] copy into position [i] of an
    axis of [n] cells: the second half reads the first half in reverse. *)
Definition reflect (n i : Z) : Z :=
  if decide (n - n / 2 <= i) then n - i - 1 else i.

(** The value of cell [(a, b)] once [initData] and [applyMask] are done:
    the code of the mask inside its rectangle, -1 elsewhere. *)
Definition masked_cell (m : Mask.t) (a b : Z) : cell :=
  if decide (a < Z.of_nat (Mask.width m) /\ b < Z.of_nat (Mask.height m))
  then Mask.data_at m (b * Z.of_nat (Mask.width m) + a)
  else Some (-1).

(** What a cell that [generateRandomSample] left as [v] may hold after
    [generateEdges]: [v] itself, or -1 where [v] is 0. *)
Definition outlined (v c : cell) : Prop :=
  c = v \/ (v = Some 0 /\ c = Some (-1)).

(** ** [toString] *)

(** [ToString(val)] for a cell: the decimal digits of an integer, with a
    minus sign when it is negative, and [undefined] for a hole.  (Numbers
    from 10^21 on are printed with an exponent by the host; cell codes
    are far below that.) *)
Definition ToString (val : cell) : string :=
  match val with
  | Some z => pretty z
  | None => "undefined"
  end.

(** [val >= 0]: false for [undefined], which compares as NaN. *)
Definition is_nonneg (c : cell) : bool :=
  match c with Some z => 0 <=? z | None => false end.

(** The line feed (character 10) that closes a row. *)
Definition newline : string :=
  String (Ascii.Ascii false true false true false false false false) EmptyString.

(** [val >= 0 ? ' ' + val : '' + val]. *)
Definition cell_text (val : cell) : string :=
  if is_nonneg val then " " +:+ ToString val else EmptyString +:+ ToString val.

Definition toString (this : Sprite) : string :=
  let h := height this in
  let w := width this in
  for_ h
    (fun y output =>
       let output :=
         for_ w
           (fun x output =>
              let val := getData this x y in
              output +:+ cell_text val)
           output in
       output +:+ newline)
    EmptyString.

(** The cells that print as two characters: the integers from -9 to 9. *)
Definition one_digit (c : cell) : Prop :=
  exists z, c = Some z /\ -9 <= z <= 9.

(** The strings of a list, one after the other. *)
Definition join (l : list string) : string := foldr String.append EmptyString l.

(** ** Vocabulary: masks the constructor accepts *)

(** The sprite of the mask has at least one cell and fewer than 2^32. *)
Definition buildable (m : Mask.t) : Prop :=
  0 < Z.of_nat (Mask.width m) * (if Mask.mirrorX m then 2 else 1)
      * (Z.of_nat (Mask.height m) * (if Mask.mirrorY m then 2 else 1))
    < 4294967296.

(** The five documented option names. *)
Definition option_names : list string :=
  ["colored"; "edgeBrightness"; "colorVariations"; "brightnessNoise";
   "saturation"].



(** * Properties *)

(** ** Loop invariants *)

Lemma for_nonpos {S : Type} n (body : Z -> S -> S) s : n <= 0 -> for_ n body s = s.
Proof. intros Hn. unfold for_. by rewrite seqZ_nil. Qed.

Lemma for_succ {S : Type} n (body : Z -> S -> S) s :
  0 <= n -> for_ (n + 1) body s = body n (for_ n body s).
Proof.
  intros Hn. unfold for_. rewrite seqZ_app by lia. rewrite foldl_app.
  assert (seqZ (0 + n) 1 = [n]) as -> by (unfold seqZ; simpl; f_equal; lia).
  done.
Qed.

Lemma for_ind {S : Type} (I : Z -> S -> Prop) n (body : Z -> S -> S) s :
  0 <= n -> I 0 s ->
  (forall i t, 0 <= i < n -> I i t -> I (i + 1) (body i t)) ->
  I n (for_ n body s).
Proof.
  intros Hn H0 Hstep.
  assert (Hk : forall k : nat, Z.of_nat k <= n -> I (Z.of_nat k) (for_ (Z.of_nat k) body s)).
  { induction k as [|k IH]; intros Hk.
    - by rewrite for_nonpos.
    - rewrite Nat2Z.inj_succ, <- Z.add_1_r. rewrite for_succ by lia.
      apply Hstep; [lia|]. apply IH. lia. }
  specialize (Hk (Z.to_nat n)). rewrite Z2Nat.id in Hk by lia. apply Hk. lia.
Qed.

(** The invariant of a nested loop is indexed by the row [y] and the column
    [x] about to be visited. *)
Lemma for_yx_ind {S : Type} (I : Z -> Z -> S -> Prop) h w
    (body : Z -> Z -> S -> S) s :
  0 <= h -> 0 <= w -> I 0 0 s ->
  (forall x y t, 0 <= x < w -> 0 <= y < h -> I y x t -> I y (x + 1) (body x y t)) ->
  (forall y t, 0 <= y < h -> I y w t -> I (y + 1) 0 t) ->
  I h 0 (for_yx h w body s).
Proof.
  intros Hh Hw H0 Hcell Hrow. unfold for_yx.
  apply (for_ind (fun y t => I y 0 t)); [done|done|].
  intros y t Hy Hy0. apply Hrow; [done|].
  apply (for_ind (fun x t => I y x t)); [done|done|].
  intros x t' Hx HI. by apply Hcell.
Qed.

(** ** Grids *)

Lemma frame_refl s : frame s s.
Proof. by repeat split. Qed.

Lemma frame_trans s t u : frame s t -> frame t u -> frame s u.
Proof. unfold frame. intros (?&?&?&?&?&?) (?&?&?&?&?&?). repeat split; congruence. Qed.

Lemma frame_wf s t : frame s t -> grid_wf s -> grid_wf t.
Proof. unfold frame, grid_wf. intros (->&->&?&?&?&->). done. Qed.

Lemma frame_in_grid s t x y : frame s t -> in_grid t x y <-> in_grid s x y.
Proof. unfold frame, in_grid. intros (->&->&_). done. Qed.

Lemma in_grid_index s x y :
  grid_wf s -> in_grid s x y ->
  0 <= y * width s + x /\ (Z.to_nat (y * width s + x) < length (data s))%nat.
Proof.
  unfold grid_wf, in_grid. intros (Hw & Hh & ->) [Hx Hy]. split; [nia|].
  apply Z2Nat.inj_lt; nia.
Qed.

Lemma index_inj w x y a b :
  0 <= x < w -> 0 <= a < w -> y * w + x = b * w + a -> a = x /\ b = y.
Proof. intros Hx Ha Heq. assert (b = y) by nia. subst. lia. Qed.

Lemma setData_frame s x y v :
  grid_wf s -> in_grid s x y -> frame s (setData s x y v).
Proof.
  intros Hwf Hin. destruct (in_grid_index s x y Hwf Hin) as [H0 Hlt].
  unfold frame, setData, array_set; simpl. repeat split.
  destruct (Z.ltb_spec (y * width s + x) 0); [lia|].
  destruct (Nat.ltb_spec (Z.to_nat (y * width s + x)) (length (data s))); [|lia].
  by rewrite length_insert.
Qed.

Lemma getData_setData s x y v a b :
  grid_wf s -> in_grid s x y -> in_grid s a b ->
  getData (setData s x y v) a b =
  if decide (a = x /\ b = y) then v else getData s a b.
Proof.
  intros Hwf Hin Hin'.
  destruct (in_grid_index s x y Hwf Hin) as [H0 Hlt].
  destruct (in_grid_index s a b Hwf Hin') as [H0' Hlt'].
  unfold getData, setData, array_set, array_get; simpl.
  destruct (Z.ltb_spec (y * width s + x) 0); [lia|].
  destruct (Z.ltb_spec (b * width s + a) 0); [lia|].
  destruct (Nat.ltb_spec (Z.to_nat (y * width s + x)) (length (data s))); [|lia].
  destruct (decide (a = x /\ b = y)) as [[-> ->]|Hne].
  - by rewrite list_lookup_insert_eq.
  - rewrite list_lookup_insert_ne; [done|].
    intros Heq. apply Z2Nat.inj in Heq; [|lia|lia].
    destruct Hin, Hin'. apply Hne. eapply index_inj; eauto.
Qed.

Lemma getData_setData_eq s x y v :
  grid_wf s -> in_grid s x y -> getData (setData s x y v) x y = v.
Proof.
  intros. rewrite getData_setData by done. by rewrite decide_True.
Qed.

Lemma getData_setData_ne s x y v a b :
  grid_wf s -> in_grid s x y -> in_grid s a b -> (a, b) <> (x, y) ->
  getData (setData s x y v) a b = getData s a b.
Proof.
  intros ??? Hne. rewrite getData_setData by done.
  rewrite decide_False; [done|]. intros [-> ->]. done.
Qed.

(** Two grids of one shape with the same cells are the same array. *)
Lemma data_ext s t :
  grid_wf s -> frame s t ->
  (forall x y, in_grid s x y -> getData t x y = getData s x y) ->
  data t = data s.
Proof.
  intros Hwf Hfr Hcells. pose proof (frame_wf _ _ Hfr Hwf) as Hwf'.
  destruct Hfr as (Hw & Hh & _ & _ & _ & Hlen).
  apply list_eq_same_length with (length (data s)); [done|done|].
  intros i c c' Hi Hc Hc'.
  destruct Hwf as (Hw0 & Hh0 & Hl).
  assert (Hwpos : 0 < width s).
  { destruct (Z.eq_dec (width s) 0) as [E|]; [|lia]. rewrite E in Hl. simpl in Hl. lia. }
  set (x := Z.of_nat i mod width s). set (y := Z.of_nat i / width s).
  assert (Hi' : Z.of_nat i < width s * height s) by lia.
  assert (Hxy : Z.of_nat i = y * width s + x).
  { unfold x, y. rewrite Z.mul_comm. apply Z.div_mod. lia. }
  assert (Hin : in_grid s x y).
  { unfold in_grid, x, y. split; [apply Z.mod_pos_bound; lia|].
    split; [apply Z.div_pos; lia|]. apply Z.div_lt_upper_bound; lia. }
  specialize (Hcells x y Hin). unfold getData, array_get in Hcells.
  rewrite Hw, <- Hxy in Hcells.
  destruct (Z.ltb_spec (Z.of_nat i) 0); [lia|].
  rewrite Nat2Z.id, Hc, Hc' in Hcells. simpl in Hcells. congruence.
Qed.

(** ** Loops that fill a rectangle, and loops that copy one *)

Lemma visited_next y x a b :
  visited y (x + 1) a b <-> visited y x a b \/ (a = x /\ b = y).
Proof. unfold visited. lia. Qed.

Lemma visited_row y w a b :
  0 <= a < w -> visited (y + 1) 0 a b <-> visited y w a b.
Proof. unfold visited. lia. Qed.

Section Fill.
Variable s : Sprite.
Variables h w : Z.
Variable f : Z -> Z -> cell.
Variable body : Z -> Z -> Sprite -> Sprite.
Hypothesis Hwf : grid_wf s.
Hypothesis Hh : 0 <= h <= height s.
Hypothesis Hw : 0 <= w <= width s.
Hypothesis Hbody : forall x y t, frame s t -> body x y t = setData t x y (f x y).

Lemma fill_spec :
  frame s (for_yx h w body s) /\
  forall a b, in_grid s a b ->
    getData (for_yx h w body s) a b =
    if decide (a < w /\ b < h) then f a b else getData s a b.
Proof.
  set (inv := fun (y x : Z) (t : Sprite) =>
    frame s t /\
    forall a b, in_grid s a b ->
      getData t a b =
      if decide (a < w /\ visited y x a b) then f a b else getData s a b).
  assert (H : inv h 0 (for_yx h w body s)).
  { apply for_yx_ind; [lia|lia| | |].
    - split; [apply frame_refl|]. intros a b [Ha Hb].
      rewrite decide_False; [done|]. unfold visited. lia.
    - intros x y t Hx Hy [Hfr Hc].
      assert (Hin : in_grid t x y).
      { apply (frame_in_grid s t); [done|]. unfold in_grid. lia. }
      pose proof (frame_wf _ _ Hfr Hwf) as Hwft.
      rewrite Hbody by done.
      split; [eapply frame_trans; [done|by apply setData_frame]|].
      intros a b Hab.
      rewrite getData_setData; [|done|done|by apply (frame_in_grid s t)].
      rewrite Hc by done.
      destruct Hab as [Ha Hb].
      destruct (decide (a = x /\ b = y)) as [[-> ->]|Hne].
      + rewrite decide_True; [done|]. rewrite visited_next. lia.
      + repeat case_decide; try done; exfalso;
          rewrite ?visited_next in *; unfold visited in *; lia.
    - intros y t Hy [Hfr Hc]. split; [done|]. intros a b Hab.
      rewrite Hc by done. destruct Hab as [Ha Hb].
      repeat case_decide; try done; exfalso; unfold visited in *; lia. }
  destruct H as [Hfr Hc]. split; [done|]. intros a b Hab.
  rewrite Hc by done. destruct Hab as [Ha Hb].
  repeat case_decide; try done; exfalso; unfold visited in *; lia.
Qed.
End Fill.

Section Copy.
Variable s : Sprite.
Variables h w : Z.
Variables dx dy : Z -> Z.
Variable body : Z -> Z -> Sprite -> Sprite.
Hypothesis Hwf : grid_wf s.
Hypothesis Hh : 0 <= h.
Hypothesis Hw : 0 <= w.
Hypothesis Hdx : forall a, dx (dx a) = a.
Hypothesis Hdy : forall b, dy (dy b) = b.
(** Sources are cells, destinations are cells, and no destination is a
    source. *)
Hypothesis Hdest : forall x y, 0 <= x < w -> 0 <= y < h ->
  in_grid s x y /\ in_grid s (dx x) (dy y) /\
  ~ (0 <= dx x < w /\ 0 <= dy y < h).

Hypothesis Hbody : forall x y t, frame s t ->
  body x y t = setData t (dx x) (dy y) (getData t x y).

Lemma copy_spec :
  frame s (for_yx h w body s) /\
  forall a b, in_grid s a b ->
    getData (for_yx h w body s) a b =
    if decide (0 <= dx a < w /\ 0 <= dy b < h)
    then getData s (dx a) (dy b) else getData s a b.
Proof.
  set (inv := fun (y x : Z) (t : Sprite) =>
    frame s t /\
    forall a b, in_grid s a b ->
      getData t a b =
      if decide (0 <= dx a < w /\ 0 <= dy b < h /\ visited y x (dx a) (dy b))
      then getData s (dx a) (dy b) else getData s a b).
  assert (H : inv h 0 (for_yx h w body s)).
  { apply for_yx_ind; [lia|lia| | |].
    - split; [apply frame_refl|]. intros a b [Ha Hb].
      rewrite decide_False; [done|]. unfold visited. lia.
    - intros x y t Hx Hy [Hfr Hc].
      destruct (Hdest x y Hx Hy) as (Hsrc & Hdst & Hnot).
      pose proof (frame_wf _ _ Hfr Hwf) as Hwft.
      rewrite Hbody by done.
      split.
      { eapply frame_trans; [done|]. apply setData_frame; [done|].
        by apply (frame_in_grid s t). }
      intros a b Hab.
      rewrite getData_setData;
        [|done|by apply (frame_in_grid s t)|by apply (frame_in_grid s t)].
      rewrite !Hc by done.
      rewrite (decide_False (P := 0 <= dx x < w /\ _)) by tauto.
      destruct (decide (a = dx x /\ b = dy y)) as [[-> ->]|Hne].
      + rewrite Hdx, Hdy. rewrite decide_True; [done|].
        rewrite visited_next. lia.
      + assert (Hne' : ~ (dx a = x /\ dy b = y)).
        { intros [<- <-]. apply Hne. by rewrite Hdx, Hdy. }
        repeat case_decide; try done; exfalso;
          rewrite ?visited_next in *; tauto.
    - intros y t Hy [Hfr Hc]. split; [done|]. intros a b Hab.
      rewrite Hc by done.
      repeat case_decide; try done; exfalso; unfold visited in *; lia. }
  destruct H as [Hfr Hc]. split; [done|]. intros a b Hab.
  rewrite Hc by done.
  repeat case_decide; try done; exfalso; unfold visited in *; lia.
Qed.
End Copy.

(** ** The deterministic grid phases, cell by cell *)

Lemma initData_spec s :
  grid_wf s ->
  frame s (initData s) /\
  forall a b, in_grid s a b -> getData (initData s) a b = Some (-1).
Proof.
  intros Hwf. pose proof Hwf as (Hw & Hh & _).
  destruct (fill_spec s (height s) (width s) (fun _ _ => Some (-1))
              (fun x y this => setData this x y (Some (-1))))
    as [Hfr Hc]; [done|lia|lia|done|].
  split; [done|]. intros a b Hab. unfold initData.
  rewrite Hc by done. rewrite decide_True; [done|]. destruct Hab; lia.
Qed.

Lemma applyMask_spec s :
  grid_wf s ->
  Z.of_nat (Mask.width (mask s)) <= width s ->
  Z.of_nat (Mask.height (mask s)) <= height s ->
  frame s (applyMask s) /\
  forall a b, in_grid s a b ->
    getData (applyMask s) a b =
    if decide (a < Z.of_nat (Mask.width (mask s)) /\
               b < Z.of_nat (Mask.height (mask s)))
    then Mask.data_at (mask s) (b * Z.of_nat (Mask.width (mask s)) + a)
    else getData s a b.
Proof.
  intros Hwf Hmw Hmh.
  apply (fill_spec s _ _
    (fun x y => Mask.data_at (mask s) (y * Z.of_nat (Mask.width (mask s)) + x)));
    [done|lia|lia|].
  intros x y t (_ & _ & -> & _). done.
Qed.

Lemma mirrorX_spec s :
  grid_wf s ->
  frame s (mirrorX s) /\
  forall a b, in_grid s a b ->
    getData (mirrorX s) a b =
    if decide (width s - width s / 2 <= a)
    then getData s (width s - a - 1) b else getData s a b.
Proof.
  intros Hwf. pose proof Hwf as (Hw & Hh & _).
  destruct (copy_spec s (height s) (width s / 2)
              (fun x => width s - x - 1) (fun y => y)
              (fun x y this =>
                 setData this (width this - x - 1) y (getData this x y)))
    as [Hfr Hc];
    [done|lia|apply Z.div_pos; lia|intros; lia|done| | |].
  { intros x y Hx Hy. unfold in_grid.
    pose proof (Z.div_mod (width s) 2 ltac:(lia)).
    pose proof (Z.mod_pos_bound (width s) 2 ltac:(lia)). lia. }
  { intros x y t (-> & _). done. }
  split; [done|]. intros a b Hab. unfold mirrorX. rewrite Hc by done.
  destruct Hab as [Ha Hb].
  pose proof (Z.div_mod (width s) 2 ltac:(lia)).
  pose proof (Z.mod_pos_bound (width s) 2 ltac:(lia)).
  repeat case_decide; try done; exfalso; lia.
Qed.

Lemma mirrorY_spec s :
  grid_wf s ->
  frame s (mirrorY s) /\
  forall a b, in_grid s a b ->
    getData (mirrorY s) a b =
    if decide (height s - height s / 2 <= b)
    then getData s a (height s - b - 1) else getData s a b.
Proof.
  intros Hwf. pose proof Hwf as (Hw & Hh & _).
  destruct (copy_spec s (height s / 2) (width s)
              (fun x => x) (fun y => height s - y - 1)
              (fun x y this =>
                 setData this x (height this - y - 1) (getData this x y)))
    as [Hfr Hc];
    [done|apply Z.div_pos; lia|lia|done|intros; lia| | |].
  { intros x y Hx Hy. unfold in_grid.
    pose proof (Z.div_mod (height s) 2 ltac:(lia)).
    pose proof (Z.mod_pos_bound (height s) 2 ltac:(lia)). lia. }
  { intros x y t (_ & -> & _). done. }
  split; [done|]. intros a b Hab. unfold mirrorY. rewrite Hc by done.
  destruct Hab as [Ha Hb].
  pose proof (Z.div_mod (height s) 2 ltac:(lia)).
  pose proof (Z.mod_pos_bound (height s) 2 ltac:(lia)).
  repeat case_decide; try done; exfalso; lia.
Qed.

(** Symmetry of a grid about its vertical and its horizontal axis. *)
Lemma mirrorX_symmetric s a b :
  grid_wf s -> in_grid s a b ->
  getData (mirrorX s) a b = getData (mirrorX s) (width s - 1 - a) b.
Proof.
  intros Hwf Hab. destruct (mirrorX_spec s Hwf) as [_ Hc].
  assert (Hab' : in_grid s (width s - 1 - a) b).
  { unfold in_grid in *. lia. }
  rewrite !Hc by done. destruct Hab as [Ha Hb].
  pose proof (Z.div_mod (width s) 2 ltac:(lia)).
  pose proof (Z.mod_pos_bound (width s) 2 ltac:(lia)).
  repeat case_decide; f_equal; lia.
Qed.

Lemma mirrorY_symmetric s a b :
  grid_wf s -> in_grid s a b ->
  getData (mirrorY s) a b = getData (mirrorY s) a (height s - 1 - b).
Proof.
  intros Hwf Hab. destruct (mirrorY_spec s Hwf) as [_ Hc].
  assert (Hab' : in_grid s a (height s - 1 - b)).
  { unfold in_grid in *. lia. }
  rewrite !Hc by done. destruct Hab as [Ha Hb].
  pose proof (Z.div_mod (height s) 2 ltac:(lia)).
  pose proof (Z.mod_pos_bound (height s) 2 ltac:(lia)).
  repeat case_decide; f_equal; lia.
Qed.

(** ** Edge synthesis *)

Lemma is_zero_spec c : is_zero c = true <-> c = Some 0.
Proof. destruct c as [[| |]|]; simpl; split; congruence. Qed.

Lemma edge_at_spec t guard x y :
  grid_wf t -> (guard = true -> in_grid t x y) ->
  frame t (edge_at t guard x y) /\
  forall a b, in_grid t a b ->
    getData (edge_at t guard x y) a b =
    if decide (guard = true /\ a = x /\ b = y /\ getData t a b = Some 0)
    then Some (-1) else getData t a b.
Proof.
  intros Hwf Hg. unfold edge_at.
  destruct guard; cbn [andb].
  - specialize (Hg eq_refl).
    destruct (is_zero (getData t x y)) eqn:Hz.
    + apply is_zero_spec in Hz. split; [by apply setData_frame|].
      intros a b Hab. rewrite getData_setData by done.
      destruct (decide (a = x /\ b = y)) as [[-> ->]|Hne].
      * by rewrite decide_True.
      * rewrite decide_False; [done|]. tauto.
    + split; [apply frame_refl|]. intros a b Hab.
      case_decide as Hd; [|done]. destruct Hd as (_ & -> & -> & Hz').
      apply is_zero_spec in Hz'. congruence.
  - split; [apply frame_refl|]. intros a b Hab.
    case_decide as Hd; [|done]. destruct Hd as [? _]. done.
Qed.

Lemma edges_cell_spec t x y :
  grid_wf t -> in_grid t x y ->
  frame t (edges_cell x y t) /\
  forall a b, in_grid t a b ->
    getData (edges_cell x y t) a b =
    if decide (is_pos (getData t x y) = true /\ adjacent x y a b /\
               getData t a b = Some 0)
    then Some (-1) else getData t a b.
Proof.
  intros Hwf Hxy. unfold edges_cell.
  destruct (is_pos (getData t x y)) eqn:Hp; cycle 1.
  { split; [apply frame_refl|]. intros a b Hab.
    case_decide as Hd; [|done]. destruct Hd as [? _]. done. }
  remember (edge_at t (y - 1 >=? 0) x (y - 1)) as t1 eqn:E1.
  destruct (edge_at_spec t (y - 1 >=? 0) x (y - 1)) as [F1 C1]; [done| |].
  { intros Hg%Z.geb_le. clear E1. unfold in_grid in *. lia. }
  rewrite <- E1 in F1, C1. pose proof (frame_wf _ _ F1 Hwf) as W1.
  remember (edge_at t1 (y + 1 <? height t1) x (y + 1)) as t2 eqn:E2.
  destruct (edge_at_spec t1 (y + 1 <? height t1) x (y + 1)) as [F2 C2]; [done| |].
  { intros Hg%Z.ltb_lt. clear E1 E2. unfold in_grid, frame in *. lia. }
  rewrite <- E2 in F2, C2. pose proof (frame_wf _ _ F2 W1) as W2.
  remember (edge_at t2 (x - 1 >=? 0) (x - 1) y) as t3 eqn:E3.
  destruct (edge_at_spec t2 (x - 1 >=? 0) (x - 1) y) as [F3 C3]; [done| |].
  { intros Hg%Z.geb_le. apply (frame_in_grid t1 t2); [done|].
    apply (frame_in_grid t t1); [done|]. clear E1 E2 E3. unfold in_grid in *. lia. }
  rewrite <- E3 in F3, C3. pose proof (frame_wf _ _ F3 W2) as W3.
  destruct (edge_at_spec t3 (x + 1 <? width t3) (x + 1) y) as [F4 C4]; [done| |].
  { intros Hg%Z.ltb_lt. clear E1 E2 E3. unfold in_grid, frame in *. lia. }
  split; [eauto using frame_trans|].
  intros a b Hab.
  assert (Hab1 : in_grid t1 a b) by by apply (frame_in_grid t t1).
  assert (Hab2 : in_grid t2 a b) by by apply (frame_in_grid t1 t2).
  assert (Hab3 : in_grid t3 a b) by by apply (frame_in_grid t2 t3).
  rewrite C4, C3, C2, C1 by done.
  destruct F1 as (Ew1 & Eh1 & _), F2 as (Ew2 & Eh2 & _), F3 as (Ew3 & Eh3 & _).
  rewrite Ew3, Ew2, Ew1. rewrite Eh1.
  clear E1 E2 E3 C1 C2 C3 C4 F4 Hab1 Hab2 Hab3 W1 W2 W3 Hp.
  destruct Hab as [Ha Hb], Hxy as [Hx Hy]. unfold adjacent.
  repeat case_decide; try done; exfalso;
    rewrite ?Z.geb_le, ?Z.ltb_lt in *;
    try (intuition (try discriminate; lia); fail).
  match goal with
  | H : _ /\ _ /\ _ |- _ =>
      destruct H as (_ & [[-> ->]|[[-> ->]|[[-> ->]|[-> ->]]]] & Hz)
  end; [apply H2|apply H1|apply H0|apply H]; repeat split; try done; lia.
Qed.

Lemma body_at_iff (P Q : Z -> Z -> Prop) s a b :
  (in_grid s a b -> P a b <-> Q a b) -> body_at P s a b <-> body_at Q s a b.
Proof. unfold body_at. tauto. Qed.

Lemma near_body_iff (P Q : Z -> Z -> Prop) s a b :
  (forall a' b', in_grid s a' b' -> P a' b' <-> Q a' b') ->
  near_body P s a b <-> near_body Q s a b.
Proof.
  intros H. unfold near_body.
  rewrite !(body_at_iff P Q) by (intros; by apply H). done.
Qed.

Lemma near_body_next s y x a b :
  in_grid s x y ->
  near_body (visited y (x + 1)) s a b <->
  near_body (visited y x) s a b \/
  (adjacent x y a b /\ is_pos (getData s x y) = true).
Proof.
  intros Hxy. unfold near_body, body_at, adjacent.
  rewrite !visited_next. split.
  - intros [H|[H|[H|H]]]; destruct H as (Hin & [Hv|[<- <-]] & Hp);
      try tauto; right; (split; [lia|done]).
  - intros [H|[Hadj Hp]]; [tauto|].
    destruct Hadj as [[-> ->]|[[-> ->]|[[-> ->]|[-> ->]]]].
    + right; left. replace (y - 1 + 1) with y by lia. tauto.
    + left. replace (y + 1 - 1) with y by lia. tauto.
    + right; right; right. replace (x - 1 + 1) with x by lia. tauto.
    + right; right; left. replace (x + 1 - 1) with x by lia. tauto.
Qed.

Lemma is_pos_not_zero c : is_pos c = true -> c <> Some 0.
Proof. intros Hp ->. done. Qed.

(** [generateEdges], cell by cell: the exposed cells become border cells,
    all others keep their value.  The scan updates the grid in place, but it
    only ever turns a 0 into a -1, so the positive cells it looks for are
    those of the grid it started from. *)
Lemma generateEdges_spec s :
  grid_wf s ->
  frame s (generateEdges s) /\
  forall a b, in_grid s a b ->
    getData (generateEdges s) a b =
    if decide (exposed s a b) then Some (-1) else getData s a b.
Proof.
  intros Hwf. pose proof Hwf as (Hw & Hh & _).
  set (inv := fun (y x : Z) (t : Sprite) =>
    frame s t /\
    forall a b, in_grid s a b ->
      getData t a b =
      if decide (getData s a b = Some 0 /\ near_body (visited y x) s a b)
      then Some (-1) else getData s a b).
  assert (H : inv (height s) 0 (generateEdges s)).
  { unfold generateEdges. apply for_yx_ind; [done|done| | |].
    - split; [apply frame_refl|]. intros a b Hab.
      rewrite decide_False; [done|]. intros [_ Hnb].
      unfold near_body, body_at, visited, in_grid in Hnb. lia.
    - intros x y t Hx Hy [Hfr Hc].
      assert (Hxy : in_grid s x y) by (unfold in_grid; lia).
      pose proof (frame_wf _ _ Hfr Hwf) as Hwft.
      destruct (edges_cell_spec t x y) as [Hfr' Hc'];
        [done|by apply (frame_in_grid s t)|].
      split; [by eapply frame_trans|].
      intros a b Hab. rewrite Hc' by by apply (frame_in_grid s t).
      rewrite !Hc by done.
      assert (Hp : is_pos (if decide (getData s x y = Some 0 /\
                                      near_body (visited y x) s x y)
                           then Some (-1) else getData s x y)
                   = is_pos (getData s x y)).
      { destruct (decide _) as [[Hd _]|]; [by rewrite Hd|done]. }
      rewrite Hp. clear Hp.
      pose proof (near_body_next s y x a b Hxy) as Hnext.
      clear Hx Hy Hw Hh Hc Hc' Hfr Hfr' Hwft Hwf.
      repeat case_decide; try done; exfalso;
        intuition (try discriminate; congruence).
    - intros y t Hy [Hfr Hc]. split; [done|]. intros a b Hab.
      rewrite Hc by done. apply decide_ext.
      rewrite (near_body_iff (visited (y + 1) 0) (visited y (width s))); [done|].
      intros a' b' Hab'. apply visited_row. by destruct Hab'. }
  destruct H as [Hfr Hc]. split; [done|]. intros a b Hab.
  rewrite Hc by done. apply decide_ext. unfold exposed.
  rewrite (near_body_iff (visited (height s) 0) (fun _ _ => True)); [done|].
  intros a' b' [_ Hb']. unfold visited. split; [done|]. intros _. lia.
Qed.

(** ** Stochastic sampling *)

Lemma sample_cell_spec val g :
  sample_cell val g =
  (resolve val (g 0%nat),
   if stochastic val then (fun n => g (S n)) else g).
Proof.
  unfold resolve, sample_cell, Math_random.
  destruct val as [[|p|p]|]; try done.
  destruct p as [p|p|]; try done. destruct p; done.
Qed.

Lemma draws_before_next s x y :
  grid_wf s -> in_grid s x y ->
  draws_before s (x + 1) y =
  (draws_before s x y + if stochastic (getData s x y) then 1 else 0)%nat.
Proof.
  intros Hwf Hxy. destruct (in_grid_index s x y Hwf Hxy) as [H0 Hlt].
  unfold draws_before, getData, array_get.
  destruct (Z.ltb_spec (y * width s + x) 0); [lia|].
  replace (Z.to_nat (y * width s + (x + 1)))
    with (S (Z.to_nat (y * width s + x))) by lia.
  destruct (lookup_lt_is_Some_2 _ _ Hlt) as [c Hc].
  rewrite (take_S_r _ _ c) by done. rewrite Hc. simpl.
  rewrite filter_app, length_app. f_equal.
  rewrite filter_cons, filter_nil.
  destruct (stochastic c); by rewrite ?decide_True, ?decide_False by done.
Qed.

Lemma draws_before_row s y :
  draws_before s 0 (y + 1) = draws_before s (width s) y.
Proof. unfold draws_before. do 3 f_equal. lia. Qed.

Lemma generateRandomSample_spec s g :
  grid_wf s ->
  frame s (fst (generateRandomSample s g)) /\
  (forall n, snd (generateRandomSample s g) n =
             g (draws_before s 0 (height s) + n)%nat) /\
  forall a b, in_grid s a b ->
    getData (fst (generateRandomSample s g)) a b =
    resolve (getData s a b) (g (draws_before s a b)).
Proof.
  intros Hwf. pose proof Hwf as (Hw & Hh & _).
  set (inv := fun (y x : Z) (st : Sprite * rng) =>
    frame s (fst st) /\
    (forall n, snd st n = g (draws_before s x y + n)%nat) /\
    forall a b, in_grid s a b ->
      getData (fst st) a b =
      if decide (visited y x a b)
      then resolve (getData s a b) (g (draws_before s a b))
      else getData s a b).
  assert (H : inv (height s) 0 (generateRandomSample s g)).
  { unfold generateRandomSample. apply for_yx_ind; [done|done| | |].
    - split; [apply frame_refl|]. split; [done|]. intros a b [Ha Hb].
      rewrite decide_False; [done|]. unfold visited. lia.
    - intros x y [t g'] Hx Hy (Hfr & Hg & Hc). simpl in Hfr, Hg, Hc.
      assert (Hxy : in_grid s x y) by (unfold in_grid; lia).
      pose proof (frame_wf _ _ Hfr Hwf) as Hwft.
      assert (Hxyt : in_grid t x y) by by apply (frame_in_grid s t).
      assert (Hcur : getData t x y = getData s x y).
      { rewrite Hc by done. rewrite decide_False; [done|]. unfold visited. lia. }
      rewrite Hcur, sample_cell_spec. simpl.
      split; [eapply frame_trans; [done|by apply setData_frame]|]. split.
      + intros n. rewrite draws_before_next by done.
        destruct (stochastic (getData s x y)); cbn [snd]; rewrite Hg;
          f_equal; lia.
      + intros a b Hab.
        cbn [fst].
        rewrite getData_setData; [|done|done|by apply (frame_in_grid s t)].
        rewrite Hc by done. rewrite Hg, Nat.add_0_r.
        destruct (decide (a = x /\ b = y)) as [[-> ->]|Hne].
        * rewrite decide_True; [done|]. rewrite visited_next. lia.
        * apply decide_ext. rewrite visited_next. tauto.
    - intros y [t g'] Hy (Hfr & Hg & Hc). split; [done|]. split.
      + intros n. rewrite draws_before_row. apply Hg.
      + intros a b Hab. simpl in Hc |- *. rewrite Hc by done.
        apply decide_ext. symmetry. apply visited_row. by destruct Hab. }
  destruct H as (Hfr & Hg & Hc). split; [done|]. split; [done|].
  intros a b Hab. rewrite Hc by done. rewrite decide_True; [done|].
  destruct Hab as [_ Hb]. unfold visited. lia.
Qed.

(** ** Exposed cells and reflections *)

Lemma near_body_adjacent s a b :
  near_body (fun _ _ => True) s a b <->
  exists a' b', adjacent a' b' a b /\ in_grid s a' b' /\
                is_pos (getData s a' b') = true.
Proof.
  unfold near_body, body_at, adjacent. split.
  - intros [H|[H|[H|H]]]; destruct H as (Hin & _ & Hp);
      eexists _, _; (split; [|split; [exact Hin|exact Hp]]); lia.
  - intros (a' & b' & Hadj & Hin & Hp).
    destruct Hadj as [[-> ->]|[[-> ->]|[[-> ->]|[-> ->]]]].
    + right; left. replace (b' - 1 + 1) with b' by lia. done.
    + left. replace (b' + 1 - 1) with b' by lia. done.
    + right; right; right. replace (a' - 1 + 1) with a' by lia. done.
    + right; right; left. replace (a' + 1 - 1) with a' by lia. done.
Qed.

Lemma generateEdges_pos s a b :
  grid_wf s -> in_grid s a b ->
  is_pos (getData (generateEdges s) a b) = is_pos (getData s a b).
Proof.
  intros Hwf Hab. destruct (generateEdges_spec s Hwf) as [_ Hc].
  rewrite Hc by done. case_decide as Hd; [|done].
  destruct Hd as [-> _]. done.
Qed.

(** After edge synthesis no cell is exposed any more. *)
Lemma generateEdges_not_exposed s a b :
  grid_wf s -> in_grid s a b -> ~ exposed (generateEdges s) a b.
Proof.
  intros Hwf Hab [Hz Hnb].
  destruct (generateEdges_spec s Hwf) as [Hfr Hc].
  rewrite Hc in Hz by done. case_decide as Hd; [done|].
  apply Hd. split; [done|].
  apply near_body_adjacent in Hnb as (a' & b' & Hadj & Hin & Hp).
  apply (frame_in_grid s) in Hin; [|done].
  rewrite generateEdges_pos in Hp by done.
  apply near_body_adjacent. eauto.
Qed.

Lemma sprite_eq s t : frame s t -> data t = data s -> t = s.
Proof.
  destruct s, t. unfold frame. simpl. intros (-> & -> & -> & -> & -> & _) ->.
  done.
Qed.

Section Reflection.
Variable s : Sprite.
Variables fx fy : Z -> Z.
Hypothesis Hwf : grid_wf s.
Hypothesis Hin : forall a b, in_grid s a b -> in_grid s (fx a) (fy b).
Hypothesis Hadj : forall a b a' b',
  adjacent a b a' b' -> adjacent (fx a) (fy b) (fx a') (fy b').
Hypothesis Hfx : forall a, fx (fx a) = a.
Hypothesis Hfy : forall b, fy (fy b) = b.
Hypothesis Hsym : forall a b,
  in_grid s a b -> getData s a b = getData s (fx a) (fy b).

Lemma exposed_reflect a b :
  in_grid s a b -> exposed s a b -> exposed s (fx a) (fy b).
Proof.
  intros Hab [Hz Hnb]. split; [by rewrite <- Hsym|].
  apply near_body_adjacent in Hnb as (a' & b' & Ha & Hi & Hp).
  apply near_body_adjacent. exists (fx a'), (fy b').
  split; [by apply Hadj|]. split; [by apply Hin|].
  by rewrite <- Hsym.
Qed.

(** Edge synthesis keeps a symmetry of the grid. *)
Lemma generateEdges_reflect a b :
  in_grid s a b ->
  getData (generateEdges s) a b = getData (generateEdges s) (fx a) (fy b).
Proof.
  intros Hab. destruct (generateEdges_spec s Hwf) as [_ Hc].
  rewrite !Hc by auto. rewrite <- Hsym by done.
  apply decide_ext. split; [by apply exposed_reflect|].
  intros He. apply exposed_reflect in He; [|by apply Hin].
  by rewrite Hfx, Hfy in He.
Qed.
End Reflection.

Lemma generateEdges_symmetricX s :
  grid_wf s -> symmetricX s -> symmetricX (generateEdges s).
Proof.
  intros Hwf Hsym x y Hxy. destruct (generateEdges_spec s Hwf) as [Hfr _].
  apply (frame_in_grid s) in Hxy; [|done].
  destruct Hfr as (-> & _).
  apply (generateEdges_reflect s (fun a => width s - 1 - a) (fun b => b));
    try done.
  - unfold in_grid. lia.
  - unfold adjacent. lia.
  - intros; lia.
Qed.

Lemma generateEdges_symmetricY s :
  grid_wf s -> symmetricY s -> symmetricY (generateEdges s).
Proof.
  intros Hwf Hsym x y Hxy. destruct (generateEdges_spec s Hwf) as [Hfr _].
  apply (frame_in_grid s) in Hxy; [|done].
  destruct Hfr as (_ & -> & _).
  apply (generateEdges_reflect s (fun a => a) (fun b => height s - 1 - b));
    try done.
  - unfold in_grid. lia.
  - unfold adjacent. lia.
  - intros; lia.
Qed.

Lemma mirrorX_symmetricX s : grid_wf s -> symmetricX (mirrorX s).
Proof.
  intros Hwf x y Hxy. destruct (mirrorX_spec s Hwf) as [Hfr _].
  apply (frame_in_grid s) in Hxy; [|done].
  destruct Hfr as (-> & _). by apply mirrorX_symmetric.
Qed.

Lemma mirrorY_symmetricY s : grid_wf s -> symmetricY (mirrorY s).
Proof.
  intros Hwf x y Hxy. destruct (mirrorY_spec s Hwf) as [Hfr _].
  apply (frame_in_grid s) in Hxy; [|done].
  destruct Hfr as (_ & -> & _). by apply mirrorY_symmetric.
Qed.

(** Mirroring the rows keeps the symmetry of the columns. *)
Lemma mirrorY_symmetricX s :
  grid_wf s -> symmetricX s -> symmetricX (mirrorY s).
Proof.
  intros Hwf Hsym x y Hxy. destruct (mirrorY_spec s Hwf) as [Hfr Hc].
  apply (frame_in_grid s) in Hxy; [|done].
  destruct Hfr as (-> & _).
  assert (Hxy' : in_grid s (width s - 1 - x) y) by (unfold in_grid in *; lia).
  rewrite !Hc by done.
  case_decide; apply Hsym; unfold in_grid in *; lia.
Qed.

(** ** The grid pipeline of [init] *)

Lemma same_grid_refl s : same_grid s s.
Proof. by repeat split. Qed.

Lemma same_grid_trans s t u : same_grid s t -> same_grid t u -> same_grid s u.
Proof.
  unfold same_grid. intros (?&?&?&?&?) (?&?&?&?&?). repeat split; congruence.
Qed.

Lemma same_grid_getData s t x y : same_grid s t -> getData t x y = getData s x y.
Proof. intros (Hw & _ & _ & _ & Hd). unfold getData. by rewrite Hw, Hd. Qed.

Lemma same_grid_wf s t : same_grid s t -> grid_wf s -> grid_wf t.
Proof. unfold grid_wf. intros (-> & -> & _ & _ & ->). done. Qed.

Lemma same_grid_symmetricX s t : same_grid s t -> symmetricX s -> symmetricX t.
Proof.
  intros Hsg Hsym x y Hxy. rewrite !(same_grid_getData s t) by done.
  destruct Hsg as (Hw & Hh & _). rewrite Hw. apply Hsym.
  unfold in_grid in *. by rewrite <- Hw, <- Hh.
Qed.

Lemma same_grid_symmetricY s t : same_grid s t -> symmetricY s -> symmetricY t.
Proof.
  intros Hsg Hsym x y Hxy. rewrite !(same_grid_getData s t) by done.
  destruct Hsg as (Hw & Hh & _). rewrite Hh. apply Hsym.
  unfold in_grid in *. by rewrite <- Hw, <- Hh.
Qed.

Lemma blank_wf m opts : grid_wf (blank m opts).
Proof.
  unfold grid_wf, blank, new_Array; simpl. rewrite length_replicate.
  destruct (Mask.mirrorX m), (Mask.mirrorY m); lia.
Qed.

Lemma blank_mask_fits m opts :
  Z.of_nat (Mask.width (mask (blank m opts))) <= width (blank m opts) /\
  Z.of_nat (Mask.height (mask (blank m opts))) <= height (blank m opts).
Proof.
  unfold blank; simpl. destruct (Mask.mirrorX m), (Mask.mirrorY m); lia.
Qed.

(** The sprite that enters the mirroring step. *)
Lemma sampled_shape this g :
  grid_wf this ->
  Z.of_nat (Mask.width (mask this)) <= width this ->
  Z.of_nat (Mask.height (mask this)) <= height this ->
  let s := fst (generateRandomSample (applyMask (initData (initContext this))) g) in
  grid_wf s /\ width s = width this /\ height s = height this /\
  mask s = mask this /\ options s = options this /\
  pixels s = pixels (initContext this).
Proof.
  intros Hwf Hmw Hmh.
  assert (W0 : grid_wf (initContext this)) by done.
  destruct (initData_spec _ W0) as [F1 _].
  pose proof (frame_wf _ _ F1 W0) as W1.
  destruct (applyMask_spec (initData (initContext this))) as [F2 _]; [done| | |].
  { destruct F1 as (-> & _ & -> & _). done. }
  { destruct F1 as (_ & -> & -> & _). done. }
  pose proof (frame_wf _ _ F2 W1) as W2.
  destruct (generateRandomSample_spec
              (applyMask (initData (initContext this))) g W2) as [F3 _].
  pose proof (frame_wf _ _ F3 W2) as W3.
  pose proof (frame_trans _ _ _ (frame_trans _ _ _ F1 F2) F3)
    as (Ew & Eh & Em & Eo & Ep & _).
  cbn zeta. repeat split; try done; apply W3.
Qed.

Section GridPhases.
Variable second_mirror : Sprite -> Sprite.
Hypothesis Hframe : forall s, grid_wf s -> frame s (second_mirror s).
Variable this : Sprite.
Variable g : rng.
Hypothesis Hwf : grid_wf this.
Hypothesis Hmw : Z.of_nat (Mask.width (mask this)) <= width this.
Hypothesis Hmh : Z.of_nat (Mask.height (mask this)) <= height this.

Lemma grid_phases_shape :
  let s := fst (grid_phases second_mirror this g) in
  grid_wf s /\ width s = width this /\ height s = height this /\
  mask s = mask this /\ options s = options this /\
  pixels s = pixels (initContext this).
Proof.
  unfold grid_phases, initCanvas.
  pose proof (sampled_shape this g Hwf Hmw Hmh) as Hs. cbn zeta in Hs.
  destruct (generateRandomSample _ g) as [s4 g4]. cbn [fst] in Hs.
  destruct Hs as (W4 & Ew & Eh & Em & Eo & Ep). rewrite Em.
  set (s5 := if Mask.mirrorX (mask this) then mirrorX s4 else s4).
  assert (F5 : frame s4 s5).
  { unfold s5. destruct (Mask.mirrorX _); [by apply mirrorX_spec|apply frame_refl]. }
  pose proof (frame_wf _ _ F5 W4) as W5.
  assert (Em5 : mask s5 = mask this) by (destruct F5 as (_&_&->&_); done).
  rewrite Em5.
  set (s6 := if Mask.mirrorY (mask this) then second_mirror s5 else s5).
  assert (F6 : frame s5 s6).
  { unfold s6. destruct (Mask.mirrorY _); [by apply Hframe|apply frame_refl]. }
  pose proof (frame_wf _ _ F6 W5) as W6.
  destruct (generateEdges_spec s6 W6) as [F7 _].
  pose proof (frame_wf _ _ F7 W6) as W7.
  pose proof (frame_trans _ _ _ (frame_trans _ _ _ F5 F6) F7)
    as (Ew' & Eh' & Em' & Eo' & Ep' & _).
  cbn [fst]. repeat split; try congruence; apply W7.
Qed.

Lemma grid_phases_symmetricX :
  Mask.mirrorX (mask this) = true ->
  (forall s, grid_wf s -> symmetricX s -> symmetricX (second_mirror s)) ->
  symmetricX (fst (grid_phases second_mirror this g)).
Proof.
  intros HmX Hkeep. unfold grid_phases, initCanvas.
  pose proof (sampled_shape this g Hwf Hmw Hmh) as Hs. cbn zeta in Hs.
  destruct (generateRandomSample _ g) as [s4 g4]. cbn [fst] in Hs.
  destruct Hs as (W4 & Ew & Eh & Em & Eo & Ep). rewrite Em, HmX.
  destruct (mirrorX_spec s4 W4) as [F5 _].
  pose proof (frame_wf _ _ F5 W4) as W5.
  pose proof (mirrorX_symmetricX s4 W4) as S5.
  assert (Em5 : mask (mirrorX s4) = mask this) by (destruct F5 as (_&_&->&_); done).
  rewrite Em5. cbn [fst].
  apply generateEdges_symmetricX.
  - destruct (Mask.mirrorY _); [|done].
    eapply frame_wf; [by apply Hframe|done].
  - destruct (Mask.mirrorY _); [|done]. by apply Hkeep.
Qed.
End GridPhases.

Lemma grid_phases_symmetricY this g :
  grid_wf this ->
  Z.of_nat (Mask.width (mask this)) <= width this ->
  Z.of_nat (Mask.height (mask this)) <= height this ->
  Mask.mirrorY (mask this) = true ->
  symmetricY (fst (grid_phases mirrorY this g)).
Proof.
  intros Hwf Hmw Hmh HmY. unfold grid_phases, initCanvas.
  pose proof (sampled_shape this g Hwf Hmw Hmh) as Hs. cbn zeta in Hs.
  destruct (generateRandomSample _ g) as [s4 g4]. cbn [fst] in Hs.
  destruct Hs as (W4 & Ew & Eh & Em & Eo & Ep). rewrite Em.
  set (s5 := if Mask.mirrorX (mask this) then mirrorX s4 else s4).
  assert (F5 : frame s4 s5).
  { unfold s5. destruct (Mask.mirrorX _); [by apply mirrorX_spec|apply frame_refl]. }
  pose proof (frame_wf _ _ F5 W4) as W5.
  assert (Em5 : mask s5 = mask this) by (destruct F5 as (_&_&->&_); done).
  rewrite Em5, HmY. cbn [fst].
  apply generateEdges_symmetricY.
  - eapply frame_wf; [by apply mirrorY_spec|done].
  - by apply mirrorY_symmetricY.
Qed.

(** ** The pixel buffer *)

Lemma length_pixel_store p i q : length (pixel_store p i q) = length p.
Proof. unfold pixel_store. destruct (i <? 0); [done|]. apply length_insert. Qed.

Lemma pixel_at_store p i k q :
  0 <= i -> 0 <= k ->
  pixel_at (pixel_store p i q) k =
  if decide (k = i /\ (Z.to_nat i < length p)%nat)
  then Some (ToUint8Clamp q) else pixel_at p k.
Proof.
  intros Hi Hk. unfold pixel_at, pixel_store.
  destruct (Z.ltb_spec i 0); [lia|]. destruct (Z.ltb_spec k 0); [lia|].
  rewrite list_lookup_insert. apply decide_ext. lia.
Qed.

Lemma store_rgba_spec s j r g b a :
  0 <= j -> (Z.to_nat (j * 4 + 3) < length (pixels s))%nat ->
  same_grid s (store_rgba s (j * 4) r g b a) /\
  length (pixels (store_rgba s (j * 4) r g b a)) = length (pixels s) /\
  forall j', 0 <= j' ->
    pixel_at (pixels (store_rgba s (j * 4) r g b a)) (j' * 4 + 3) =
    if decide (j' = j) then Some (ToUint8Clamp (a * 255))
    else pixel_at (pixels s) (j' * 4 + 3).
Proof.
  intros Hj Hlen. unfold store_rgba. cbn [pixels with_pixels].
  split; [by repeat split|]. split; [by rewrite !length_pixel_store|].
  intros j' Hj'. rewrite !pixel_at_store by lia.
  rewrite !length_pixel_store.
  repeat case_decide; try done; exfalso; lia.
Qed.

Lemma cell_index_bound s x y :
  0 <= width s -> 0 <= height s -> pixels_wf s -> in_grid s x y ->
  0 <= y * width s + x /\
  (Z.to_nat ((y * width s + x) * 4 + 3) < length (pixels s))%nat.
Proof.
  unfold pixels_wf, in_grid. intros Hw Hh -> [Hx Hy]. split; [nia|].
  apply Z2Nat.inj_lt; nia.
Qed.

Lemma cell_index_inj s x y x' y' :
  in_grid s x y -> in_grid s x' y' ->
  y' * width s + x' = y * width s + x <-> x' = x /\ y' = y.
Proof.
  intros [Hx Hy] [Hx' Hy']. split; [|by intros [-> ->]].
  intros Heq. by eapply index_inj.
Qed.

(** ** Rendering, v0.0.2: the alpha channel *)

Section RenderAlpha.
Variable sin_pi : Q -> Q.
Variable o : Options.t.

Lemma pixel_color_alpha val u ulen hue saturation g :
  snd (fst (V002.pixel_color sin_pi o val u ulen hue saturation g)) =
  if is_zero val then 0%Q else 1%Q.
Proof.
  unfold V002.pixel_color, Math_random.
  destruct (is_zero val); [done|]. cbn [negb].
  destruct (Options.colored o); done.
Qed.

Lemma render_cell_spec (vert : bool) (ulen vlen u : Z) hue saturation (v : Z)
    (s : Sprite) (g : rng) :
  let x := if vert then v else u in
  let y := if vert then u else v in
  (if vert then vlen else ulen) = width s ->
  0 <= width s -> 0 <= height s -> pixels_wf s -> in_grid s x y ->
  let s' := fst (V002.render_cell sin_pi o vert ulen vlen u hue saturation v (s, g)) in
  same_grid s s' /\ length (pixels s') = length (pixels s) /\
  forall x' y', in_grid s x' y' ->
    alpha_at s' x' y' =
    if decide (x' = x /\ y' = y)
    then Some (if is_zero (getData s x y) then 0 else 255)
    else alpha_at s x' y'.
Proof.
  intros x y Hlen Hw Hh Hp Hxy.
  destruct (cell_index_bound s x y Hw Hh Hp Hxy) as [Hi0 Hi].
  unfold V002.render_cell.
  assert (E : (if vert
               then (getData s v u, (u * vlen + v) * 4)
               else (getData s u v, (v * ulen + u) * 4))
              = (getData s x y, (y * width s + x) * 4)).
  { unfold x, y. destruct vert; by rewrite Hlen. }
  rewrite E. clear E.
  pose proof (pixel_color_alpha (getData s x y) u ulen hue saturation g) as Ha.
  destruct (V002.pixel_color _ _ _ _ _ _ _ _) as [[rgba a] g'].
  cbn [fst snd] in Ha. subst a. cbn [fst].
  destruct (store_rgba_spec s (y * width s + x) (Rgb.r rgba) (Rgb.g rgba)
              (Rgb.b rgba) (if is_zero (getData s x y) then 0%Q else 1%Q))
    as (Hsg & Hl & Hpx); [done|done|].
  split; [done|]. split; [done|]. intros x' y' Hxy'.
  unfold alpha_at. destruct Hsg as (-> & _).
  destruct (cell_index_bound s x' y' Hw Hh Hp Hxy') as [Hi0' _].
  rewrite Hpx by done.
  rewrite (decide_ext _ (x' = x /\ y' = y)) by by apply cell_index_inj.
  case_decide; [|done]. by destruct (is_zero _).
Qed.

Lemma same_grid_pixels_wf s t :
  same_grid s t -> length (pixels t) = length (pixels s) ->
  pixels_wf s -> pixels_wf t.
Proof. unfold pixels_wf. intros (-> & -> & _) ->. done. Qed.

Lemma same_grid_in_grid s t x y :
  same_grid s t -> in_grid t x y <-> in_grid s x y.
Proof. unfold in_grid. intros (-> & -> & _). done. Qed.

Lemma same_grid_alpha_at s t x y :
  same_grid s t -> alpha_at t x y = pixel_at (pixels t) ((y * width s + x) * 4 + 3).
Proof. unfold alpha_at. intros (-> & _). done. Qed.

(** One pass of the inner loop: the line [u] of the gradient axis. *)
Lemma render_cells_spec (vert : bool) (ulen vlen u : Z) hue saturation
    (s : Sprite) (g : rng) :
  (if vert then (ulen, vlen) else (vlen, ulen)) = (height s, width s) ->
  0 <= width s -> 0 <= height s -> pixels_wf s -> 0 <= u < ulen ->
  let s' := fst (for_ vlen
    (V002.render_cell sin_pi o vert ulen vlen u hue saturation) (s, g)) in
  same_grid s s' /\ length (pixels s') = length (pixels s) /\
  forall x y, in_grid s x y ->
    alpha_at s' x y =
    if decide ((if vert then y else x) = u)
    then Some (if is_zero (getData s x y) then 0 else 255)
    else alpha_at s x y.
Proof.
  intros Hdim Hw Hh Hp Hu.
  assert (Hv0 : 0 <= vlen) by (destruct vert; injection Hdim; lia).
  set (inv := fun (v : Z) (st : Sprite * rng) =>
    same_grid s (fst st) /\ length (pixels (fst st)) = length (pixels s) /\
    forall x y, in_grid s x y ->
      alpha_at (fst st) x y =
      if decide ((if vert then y else x) = u /\ (if vert then x else y) < v)
      then Some (if is_zero (getData s x y) then 0 else 255)
      else alpha_at s x y).
  assert (H : inv vlen (for_ vlen
    (V002.render_cell sin_pi o vert ulen vlen u hue saturation) (s, g))).
  { apply for_ind; [done| |].
    - split; [apply same_grid_refl|]. split; [done|]. intros x y [Hx Hy].
      rewrite decide_False; [done|]. destruct vert; lia.
    - intros v [t g'] Hv (Hsg & Hl & Hc). cbn [fst] in Hsg, Hl, Hc.
      pose proof Hsg as (Ew & Eh & _).
      assert (Hin : in_grid t (if vert then v else u) (if vert then u else v)).
      { unfold in_grid. rewrite Ew, Eh. destruct vert; injection Hdim; lia. }
      destruct (render_cell_spec vert ulen vlen u hue saturation v t g')
        as (Hsg' & Hl' & Hc').
      { rewrite Ew. destruct vert; injection Hdim; lia. }
      { by rewrite Ew. } { by rewrite Eh. }
      { by apply (same_grid_pixels_wf s t). } { done. }
      split; [by eapply same_grid_trans|]. split; [congruence|].
      intros x y Hxy.
      rewrite Hc' by by apply (same_grid_in_grid s t).
      rewrite Hc by done. rewrite (same_grid_getData s t) by done.
      destruct Hxy as [Hx Hy].
      destruct vert;
        (destruct (decide (x = _ /\ y = _)) as [[-> ->]|Hne];
         [rewrite decide_True by lia; done
         |repeat case_decide; try done; exfalso; lia]). }
  destruct H as (Hsg & Hl & Hc). split; [done|]. split; [done|].
  intros x y Hxy. rewrite Hc by done. apply decide_ext.
  destruct Hxy as [Hx Hy]. destruct vert; injection Hdim; lia.
Qed.

Lemma render_line_spec (vert : bool) (ulen vlen u : Z) saturation
    (s : Sprite) (g : rng) (hue : Q) :
  (if vert then (ulen, vlen) else (vlen, ulen)) = (height s, width s) ->
  0 <= width s -> 0 <= height s -> pixels_wf s -> 0 <= u < ulen ->
  let s' := fst (fst (V002.render_line sin_pi o vert ulen vlen saturation u
                        (s, g, hue))) in
  same_grid s s' /\ length (pixels s') = length (pixels s) /\
  forall x y, in_grid s x y ->
    alpha_at s' x y =
    if decide ((if vert then y else x) = u)
    then Some (if is_zero (getData s x y) then 0 else 255)
    else alpha_at s x y.
Proof.
  intros Hdim Hw Hh Hp Hu. unfold V002.render_line, Math_random.
  destruct (if Qgtb _ _ then _ else _) as [hue' g'].
  pose proof (render_cells_spec vert ulen vlen u hue' saturation s g'
                Hdim Hw Hh Hp Hu) as H.
  destruct (for_ vlen _ _) as [t g'']. done.
Qed.

(** [renderPixelData] leaves the grid alone and makes a pixel transparent
    exactly where the cell is 0. *)
Lemma renderPixelData_spec s g :
  0 <= width s -> 0 <= height s -> pixels_wf s ->
  let s' := fst (V002.renderPixelData sin_pi o s g) in
  same_grid s s' /\
  forall x y, in_grid s x y ->
    alpha_at s' x y = Some (if is_zero (getData s x y) then 0 else 255).
Proof.
  intros Hw Hh Hp. unfold V002.renderPixelData, Math_random.
  set (vert := Qgtb (g 0%nat) (1 # 2)).
  set (sat := V002.sprite_saturation o _). set (g3 := fun n : nat => g (S (S (S n)))).
  set (ulen := if vert then height s else width s).
  set (vlen := if vert then width s else height s).
  assert (Hdims : (if vert then (height s, width s) else (width s, height s))
                  = (ulen, vlen)) by (unfold ulen, vlen; by destruct vert).
  rewrite Hdims.
  assert (Hdim : (if vert then (ulen, vlen) else (vlen, ulen))
                 = (height s, width s)) by (unfold ulen, vlen; by destruct vert).
  assert (Hu0 : 0 <= ulen) by (unfold ulen; destruct vert; lia).
  set (inv := fun (u : Z) (st : Sprite * rng * Q) =>
    same_grid s (fst (fst st)) /\
    length (pixels (fst (fst st))) = length (pixels s) /\
    forall x y, in_grid s x y ->
      alpha_at (fst (fst st)) x y =
      if decide ((if vert then y else x) < u)
      then Some (if is_zero (getData s x y) then 0 else 255)
      else alpha_at s x y).
  assert (H : inv ulen (for_ ulen
    (V002.render_line sin_pi o vert ulen vlen sat) (s, g3, g 2%nat))).
  { apply for_ind; [done| |].
    - split; [apply same_grid_refl|]. split; [done|]. intros x y [Hx Hy].
      rewrite decide_False; [done|]. destruct vert; lia.
    - intros u [[t g'] hue'] Hu (Hsg & Hl & Hc). cbn [fst] in Hsg, Hl, Hc.
      pose proof Hsg as (Ew & Eh & _).
      destruct (render_line_spec vert ulen vlen u sat t g' hue')
        as (Hsg' & Hl' & Hc').
      { by rewrite Ew, Eh. } { by rewrite Ew. } { by rewrite Eh. }
      { by apply (same_grid_pixels_wf s t). } { done. }
      split; [by eapply same_grid_trans|]. split; [congruence|].
      intros x y Hxy.
      rewrite Hc' by by apply (same_grid_in_grid s t).
      rewrite Hc by done. rewrite (same_grid_getData s t) by done.
      destruct Hxy as [Hx Hy].
      repeat case_decide; try done; exfalso; lia. }
  destruct (for_ ulen _ _) as [[t g'] hue']. cbn [fst] in *.
  destruct H as (Hsg & Hl & Hc). split; [done|].
  intros x y Hxy. rewrite Hc by done. rewrite decide_True; [done|].
  destruct Hxy as [Hx Hy]. unfold ulen. destruct vert; lia.
Qed.
End RenderAlpha.

(** ** Rendering, v0.0.1 *)

Lemma V001_renderPixelData_spec s :
  0 <= width s -> 0 <= height s -> pixels_wf s ->
  same_grid s (V001.renderPixelData s) /\
  forall x y, in_grid s x y ->
    alpha_at (V001.renderPixelData s) x y = Some 255.
Proof.
  intros Hw Hh Hp.
  set (inv := fun (y x : Z) (t : Sprite) =>
    same_grid s t /\ length (pixels t) = length (pixels s) /\
    forall a b, in_grid s a b ->
      alpha_at t a b =
      if decide (visited y x a b) then Some 255 else alpha_at s a b).
  assert (H : inv (height s) 0 (V001.renderPixelData s)).
  { unfold V001.renderPixelData. apply for_yx_ind; [done|done| | |].
    - split; [apply same_grid_refl|]. split; [done|]. intros a b [Ha Hb].
      rewrite decide_False; [done|]. unfold visited. lia.
    - intros x y t Hx Hy (Hsg & Hl & Hc). pose proof Hsg as (Ew & Eh & _).
      assert (Hxy : in_grid t x y) by (unfold in_grid; rewrite Ew, Eh; lia).
      assert (Hpt : pixels_wf t) by by apply (same_grid_pixels_wf s t).
      destruct (cell_index_bound t x y) as [Hi0 Hi];
        [by rewrite Ew|by rewrite Eh|done|done|].
      match goal with
      | |- inv _ _ (store_rgba t _ ?r ?g ?b ?a) =>
          destruct (store_rgba_spec t (y * width t + x) r g b a)
            as (Hsg' & Hl' & Hpx); [done|done|]
      end.
      split; [by eapply same_grid_trans|]. split; [congruence|].
      intros a b Hab.
      assert (Hab' : in_grid t a b) by by apply (same_grid_in_grid s t).
      destruct (cell_index_bound t a b) as [Hj0 _];
        [by rewrite Ew|by rewrite Eh|done|done|].
      unfold alpha_at at 1. destruct Hsg' as (-> & _).
      rewrite Hpx by done.
      rewrite (decide_ext _ (a = x /\ b = y)) by by apply cell_index_inj.
      fold (alpha_at t a b). rewrite Hc by done.
      destruct (decide (a = x /\ b = y)) as [[-> ->]|Hne].
      + rewrite decide_True; [done|]. rewrite visited_next. lia.
      + apply decide_ext. rewrite visited_next. tauto.
    - intros y t Hy (Hsg & Hl & Hc). split; [done|]. split; [done|].
      intros a b Hab. rewrite Hc by done. apply decide_ext. symmetry.
      apply visited_row. by destruct Hab. }
  destruct H as (Hsg & Hl & Hc). split; [done|]. intros x y Hxy.
  rewrite Hc by done. rewrite decide_True; [done|].
  destruct Hxy as [_ Hy]. unfold visited. lia.
Qed.

(** ** The constructors, unfolded *)

Lemma V001_init_unfold this g :
  V001.init this g =
  (V001.renderPixelData (fst (grid_phases mirrorX this g)),
   snd (grid_phases mirrorX this g)).
Proof.
  unfold V001.init, grid_phases, initCanvas.
  destruct (generateRandomSample _ g) as [t g']. done.
Qed.

Lemma V002_init_unfold sin_pi o this g :
  V002.init sin_pi o this g =
  V002.renderPixelData sin_pi o (fst (grid_phases mirrorY this g))
    (snd (grid_phases mirrorY this g)).
Proof.
  unfold V002.init, grid_phases, initCanvas.
  destruct (generateRandomSample _ g) as [t g']. done.
Qed.

Lemma V002_new_Sprite_unfold sin_pi m opts σ g :
  exists vals,
    fst (fst (V002.new_Sprite sin_pi m opts σ g)) =
    fst (V002.init sin_pi vals (blank m (Some (options_ref opts σ))) g).
Proof.
  unfold V002.new_Sprite, blank, options_ref. destruct opts as [l|]; cbn zeta.
  - match goal with |- context [V002.init _ ?v _ _] => exists v end.
    by destruct (V002.init _ _ _ _).
  - match goal with |- context [V002.init _ ?v _ _] => exists v end.
    by destruct (V002.init _ _ _ _).
Qed.

Lemma blank_pixels_wf m opts : pixels_wf (initContext (blank m opts)).
Proof. unfold pixels_wf, initContext; simpl. by rewrite length_replicate. Qed.

(** The finished sprite of either revision: its grid is the one the grid
    phases leave, and its pixel buffer has the size of the grid. *)
Lemma grid_phases_pixels_wf f m opts g :
  (forall s, grid_wf s -> frame s (f s)) ->
  pixels_wf (fst (grid_phases f (blank m opts) g)).
Proof.
  intros Hf.
  destruct (grid_phases_shape f Hf (blank m opts) g (blank_wf m opts))
    as (_ & Ew & Eh & _ & _ & Ep); try apply blank_mask_fits.
  unfold pixels_wf. rewrite Ep, Ew, Eh. apply blank_pixels_wf.
Qed.

Lemma mirrorX_frame s : grid_wf s -> frame s (mirrorX s).
Proof. intros. by apply mirrorX_spec. Qed.

Lemma mirrorY_frame s : grid_wf s -> frame s (mirrorY s).
Proof. intros. by apply mirrorY_spec. Qed.

Lemma V002_finished sin_pi m opts σ g :
  let s := fst (fst (V002.new_Sprite sin_pi m opts σ g)) in
  let t := fst (grid_phases mirrorY (blank m (Some (options_ref opts σ))) g) in
  same_grid t s /\ grid_wf t /\
  width t = width (blank m opts) /\ height t = height (blank m opts) /\
  forall x y, in_grid t x y ->
    alpha_at s x y = Some (if is_zero (getData t x y) then 0 else 255).
Proof.
  destruct (V002_new_Sprite_unfold sin_pi m opts σ g) as (vals & E).
  set (l := options_ref opts σ) in *.
  cbn zeta. rewrite E, V002_init_unfold.
  destruct (grid_phases_shape mirrorY mirrorY_frame (blank m (Some l)) g
              (blank_wf m _)) as (Wt & Ew & Eh & _); try apply blank_mask_fits.
  pose proof (grid_phases_pixels_wf mirrorY m (Some l) g mirrorY_frame) as Hp.
  destruct (renderPixelData_spec sin_pi vals
              (fst (grid_phases mirrorY (blank m (Some l)) g))
              (snd (grid_phases mirrorY (blank m (Some l)) g)))
    as [Hsg Ha]; [apply Wt|apply Wt|done|].
  split; [done|]. split; [done|]. split; [exact Ew|]. split; [exact Eh|]. done.
Qed.

Lemma V001_finished m g :
  let s := fst (V001.new_Sprite m g) in
  let t := fst (grid_phases mirrorX (blank m None) g) in
  same_grid t s /\ grid_wf t /\
  width t = width (blank m None) /\ height t = height (blank m None) /\
  forall x y, in_grid t x y -> alpha_at s x y = Some 255.
Proof.
  cbn zeta. unfold V001.new_Sprite. fold (blank m None).
  rewrite V001_init_unfold. cbn [fst].
  destruct (grid_phases_shape mirrorX mirrorX_frame (blank m None) g
              (blank_wf m _)) as (Wt & Ew & Eh & _); try apply blank_mask_fits.
  pose proof (grid_phases_pixels_wf mirrorX m None g mirrorX_frame) as Hp.
  destruct (V001_renderPixelData_spec
              (fst (grid_phases mirrorX (blank m None) g)))
    as [Hsg Ha]; [apply Wt|apply Wt|done|].
  split; [done|]. split; [done|]. split; [exact Ew|]. split; [exact Eh|]. done.
Qed.

(** * Properties of the specification *)

(** ** C1: the Mask constructor *)

(** C1, as stated, fails: the empty sequence for a 2 x 2 mask and a 1 x 1
    mask holding the code 7 are both invalid inputs, and for both the
    constructor completes normally with a mask object. *)
Lemma Mask_new_accepts_invalid_input :
  (invalid_mask_input [] 2 2 /\
   Mask.new [] 2 2 None None <> Throw InvalidMaskError /\
   exists m, Mask.new [] 2 2 None None = Normal m) /\
  (invalid_mask_input [7] 1 1 /\
   Mask.new [7] 1 1 None None <> Throw InvalidMaskError /\
   exists m, Mask.new [7] 1 1 None None = Normal m).
Proof.
  split.
  - split; [left; simpl; lia|]. split; [discriminate|]. by eexists.
  - split; [|split; [discriminate|by eexists]].
    right. exists 7. split; [by apply list_elem_of_singleton|]. lia.
Qed.

(** C1, amended: constructing a Mask never fails and validates nothing.
    For every cells sequence, width and height the constructor returns a
    mask that holds exactly the arguments, [mirrorX] and [mirrorY] being
    [true] when they are left out. *)
Theorem Mask_new_total data width height mirrorX mirrorY :
  exists m,
    Mask.new data width height mirrorX mirrorY = Normal m /\
    Mask.data m = data /\ Mask.width m = width /\ Mask.height m = height /\
    Mask.mirrorX m = default true mirrorX /\
    Mask.mirrorY m = default true mirrorY.
Proof.
  eexists. split; [reflexivity|]. simpl.
  by destruct mirrorX, mirrorY.
Qed.

(** ** C2: vertical mirroring *)

(** C2 on v0.0.1: for [new Sprite(new Mask([0, -1], 1, 2))] (both mirror
    flags true) the finished 2 x 4 grid has an empty cell at [(0, 0)] and a
    border cell at [(0, height - 1 - 0)], whatever the random source: [init]
    answers [mask.mirrorY] with a second call of [mirrorX]. *)
Theorem V001_init_not_mirrored_vertically g :
  let s := fst (V001.new_Sprite plain_mask g) in
  Mask.mirrorY plain_mask = true /\
  width s = 2 /\ height s = 4 /\
  getData s 0 0 = Some 0 /\
  getData s 0 (height s - 1 - 0) = Some (-1).
Proof. vm_compute. done. Qed.

(** v0.0.2 does call [mirrorY]: there the property of C2 holds. *)
Lemma V002_new_Sprite_mirrorY_symmetric sin_pi m opts σ g x y :
  Mask.mirrorY m = true ->
  let s := fst (fst (V002.new_Sprite sin_pi m opts σ g)) in
  0 <= x < width s -> 0 <= y < height s ->
  getData s x y = getData s x (height s - 1 - y).
Proof.
  intros HmY s Hx Hy.
  destruct (V002_finished sin_pi m opts σ g) as (Hsg & _).
  fold s in Hsg.
  assert (Hsym : symmetricY s).
  { eapply same_grid_symmetricY; [done|].
    apply grid_phases_symmetricY;
      [apply blank_wf|apply blank_mask_fits|apply blank_mask_fits|done]. }
  by apply Hsym.
Qed.

(** ** C3: horizontal mirroring *)

(** C3: for every mask with [mirrorX = true], the grid of the sprite that
    [new Sprite(mask, options)] (v0.0.2) returns satisfies
    [cell(x, y) = cell(width - 1 - x, y)] at every valid [(x, y)]. *)
Theorem V002_new_Sprite_mirrorX_symmetric sin_pi m opts σ g x y :
  Mask.mirrorX m = true ->
  let s := fst (fst (V002.new_Sprite sin_pi m opts σ g)) in
  0 <= x < width s -> 0 <= y < height s ->
  getData s x y = getData s (width s - 1 - x) y.
Proof.
  intros HmX s Hx Hy.
  destruct (V002_finished sin_pi m opts σ g) as (Hsg & _).
  fold s in Hsg.
  assert (Hsym : symmetricX s).
  { eapply same_grid_symmetricX; [done|].
    apply grid_phases_symmetricX;
      [apply mirrorY_frame|apply blank_wf|apply blank_mask_fits
      |apply blank_mask_fits|done|apply mirrorY_symmetricX]. }
  by apply Hsym.
Qed.

Lemma V002_new_Sprite_mirrorX_symmetric_witness :
  let s := fst (fst (V002.new_Sprite flat_sine demo_mask None ∅ alternating_draws)) in
  getData s 1 2 = getData s (width s - 1 - 1) 2.
Proof.
  apply (V002_new_Sprite_mirrorX_symmetric flat_sine demo_mask None ∅
           alternating_draws 1 2).
  - reflexivity.
  - vm_compute. split; [discriminate|reflexivity].
  - vm_compute. split; [discriminate|reflexivity].
Defined.

(** The same holds in v0.0.1, where [mirrorX] may even run twice. *)
Lemma V001_new_Sprite_mirrorX_symmetric m g x y :
  Mask.mirrorX m = true ->
  let s := fst (V001.new_Sprite m g) in
  0 <= x < width s -> 0 <= y < height s ->
  getData s x y = getData s (width s - 1 - x) y.
Proof.
  intros HmX s Hx Hy.
  destruct (V001_finished m g) as (Hsg & _). fold s in Hsg.
  assert (Hsym : symmetricX s).
  { eapply same_grid_symmetricX; [done|].
    apply grid_phases_symmetricX;
      [apply mirrorX_frame|apply blank_wf|apply blank_mask_fits
      |apply blank_mask_fits|done|].
    intros t Ht _. by apply mirrorX_symmetricX. }
  by apply Hsym.
Qed.

(** ** C4: edge synthesis *)

(** C4: after [generateEdges], no cell holding 1 has a cell holding 0 among
    its orthogonal neighbours inside the grid, and a second run of
    [generateEdges] returns the very same sprite. *)
Theorem generateEdges_outlines_and_is_idempotent s :
  grid_wf s ->
  (forall x y a b,
     in_grid s x y -> in_grid s a b -> adjacent x y a b ->
     getData (generateEdges s) x y = Some 1 ->
     getData (generateEdges s) a b <> Some 0) /\
  generateEdges (generateEdges s) = generateEdges s.
Proof.
  intros Hwf. destruct (generateEdges_spec s Hwf) as [Hfr Hc].
  pose proof (frame_wf _ _ Hfr Hwf) as Hwf'. split.
  - intros x y a b Hxy Hab Hadj H1 H0.
    apply (generateEdges_not_exposed s a b Hwf Hab). split; [done|].
    apply near_body_adjacent. exists x, y.
    split; [done|]. split; [by apply (frame_in_grid s)|]. by rewrite H1.
  - destruct (generateEdges_spec _ Hwf') as [Hfr' Hc'].
    apply sprite_eq; [done|]. apply data_ext; [done|done|].
    intros x y Hxy. rewrite Hc' by done.
    rewrite decide_False; [done|].
    apply generateEdges_not_exposed; [done|].
    by apply (frame_in_grid s (generateEdges s)).
Qed.

Lemma generateEdges_outlines_and_is_idempotent_witness :
  (forall x y a b,
     in_grid edge_demo x y -> in_grid edge_demo a b -> adjacent x y a b ->
     getData (generateEdges edge_demo) x y = Some 1 ->
     getData (generateEdges edge_demo) a b <> Some 0) /\
  generateEdges (generateEdges edge_demo) = generateEdges edge_demo.
Proof.
  apply (generateEdges_outlines_and_is_idempotent edge_demo).
  unfold grid_wf, edge_demo; simpl. lia.
Defined.

(** ** C5: the alpha channel *)

(** C5, as stated, fails on v0.0.1: for [new Sprite(new Mask([0, -1], 1,
    2))] the cell [(0, 0)] of the finished grid is 0 and the alpha byte of
    its pixel is 255. *)
Lemma V001_empty_cell_is_opaque :
  let s := fst (V001.new_Sprite plain_mask half_draws) in
  getData s 0 0 = Some 0 /\ alpha_at s 0 0 = Some 255.
Proof. vm_compute. done. Qed.

(** C5, amended: in v0.0.2 the alpha byte of a pixel is 0 if and only if
    the cell of the finished grid at that position is 0, and it is 255 for
    a cell holding -1 or 1, whatever the options; v0.0.1 writes the alpha
    byte 255 for every cell. *)
Theorem alpha_channel_of_finished_sprite sin_pi m opts σ g x y :
  let s2 := fst (fst (V002.new_Sprite sin_pi m opts σ g)) in
  let s1 := fst (V001.new_Sprite m g) in
  0 <= x < width s2 -> 0 <= y < height s2 ->
  (alpha_at s2 x y = Some 0 <-> getData s2 x y = Some 0) /\
  (getData s2 x y = Some (-1) \/ getData s2 x y = Some 1 ->
   alpha_at s2 x y = Some 255) /\
  alpha_at s1 x y = Some 255.
Proof.
  intros s2 s1 Hx Hy.
  destruct (V002_finished sin_pi m opts σ g) as (Hsg & _ & Ew & Eh & Ha).
  fold s2 in Hsg, Ha.
  destruct (V001_finished m g) as (_ & _ & Ew1 & Eh1 & Ha1). fold s1 in Ha1.
  pose proof Hsg as (Ew2 & Eh2 & _).
  assert (Hin : in_grid (fst (grid_phases mirrorY
                               (blank m (Some (options_ref opts σ))) g)) x y).
  { unfold in_grid. rewrite <- Ew2, <- Eh2. done. }
  specialize (Ha x y Hin). rewrite <- (same_grid_getData _ s2) in Ha by done.
  split; [|split].
  - rewrite Ha. split.
    + destruct (is_zero (getData s2 x y)) eqn:Hz; [|discriminate].
      intros _. by apply is_zero_spec.
    + intros ->. done.
  - rewrite Ha. by intros [-> | ->].
  - apply Ha1. unfold in_grid. rewrite Ew1, Eh1.
    rewrite Ew2, Ew in Hx. rewrite Eh2, Eh in Hy. done.
Qed.

Lemma alpha_channel_of_finished_sprite_witness :
  let s2 := fst (fst (V002.new_Sprite flat_sine demo_mask None ∅ alternating_draws)) in
  let s1 := fst (V001.new_Sprite demo_mask alternating_draws) in
  (alpha_at s2 1 0 = Some 0 <-> getData s2 1 0 = Some 0) /\
  (getData s2 1 0 = Some (-1) \/ getData s2 1 0 = Some 1 ->
   alpha_at s2 1 0 = Some 255) /\
  alpha_at s1 1 0 = Some 255.
Proof.
  apply (alpha_channel_of_finished_sprite flat_sine demo_mask None ∅
           alternating_draws 1 0).
  - vm_compute. split; [discriminate|reflexivity].
  - vm_compute. split; [discriminate|reflexivity].
Defined.

(** ** C6: masks without stochastic codes *)

Lemma resolve_plain c r : stochastic c = false -> resolve c r = c.
Proof.
  unfold resolve, sample_cell.
  destruct c as [[|p|p]|]; try done.
  destruct p as [p|p|]; try done. destruct p; done.
Qed.

Lemma sample_no_stochastic s g :
  grid_wf s ->
  (forall a b, in_grid s a b -> stochastic (getData s a b) = false) ->
  fst (generateRandomSample s g) = s.
Proof.
  intros Hwf Hplain. destruct (generateRandomSample_spec s g Hwf) as (Hfr & _ & Hc).
  apply sprite_eq; [done|]. apply data_ext; [done|done|].
  intros x y Hxy. rewrite Hc by done. apply resolve_plain. by apply Hplain.
Qed.

Lemma applyMask_plain this :
  grid_wf this ->
  Z.of_nat (Mask.width (mask this)) <= width this ->
  Z.of_nat (Mask.height (mask this)) <= height this ->
  Forall (fun c => c = -1 \/ c = 0) (Mask.data (mask this)) ->
  let s := applyMask (initData (initContext this)) in
  grid_wf s /\
  forall a b, in_grid s a b -> stochastic (getData s a b) = false.
Proof.
  intros Hwf Hmw Hmh Hall.
  assert (W0 : grid_wf (initContext this)) by done.
  destruct (initData_spec _ W0) as [F1 C1].
  pose proof (frame_wf _ _ F1 W0) as W1.
  destruct (applyMask_spec (initData (initContext this))) as [F2 C2]; [done| | |].
  { destruct F1 as (-> & _ & -> & _). done. }
  { destruct F1 as (_ & -> & -> & _). done. }
  cbn zeta. split; [by eapply frame_wf|].
  intros a b Hab. apply (frame_in_grid _ _ _ _ F2) in Hab.
  rewrite C2 by done. case_decide as Hd.
  - unfold Mask.data_at. destruct (_ <? 0); [done|].
    destruct (Mask.data _ !! _) as [c|] eqn:Hc; [|done].
    rewrite Forall_forall in Hall.
    destruct (Hall c) as [-> | ->]; [|done|done].
    assert (Em : mask (initData (initContext this)) = mask this)
      by (by destruct F1 as (_ & _ & -> & _)).
    rewrite Em in Hc. apply list_elem_of_lookup. eauto.
  - rewrite C1; [done|]. by apply (frame_in_grid _ _ _ _ F1) in Hab.
Qed.

Lemma grid_phases_deterministic f this g1 g2 :
  grid_wf this ->
  Z.of_nat (Mask.width (mask this)) <= width this ->
  Z.of_nat (Mask.height (mask this)) <= height this ->
  Forall (fun c => c = -1 \/ c = 0) (Mask.data (mask this)) ->
  fst (grid_phases f this g1) = fst (grid_phases f this g2).
Proof.
  intros Hwf Hmw Hmh Hall.
  destruct (applyMask_plain this Hwf Hmw Hmh Hall) as [W Hplain].
  pose proof (sample_no_stochastic _ g1 W Hplain) as E1.
  pose proof (sample_no_stochastic _ g2 W Hplain) as E2.
  unfold grid_phases, initCanvas.
  destruct (generateRandomSample _ g1) as [t1 g1'].
  destruct (generateRandomSample _ g2) as [t2 g2'].
  cbn [fst] in E1, E2. by rewrite E1, E2.
Qed.

(** C6: for every mask whose cells are all -1 or 0, two runs of
    [new Sprite(mask, options)] with any two random sources end with the
    same grid. *)
Theorem grid_is_deterministic_without_stochastic_codes sin_pi m opts σ g1 g2 :
  Forall (fun c => c = -1 \/ c = 0) (Mask.data m) ->
  data (fst (fst (V002.new_Sprite sin_pi m opts σ g1))) =
  data (fst (fst (V002.new_Sprite sin_pi m opts σ g2))).
Proof.
  intros Hall.
  destruct (V002_finished sin_pi m opts σ g1) as ((_ & _ & _ & _ & E1) & _).
  destruct (V002_finished sin_pi m opts σ g2) as ((_ & _ & _ & _ & E2) & _).
  rewrite E1, E2. f_equal.
  apply grid_phases_deterministic;
    [apply blank_wf|apply blank_mask_fits|apply blank_mask_fits|done].
Qed.

Lemma grid_is_deterministic_without_stochastic_codes_witness :
  data (fst (fst (V002.new_Sprite flat_sine plain_mask None ∅ half_draws))) =
  data (fst (fst (V002.new_Sprite flat_sine plain_mask None ∅ alternating_draws))).
Proof.
  apply (grid_is_deterministic_without_stochastic_codes flat_sine plain_mask
           None ∅ half_draws alternating_draws).
  unfold plain_mask; simpl.
  constructor; [right; reflexivity|].
  constructor; [left; reflexivity|]. constructor.
Defined.

(** The same in v0.0.1. *)
Lemma V001_grid_is_deterministic_without_stochastic_codes m g1 g2 :
  Forall (fun c => c = -1 \/ c = 0) (Mask.data m) ->
  data (fst (V001.new_Sprite m g1)) = data (fst (V001.new_Sprite m g2)).
Proof.
  intros Hall.
  destruct (V001_finished m g1) as ((_ & _ & _ & _ & E1) & _).
  destruct (V001_finished m g2) as ((_ & _ & _ & _ & E2) & _).
  rewrite E1, E2. f_equal.
  apply grid_phases_deterministic;
    [apply blank_wf|apply blank_mask_fits|apply blank_mask_fits|done].
Qed.

(** ** C7: stochastic sampling *)

Lemma Math_round_unit r :
  (0 <= r)%Q -> (r < 1)%Q ->
  Math_round r = if Qle_bool (1 # 2) r then 1 else 0.
Proof.
  intros H0 H1. unfold Math_round.
  destruct (Qle_bool (1 # 2) r) eqn:E.
  - apply Qle_bool_iff in E.
    assert (Hlo : Qfloor 1 <= Qfloor (r + (1 # 2))) by (apply Qfloor_resp_le; lra).
    assert (Hhi : Qfloor (r + (1 # 2)) <= Qfloor (3 # 2)) by (apply Qfloor_resp_le; lra).
    change (Qfloor 1) with 1 in Hlo. change (Qfloor (3 # 2)) with 1 in Hhi. lia.
  - assert (Hr : (r < 1 # 2)%Q).
    { apply Qnot_le_lt. intros Hle. apply Qle_bool_iff in Hle. congruence. }
    assert (Hlo : Qfloor 0 <= Qfloor (r + (1 # 2))) by (apply Qfloor_resp_le; lra).
    change (Qfloor 0) with 0 in Hlo.
    assert (Hhi : Qfloor (r + (1 # 2)) < 1).
    { rewrite Zlt_Qlt. eapply Qle_lt_trans; [apply Qfloor_le|].
      change (inject_Z 1) with 1%Q. lra. }
    lia.
Qed.

Lemma resolve_code1 r :
  (0 <= r)%Q -> (r < 1)%Q ->
  resolve (Some 1) r = if Qle_bool (1 # 2) r then Some 1 else Some 0.
Proof.
  intros H0 H1. unfold resolve, sample_cell, Math_random. cbn [fst].
  rewrite Z.mul_1_l, Math_round_unit by done. by destruct (Qle_bool _ _).
Qed.

Lemma resolve_code2 r :
  resolve (Some 2) r = if Qgtb r (1 # 2) then Some 1 else Some (-1).
Proof. done. Qed.

Lemma draws_before_mono s x y x' y' :
  0 <= y * width s + x <= y' * width s + x' ->
  (draws_before s x y <= draws_before s x' y')%nat.
Proof.
  intros H. unfold draws_before.
  set (n := Z.to_nat (y * width s + x)). set (n' := Z.to_nat (y' * width s + x')).
  assert (Hn : (n <= n')%nat) by lia.
  rewrite <- (take_drop n (take n' (data s))).
  rewrite take_take, Nat.min_l by done.
  rewrite filter_app, length_app. lia.
Qed.

(** Two stochastic cells never share a draw. *)
Lemma draws_before_distinct s x y x' y' :
  grid_wf s -> in_grid s x y -> in_grid s x' y' ->
  stochastic (getData s x y) = true ->
  stochastic (getData s x' y') = true ->
  (x', y') <> (x, y) ->
  draws_before s x' y' <> draws_before s x y.
Proof.
  intros Hwf Hxy Hxy' Hs Hs' Hne.
  pose proof (draws_before_next s x y Hwf Hxy) as Hn. rewrite Hs in Hn.
  pose proof (draws_before_next s x' y' Hwf Hxy') as Hn'. rewrite Hs' in Hn'.
  destruct (in_grid_index s x y Hwf Hxy) as [H0 _].
  destruct (in_grid_index s x' y' Hwf Hxy') as [H0' _].
  assert (Hi : y' * width s + x' <> y * width s + x).
  { intros Heq. apply (cell_index_inj s x y x' y') in Heq; [|done|done].
    destruct Heq as [-> ->]. done. }
  destruct (Z.lt_total (y * width s + x) (y' * width s + x')) as [Hlt|[Heq|Hlt]];
    [|congruence|].
  - pose proof (draws_before_mono s (x + 1) y x' y' ltac:(lia)). lia.
  - pose proof (draws_before_mono s (x' + 1) y' x y ltac:(lia)). lia.
Qed.

Lemma filter_length_all {A} (P : A -> Prop) `{forall x, Decision (P x)} l :
  Forall P l -> length (filter P l) = length l.
Proof.
  induction 1 as [|a l Ha _ IH]; [done|].
  rewrite filter_cons_True by done. simpl. by rewrite IH.
Qed.

Lemma filter_length_none {A} (P : A -> Prop) `{forall x, Decision (P x)} l :
  Forall (fun x => ~ P x) l -> length (filter P l) = 0%nat.
Proof.
  induction 1 as [|a l Ha _ IH]; [done|].
  by rewrite filter_cons_False.
Qed.

Lemma midpoint_unit (n : positive) (k : nat) :
  (k < 2 * Pos.to_nat n)%nat ->
  (0 <= (2 * Z.of_nat k + 1) # (4 * n))%Q /\
  ((2 * Z.of_nat k + 1) # (4 * n) < 1)%Q.
Proof. intros Hk. unfold Qle, Qlt; simpl. lia. Qed.

Lemma midpoint_body (c : cell) (n : positive) (k : nat) :
  c = Some 1 \/ c = Some 2 ->
  (k < 2 * Pos.to_nat n)%nat ->
  resolve c ((2 * Z.of_nat k + 1) # (4 * n)) = Some 1 <-> (Pos.to_nat n <= k)%nat.
Proof.
  intros Hc Hk. destruct (midpoint_unit n k Hk) as [H0 H1].
  destruct Hc as [-> | ->].
  - rewrite resolve_code1 by done.
    destruct (Qle_bool _ _) eqn:E.
    + apply Qle_bool_iff in E. unfold Qle in E; simpl in E. split; [lia|done].
    + split; [done|]. intros Hn. exfalso.
      assert (Hle : (1 # 2 <= (2 * Z.of_nat k + 1) # (4 * n))%Q)
        by (unfold Qle; simpl; lia).
      apply Qle_bool_iff in Hle. congruence.
  - rewrite resolve_code2. unfold Qgtb.
    destruct (Qle_bool _ _) eqn:E; simpl.
    + apply Qle_bool_iff in E. unfold Qle in E; simpl in E. split; [done|lia].
    + split; [|done]. intros _.
      destruct (le_lt_dec (Pos.to_nat n) k) as [|Hlt]; [done|]. exfalso.
      assert (Hle : ((2 * Z.of_nat k + 1) # (4 * n) <= 1 # 2)%Q)
        by (unfold Qle; simpl; lia).
      apply Qle_bool_iff in Hle. congruence.
Qed.

(** Exactly half of the midpoints resolve a stochastic code to body. *)
Lemma body_count_midpoints (c : cell) (n : positive) :
  c = Some 1 \/ c = Some 2 ->
  length (midpoints n) = (2 * Pos.to_nat n)%nat /\
  body_count c (midpoints n) = Pos.to_nat n.
Proof.
  intros Hc. unfold body_count, midpoints.
  split; [by rewrite length_map, length_seq|].
  replace (2 * Pos.to_nat n)%nat with (Pos.to_nat n + Pos.to_nat n)%nat by lia.
  rewrite seq_app, map_app, filter_app, length_app.
  rewrite filter_length_none, filter_length_all.
  - rewrite length_map, length_seq. lia.
  - apply Forall_map, Forall_forall. intros k Hk%elem_of_seq.
    apply midpoint_body; [done|lia|lia].
  - apply Forall_map, Forall_forall. intros k Hk%elem_of_seq.
    rewrite midpoint_body; [lia|done|lia].
Qed.

(** C7: [generateRandomSample] resolves every cell on its own.  With [r] the
    draw the cell takes, a draw of [Math.random()] in [0, 1): a cell holding
    1 becomes 1 when [1/2 <= r] and 0 otherwise; a cell holding 2 becomes 1
    when [1/2 < r] and -1 otherwise; a cell holding -1 or 0 keeps its value;
    two stochastic cells never take the same draw; a cell holding a code
    ends up holding -1, 0 or 1.  Either stochastic code becomes body on the
    upper half of [0, 1), that is with probability 1/2 under the uniform
    distribution: of the [2 * n] midpoints of an even subdivision of
    [0, 1), exactly [n] give body. *)
Theorem generateRandomSample_resolves_each_cell s g x y :
  grid_wf s -> unit_draws g -> in_grid s x y ->
  let t := fst (generateRandomSample s g) in
  let r := g (draws_before s x y) in
  (getData s x y = Some 1 ->
   getData t x y = if Qle_bool (1 # 2) r then Some 1 else Some 0) /\
  (getData s x y = Some 2 ->
   getData t x y = if Qgtb r (1 # 2) then Some 1 else Some (-1)) /\
  (getData s x y = Some (-1) \/ getData s x y = Some 0 ->
   getData t x y = getData s x y) /\
  (forall x' y',
     in_grid s x' y' -> (x', y') <> (x, y) ->
     stochastic (getData s x y) = true ->
     stochastic (getData s x' y') = true ->
     draws_before s x' y' <> draws_before s x y) /\
  (forall c n,
     c = Some 1 \/ c = Some 2 ->
     length (midpoints n) = (2 * Pos.to_nat n)%nat /\
     body_count c (midpoints n) = Pos.to_nat n) /\
  (getData s x y ∈ [Some (-1); Some 0; Some 1; Some 2] ->
   getData t x y ∈ [Some (-1); Some 0; Some 1]).
Proof.
  intros Hwf Hg Hxy t r.
  destruct (generateRandomSample_spec s g Hwf) as (_ & _ & Hc).
  specialize (Hc x y Hxy). fold t r in Hc.
  destruct (Hg (draws_before s x y)) as [Hr0 Hr1]. fold r in Hr0, Hr1.
  assert (H1 : getData s x y = Some 1 ->
               getData t x y = if Qle_bool (1 # 2) r then Some 1 else Some 0).
  { intros E. rewrite Hc, E. by apply resolve_code1. }
  assert (H2 : getData s x y = Some 2 ->
               getData t x y = if Qgtb r (1 # 2) then Some 1 else Some (-1)).
  { intros E. rewrite Hc, E. apply resolve_code2. }
  assert (H3 : getData s x y = Some (-1) \/ getData s x y = Some 0 ->
               getData t x y = getData s x y).
  { intros E. rewrite Hc. apply resolve_plain. by destruct E as [-> | ->]. }
  split; [done|]. split; [done|]. split; [done|]. split; [|split].
  - intros x' y' Hxy' Hne Hs Hs'. by apply draws_before_distinct.
  - intros c n Hcn. by apply body_count_midpoints.
  - rewrite !elem_of_cons, !elem_of_nil.
    intros [E|[E|[E|[E|[]]]]].
    + rewrite H3, E by auto. auto.
    + rewrite H3, E by auto. auto.
    + rewrite H1 by done. destruct (Qle_bool _ _); auto.
    + rewrite H2 by done. destruct (Qgtb _ _); auto.
Qed.

Lemma alternating_draws_unit : unit_draws alternating_draws.
Proof.
  intros n. unfold alternating_draws.
  destruct (Nat.even n); unfold Qle, Qlt; simpl; lia.
Defined.

Lemma generateRandomSample_resolves_each_cell_witness :
  let s := sample_demo in
  let t := fst (generateRandomSample s alternating_draws) in
  let r := alternating_draws (draws_before s 1 0) in
  (getData s 1 0 = Some 1 ->
   getData t 1 0 = if Qle_bool (1 # 2) r then Some 1 else Some 0) /\
  (getData s 1 0 = Some 2 ->
   getData t 1 0 = if Qgtb r (1 # 2) then Some 1 else Some (-1)) /\
  (getData s 1 0 = Some (-1) \/ getData s 1 0 = Some 0 ->
   getData t 1 0 = getData s 1 0) /\
  (forall x' y',
     in_grid s x' y' -> (x', y') <> (1, 0) ->
     stochastic (getData s 1 0) = true ->
     stochastic (getData s x' y') = true ->
     draws_before s x' y' <> draws_before s 1 0) /\
  (forall c n,
     c = Some 1 \/ c = Some 2 ->
     length (midpoints n) = (2 * Pos.to_nat n)%nat /\
     body_count c (midpoints n) = Pos.to_nat n) /\
  (getData s 1 0 ∈ [Some (-1); Some 0; Some 1; Some 2] ->
   getData t 1 0 ∈ [Some (-1); Some 0; Some 1]).
Proof.
  apply (generateRandomSample_resolves_each_cell sample_demo alternating_draws 1 0).
  - unfold grid_wf, sample_demo; simpl. lia.
  - apply alternating_draws_unit.
  - unfold in_grid, sample_demo; simpl. lia.
Defined.

(** ** C8: out-of-range options *)

(** The loop over [defaults] writes to the one object [this.options]
    refers to. *)
Lemma set_defaults_heap l entries : forall σ o,
  σ !! l = Some o ->
  foldl (V002.set_default l) σ entries = <[l := foldl with_default o entries]> σ.
Proof.
  induction entries as [|[prop dflt] entries IH]; intros σ o Hl; cbn [foldl].
  - symmetry. by apply insert_id.
  - assert (E : V002.set_default l σ (prop, dflt)
                = <[l := with_default o (prop, dflt)]> σ).
    { unfold V002.set_default, with_default. rewrite Hl. simpl.
      by destruct (o !! prop). }
    rewrite E. rewrite (IH _ (with_default o (prop, dflt))).
    + by rewrite insert_insert_eq.
    + apply lookup_insert_eq.
Qed.

Lemma with_defaults_default o prop dflt :
  (prop, dflt) ∈ V002.defaults ->
  foldl with_default o V002.defaults !! prop = Some (default dflt (o !! prop)).
Proof.
  unfold V002.defaults. rewrite !elem_of_cons, elem_of_nil.
  intros [E|[E|[E|[E|[E|[]]]]]]; injection E as -> ->;
    cbn [foldl]; unfold with_default; cbn [fst snd];
    rewrite ?lookup_insert_ne by done; rewrite lookup_insert_eq;
    by rewrite ?lookup_insert_ne by done.
Qed.

Lemma with_defaults_other o prop :
  prop ∉ V002.defaults.*1 ->
  foldl with_default o V002.defaults !! prop = o !! prop.
Proof.
  unfold V002.defaults. cbn [fmap list_fmap fst].
  rewrite !not_elem_of_cons. intros (? & ? & ? & ? & ? & _).
  cbn [foldl]; unfold with_default; cbn [fst snd].
  by rewrite !lookup_insert_ne by done.
Qed.

Lemma new_Sprite_heap sin_pi m l o σ g :
  σ !! l = Some o ->
  snd (fst (V002.new_Sprite sin_pi m (Some l) σ g)) =
  <[l := foldl with_default o V002.defaults]> σ.
Proof.
  intros Hl. unfold V002.new_Sprite. rewrite (set_defaults_heap l _ σ o Hl).
  by destruct (V002.init _ _ _ _).
Qed.

Lemma new_Sprite_options sin_pi m l o σ g :
  σ !! l = Some o ->
  fst (fst (V002.new_Sprite sin_pi m (Some l) σ g)) =
  fst (V002.init sin_pi (V002.read_options (foldl with_default o V002.defaults))
         (blank m (Some l)) g).
Proof.
  intros Hl. unfold V002.new_Sprite, blank. cbn zeta.
  rewrite (set_defaults_heap l _ σ o Hl), lookup_insert_eq. simpl.
  by destruct (V002.init _ _ _ _).
Qed.


Lemma Sprite_outcome_returns sin_pi m opts σ g :
  buildable m ->
  Sprite_outcome sin_pi m opts σ g = Returns (V002.new_Sprite sin_pi m opts σ g).
Proof.
  unfold buildable, Sprite_outcome. intros Hb. cbn zeta.
  destruct (Z.leb_spec 4294967296
              (Z.of_nat (Mask.width m) * (if Mask.mirrorX m then 2 else 1)
               * (Z.of_nat (Mask.height m) * (if Mask.mirrorY m then 2 else 1))));
    [lia|].
  destruct (Z.eqb_spec (Z.of_nat (Mask.width m) * (if Mask.mirrorX m then 2 else 1)) 0)
    as [E|_]; [rewrite E in Hb; lia|].
  destruct (Z.eqb_spec (Z.of_nat (Mask.height m) * (if Mask.mirrorY m then 2 else 1)) 0)
    as [E|_]; [rewrite E in Hb; lia|].
  done.
Qed.






(** At the witness the closed form gives the bytes 96, 128, 128, 255; with
    [edgeBrightness] 1 it gives 48, 64, 64, 255. *)
Example border_pixel_with_edgeBrightness_2 :
  pixels (fst (fst (V002.new_Sprite flat_sine border_mask (Some 1%positive)
                      {[ 1%positive := options_with_edgeBrightness 2 ]}
                      half_draws))) = [96; 128; 128; 255] /\
  pixels (fst (fst (V002.new_Sprite flat_sine border_mask (Some 1%positive)
                      {[ 1%positive := options_with_edgeBrightness 1 ]}
                      half_draws))) = [48; 64; 64; 255].
Proof. split; vm_compute; reflexivity. Qed.

(** ** C9: HSL to RGB *)

(** C9: for a hue [h >= 0] (a hue is a draw of [Math.random()]),
    [hslToRgb(h, s, l, result)] returns what the specification describes:
    with [f] the fractional part of [h * 6], [p = l(1 - s)],
    [q = l(1 - f s)] and [t = l(1 - (1 - f) s)], the sextant
    [floor(h * 6) mod 6] selects (l,t,p), (q,l,p), (p,l,t), (p,q,l),
    (t,p,l), (l,p,q) for 0 to 5. *)
Theorem hslToRgb_sextants h s l result :
  (0 <= h)%Q -> V002.hslToRgb h s l result = hsl_sextants h s l.
Proof.
  intros Hh. unfold V002.hslToRgb, hsl_sextants. cbn zeta.
  assert (Hi : 0 <= Qfloor (h * 6)).
  { change 0 with (Qfloor 0). apply Qfloor_resp_le. lra. }
  rewrite Z.rem_mod_nonneg by lia.
  pose proof (Z.mod_pos_bound (Qfloor (h * 6)) 6 ltac:(lia)) as Hm.
  remember (Qfloor (h * 6) mod 6) as sextant eqn:E. clear E.
  assert (Hs : sextant = 0 \/ sextant = 1 \/ sextant = 2 \/
               sextant = 3 \/ sextant = 4 \/ sextant = 5) by lia.
  destruct Hs as [-> | [-> | [-> | [-> | [-> | ->]]]]]; reflexivity.
Qed.

Lemma hslToRgb_sextants_witness :
  V002.hslToRgb (7 # 12) (1 # 4) (1 # 2) None = hsl_sextants (7 # 12) (1 # 4) (1 # 2).
Proof.
  apply (hslToRgb_sextants (7 # 12) (1 # 4) (1 # 2) None).
  unfold Qle; simpl. lia.
Defined.

(** Outside that domain the [switch] can miss every case: [%] keeps the
    sign of the dividend, and [result] comes back as it was. *)
Example hslToRgb_negative_hue :
  V002.hslToRgb (- (1 # 12)) (1 # 4) (1 # 2)
    (Some {| Rgb.r := 1; Rgb.g := 1; Rgb.b := 1 |}) =
  {| Rgb.r := 1; Rgb.g := 1; Rgb.b := 1 |}.
Proof. reflexivity. Qed.

(** ** C10: the constructor writes to the caller's options object *)

(** A second pass over [defaults] finds every property defined. *)
Lemma with_defaults_idempotent o :
  foldl with_default (foldl with_default o V002.defaults) V002.defaults =
  foldl with_default o V002.defaults.
Proof.
  apply map_eq. intros prop.
  destruct (decide (prop ∈ V002.defaults.*1)) as [Hin|Hout].
  - apply list_elem_of_fmap in Hin as ([prop' dflt] & -> & Hin). cbn [fst].
    rewrite (with_defaults_default _ _ dflt Hin).
    by rewrite (with_defaults_default o _ dflt Hin).
  - by rewrite with_defaults_other.
Qed.

(** C10: when the caller passes an options object, [new Sprite(mask,
    options)] (v0.0.2), for every mask it can build a sprite for, returns
    a sprite that keeps a reference to that very object, and has written
    to it: afterwards [colored] holds the caller's value or [true],
    [edgeBrightness] the caller's value or 0.3, [colorVariations] the
    caller's value or 0.2, [brightnessNoise] the caller's value or 0.3 and
    [saturation] the caller's value or 0.5, the default standing where
    the caller left the property undefined; the other properties of the
    object and the other objects of the heap are as before.  A second
    sprite built with the same object finds the defaults filled in and
    leaves the heap as it is. *)
Theorem new_Sprite_fills_callers_options sin_pi m l o σ g :
  σ !! l = Some o ->
  buildable m ->
  exists s σ' g' o',
    Sprite_outcome sin_pi m (Some l) σ g = Returns (s, σ', g') /\
    options s = Some l /\
    σ' !! l = Some o' /\
    o' !! "colored" =
      Some (match o !! "colored" with Some v => v | None => VBool true end) /\
    o' !! "edgeBrightness" =
      Some (match o !! "edgeBrightness" with
            | Some v => v | None => VNum (3 # 10) end) /\
    o' !! "colorVariations" =
      Some (match o !! "colorVariations" with
            | Some v => v | None => VNum (2 # 10) end) /\
    o' !! "brightnessNoise" =
      Some (match o !! "brightnessNoise" with
            | Some v => v | None => VNum (3 # 10) end) /\
    o' !! "saturation" =
      Some (match o !! "saturation" with
            | Some v => v | None => VNum (5 # 10) end) /\
    (forall prop, prop ∉ option_names -> o' !! prop = o !! prop) /\
    (forall l', l' <> l -> σ' !! l' = σ !! l') /\
    (forall m1 g1,
       buildable m1 ->
       exists s1 g1',
         Sprite_outcome sin_pi m1 (Some l) σ' g1 = Returns (s1, σ', g1')).
Proof.
  intros Hl Hm.
  set (o' := foldl with_default o V002.defaults).
  destruct (V002.new_Sprite sin_pi m (Some l) σ g) as [[s σ'] g'] eqn:Hnew.
  exists s, σ', g', o'.
  split; [by rewrite Sprite_outcome_returns, Hnew|].
  assert (Hσ' : σ' = <[l := o']> σ).
  { pose proof (new_Sprite_heap sin_pi m l o σ g Hl) as H. by rewrite Hnew in H. }
  assert (Hdef : forall prop dflt,
            (prop, dflt) ∈ V002.defaults ->
            o' !! prop = Some (match o !! prop with Some v => v | None => dflt end)).
  { intros prop dflt Hin. unfold o'.
    rewrite (with_defaults_default o prop dflt Hin). by destruct (o !! prop). }
  split; [|split; [by rewrite Hσ', lookup_insert_eq|]].
  { destruct (V002_finished sin_pi m (Some l) σ g) as ((_ & _ & _ & Eo & _) & _).
    rewrite Hnew in Eo. cbn [fst] in Eo. rewrite Eo.
    destruct (grid_phases_shape mirrorY mirrorY_frame (blank m (Some l)) g
                (blank_wf m _)) as (_ & _ & _ & _ & Eo' & _);
      try apply blank_mask_fits.
    exact Eo'. }
  split; [apply Hdef; unfold V002.defaults; rewrite !elem_of_cons; auto|].
  split; [apply Hdef; unfold V002.defaults; rewrite !elem_of_cons; auto|].
  split; [apply Hdef; unfold V002.defaults; rewrite !elem_of_cons; auto|].
  split; [apply Hdef; unfold V002.defaults; rewrite !elem_of_cons; auto|].
  split; [apply Hdef; unfold V002.defaults; rewrite !elem_of_cons; auto 6|].
  split; [|split].
  - intros prop Hout. by apply with_defaults_other.
  - intros l' Hne. by rewrite Hσ', lookup_insert_ne.
  - intros m1 g1 Hm1.
    destruct (V002.new_Sprite sin_pi m1 (Some l) σ' g1) as [[s1 σ1] g1'] eqn:Hnew1.
    exists s1, g1'. rewrite Sprite_outcome_returns, Hnew1 by done.
    do 3 f_equal.
    pose proof (new_Sprite_heap sin_pi m1 l o' σ' g1) as H.
    rewrite Hnew1 in H. cbn [fst snd] in H. rewrite H.
    + unfold o'. rewrite with_defaults_idempotent. fold o'.
      rewrite Hσ'. apply insert_insert_eq.
    + by rewrite Hσ', lookup_insert_eq.
Qed.

Lemma new_Sprite_fills_callers_options_witness :
  exists s σ' g' o',
    Sprite_outcome flat_sine demo_mask (Some 1%positive)
      {[ 1%positive := monochrome_options ]} half_draws = Returns (s, σ', g') /\
    options s = Some 1%positive /\
    σ' !! 1%positive = Some o' /\
    o' !! "colored" =
      Some (match monochrome_options !! "colored" with
            | Some v => v | None => VBool true end) /\
    o' !! "edgeBrightness" =
      Some (match monochrome_options !! "edgeBrightness" with
            | Some v => v | None => VNum (3 # 10) end) /\
    o' !! "colorVariations" =
      Some (match monochrome_options !! "colorVariations" with
            | Some v => v | None => VNum (2 # 10) end) /\
    o' !! "brightnessNoise" =
      Some (match monochrome_options !! "brightnessNoise" with
            | Some v => v | None => VNum (3 # 10) end) /\
    o' !! "saturation" =
      Some (match monochrome_options !! "saturation" with
            | Some v => v | None => VNum (5 # 10) end) /\
    (forall prop, prop ∉ option_names ->
                  o' !! prop = monochrome_options !! prop) /\
    (forall l', l' <> 1%positive ->
       σ' !! l' = ({[ 1%positive := monochrome_options ]} : heap) !! l') /\
    (forall m1 g1,
       buildable m1 ->
       exists s1 g1',
         Sprite_outcome flat_sine m1 (Some 1%positive) σ' g1 =
         Returns (s1, σ', g1')).
Proof.
  apply (new_Sprite_fills_callers_options flat_sine demo_mask 1%positive
           monochrome_options {[ 1%positive := monochrome_options ]} half_draws).
  - reflexivity.
  - unfold buildable. simpl. lia.
Defined.

(** The object of the witness afterwards:
    [{colored: false, edgeBrightness: 0.3, colorVariations: 0.2,
      brightnessNoise: 0.3, saturation: 0.5}]. *)
Example monochrome_options_filled :
  snd (fst (V002.new_Sprite flat_sine demo_mask (Some 1%positive)
              {[ 1%positive := monochrome_options ]} half_draws)) !! 1%positive =
  Some (<["colored" := VBool false]>
        (<["edgeBrightness" := VNum (3 # 10)]>
        (<["colorVariations" := VNum (2 # 10)]>
        (<["brightnessNoise" := VNum (3 # 10)]>
        (<["saturation" := VNum (5 # 10)]> ∅))))).
Proof. vm_compute. reflexivity. Qed.

(** * Further properties of the code *)

(** ** [getData] and [setData] *)

(** X1: inside the grid [setData] and [getData] address one array element
    per coordinate: a cell reads back the value just written, every other
    cell keeps its value, and the array keeps its length. *)
Theorem setData_getData_round_trip s x y v a b :
  grid_wf s -> in_grid s x y -> in_grid s a b ->
  getData (setData s x y v) a b =
    (if decide (a = x /\ b = y) then v else getData s a b) /\
  length (data (setData s x y v)) = length (data s).
Proof.
  intros Hwf Hxy Hab. split; [by apply getData_setData|].
  by destruct (setData_frame s x y v Hwf Hxy) as (_ & _ & _ & _ & _ & ->).
Qed.

Lemma setData_getData_round_trip_witness :
  getData (setData edge_demo 1 0 (Some 7)) 2 0 =
    (if decide (2 = 1 /\ 0 = 0) then Some 7 else getData edge_demo 2 0) /\
  length (data (setData edge_demo 1 0 (Some 7))) = length (data edge_demo).
Proof.
  apply (setData_getData_round_trip edge_demo 1 0 (Some 7) 2 0).
  - unfold grid_wf, edge_demo; simpl. lia.
  - unfold in_grid, edge_demo; simpl. lia.
  - unfold in_grid, edge_demo; simpl. lia.
Defined.



(** ** The grid phases one by one *)

(** X3: [initData] makes every cell of the grid a border cell, whatever the
    array held before (the holes of [new Array] included), and changes
    nothing else of the sprite. *)
Theorem initData_fills_the_grid s :
  grid_wf s ->
  data (initData s) = replicate (length (data s)) (Some (-1)) /\
  frame s (initData s).
Proof.
  intros Hwf. destruct (initData_spec s Hwf) as [Hfr Hc]. split; [|done].
  set (t := with_data s (replicate (length (data s)) (Some (-1)))).
  assert (Hft : frame s t).
  { unfold frame, t; simpl. by rewrite length_replicate. }
  assert (Hfi : frame t (initData s)).
  { unfold frame in *. unfold t in *; simpl in *. rewrite length_replicate.
    tauto. }
  change (data (initData s) = data t).
  apply data_ext; [by eapply frame_wf|done|].
  intros x y Hxy. apply (frame_in_grid s t) in Hxy; [|done].
  rewrite Hc by done.
  destruct (in_grid_index s x y Hwf Hxy) as [H0 Hlt].
  unfold getData, array_get, t; simpl.
  destruct (Z.ltb_spec (y * width s + x) 0); [lia|].
  by rewrite lookup_replicate_2.
Qed.

Lemma initData_fills_the_grid_witness :
  data (initData edge_demo) = replicate (length (data edge_demo)) (Some (-1)) /\
  frame edge_demo (initData edge_demo).
Proof.
  apply (initData_fills_the_grid edge_demo).
  unfold grid_wf, edge_demo; simpl. lia.
Defined.

(** X4: [applyMask] copies [mask.data] into the top-left [mask.width] x
    [mask.height] rectangle of the grid, row by row, and leaves every other
    cell as it was.  Where [mask.data] is too short the copied cell is
    [undefined]. *)
Theorem applyMask_copies_the_mask s a b :
  grid_wf s ->
  Z.of_nat (Mask.width (mask s)) <= width s ->
  Z.of_nat (Mask.height (mask s)) <= height s ->
  in_grid s a b ->
  let mw := Z.of_nat (Mask.width (mask s)) in
  let mh := Z.of_nat (Mask.height (mask s)) in
  (a < mw -> b < mh ->
   getData (applyMask s) a b = Mask.data (mask s) !! Z.to_nat (b * mw + a)) /\
  (a < mw -> b < mh ->
   (length (Mask.data (mask s)) <= Z.to_nat (b * mw + a))%nat ->
   getData (applyMask s) a b = None) /\
  (mw <= a \/ mh <= b -> getData (applyMask s) a b = getData s a b).
Proof.
  intros Hwf Hmw Hmh Hab mw mh.
  destruct (applyMask_spec s Hwf Hmw Hmh) as [_ Hc].
  specialize (Hc a b Hab). fold mw mh in Hc.
  assert (H1 : a < mw -> b < mh ->
               getData (applyMask s) a b
               = Mask.data (mask s) !! Z.to_nat (b * mw + a)).
  { intros Ha Hb. rewrite Hc, decide_True by done. unfold Mask.data_at.
    destruct Hab as [Ha0 Hb0].
    destruct (Z.ltb_spec (b * mw + a) 0); [|done]. unfold mw in *. nia. }
  split; [done|]. split.
  - intros Ha Hb Hlen. rewrite H1 by done. by apply lookup_ge_None_2.
  - intros Hout. rewrite Hc, decide_False; [done|]. lia.
Qed.

Lemma applyMask_copies_the_mask_witness :
  let s := blank demo_mask None in
  let mw := Z.of_nat (Mask.width (mask s)) in
  let mh := Z.of_nat (Mask.height (mask s)) in
  (1 < mw -> 1 < mh ->
   getData (applyMask s) 1 1 = Mask.data (mask s) !! Z.to_nat (1 * mw + 1)) /\
  (1 < mw -> 1 < mh ->
   (length (Mask.data (mask s)) <= Z.to_nat (1 * mw + 1))%nat ->
   getData (applyMask s) 1 1 = None) /\
  (mw <= 1 \/ mh <= 1 -> getData (applyMask s) 1 1 = getData s 1 1).
Proof.
  apply (applyMask_copies_the_mask (blank demo_mask None) 1 1).
  - apply blank_wf.
  - apply blank_mask_fits.
  - apply blank_mask_fits.
  - unfold in_grid, blank, demo_mask; simpl. lia.
Defined.

(** X5: [mirrorX] writes the left half of every row, reversed, over the
    right half; the left half and, when the width is odd, the middle column
    stay.  A second call changes nothing. *)
Theorem mirrorX_reflects_the_left_half s :
  grid_wf s ->
  (forall a b, in_grid s a b ->
     getData (mirrorX s) a b =
     getData s (if decide (width s - width s / 2 <= a) then width s - a - 1 else a) b) /\
  mirrorX (mirrorX s) = mirrorX s.
Proof.
  intros Hwf. destruct (mirrorX_spec s Hwf) as [Hfr Hc].
  pose proof (frame_wf _ _ Hfr Hwf) as Hwf'.
  assert (H1 : forall a b, in_grid s a b ->
            getData (mirrorX s) a b =
            getData s (if decide (width s - width s / 2 <= a)
                       then width s - a - 1 else a) b).
  { intros a b Hab. rewrite Hc by done. by case_decide. }
  split; [done|].
  destruct (mirrorX_spec _ Hwf') as [Hfr' Hc'].
  apply sprite_eq; [done|]. apply data_ext; [done|done|].
  intros a b Hab. rewrite Hc' by done.
  apply (frame_in_grid s (mirrorX s)) in Hab; [|done].
  destruct Hfr as (Ew & _). rewrite Ew.
  case_decide as Hd; [|done].
  assert (Hab' : in_grid s (width s - a - 1) b) by (unfold in_grid in *; lia).
  rewrite !H1 by done. destruct Hab as [Ha Hb].
  pose proof (Z.div_mod (width s) 2 ltac:(lia)).
  pose proof (Z.mod_pos_bound (width s) 2 ltac:(lia)).
  repeat case_decide; f_equal; lia.
Qed.

Lemma mirrorX_reflects_the_left_half_witness :
  (forall a b, in_grid edge_demo a b ->
     getData (mirrorX edge_demo) a b =
     getData edge_demo
       (if decide (width edge_demo - width edge_demo / 2 <= a)
        then width edge_demo - a - 1 else a) b) /\
  mirrorX (mirrorX edge_demo) = mirrorX edge_demo.
Proof.
  apply (mirrorX_reflects_the_left_half edge_demo).
  unfold grid_wf, edge_demo; simpl. lia.
Defined.





(** X8: [generateEdges] scans the grid while it rewrites it, but the scan
    order has no effect: a cell ends as a border cell exactly when it held 0
    and one of its orthogonal neighbours inside the grid held a positive
    value in the grid the scan started from; every other cell, the body
    cells among them, keeps its value, and nothing else of the sprite
    changes. *)
Theorem generateEdges_is_a_cellwise_map s a b :
  grid_wf s -> in_grid s a b ->
  let lit :=
    getData s a b = Some 0 /\
    exists a' b', adjacent a' b' a b /\ in_grid s a' b' /\
                  is_pos (getData s a' b') = true in
  (lit -> getData (generateEdges s) a b = Some (-1)) /\
  (~ lit -> getData (generateEdges s) a b = getData s a b) /\
  frame s (generateEdges s).
Proof.
  intros Hwf Hab lit. destruct (generateEdges_spec s Hwf) as [Hfr Hc].
  specialize (Hc a b Hab).
  assert (Hlit : lit <-> exposed s a b).
  { unfold lit, exposed. by rewrite near_body_adjacent. }
  split; [|split; [|done]].
  - intros H. rewrite Hc, decide_True; [done|]. by apply Hlit.
  - intros H. rewrite Hc, decide_False; [done|]. by rewrite <- Hlit.
Qed.

Lemma generateEdges_is_a_cellwise_map_witness :
  let lit :=
    getData edge_demo 1 0 = Some 0 /\
    exists a' b', adjacent a' b' 1 0 /\ in_grid edge_demo a' b' /\
                  is_pos (getData edge_demo a' b') = true in
  (lit -> getData (generateEdges edge_demo) 1 0 = Some (-1)) /\
  (~ lit -> getData (generateEdges edge_demo) 1 0 = getData edge_demo 1 0) /\
  frame edge_demo (generateEdges edge_demo).
Proof.
  apply (generateEdges_is_a_cellwise_map edge_demo 1 0).
  - unfold grid_wf, edge_demo; simpl. lia.
  - unfold in_grid, edge_demo; simpl. lia.
Defined.

(** X9: [generateRandomSample] calls [Math.random()] once for every cell
    that holds 1 or 2 and for no other: the source it leaves behind is the
    one it found, advanced by the number of such cells.  It changes cell
    values only. *)
Theorem generateRandomSample_takes_one_draw_per_stochastic_cell s g :
  grid_wf s ->
  (forall n,
     snd (generateRandomSample s g) n =
     g (length (filter (fun c => stochastic c = true) (data s)) + n)%nat) /\
  frame s (fst (generateRandomSample s g)).
Proof.
  intros Hwf. destruct (generateRandomSample_spec s g Hwf) as (Hfr & Hg & _).
  split; [|done]. intros n. rewrite Hg. do 2 f_equal.
  unfold draws_before. destruct Hwf as (Hw & Hh & Hlen).
  rewrite take_ge; [done|]. rewrite Hlen. apply Z2Nat.inj_le; nia.
Qed.

Lemma generateRandomSample_takes_one_draw_per_stochastic_cell_witness :
  (forall n,
     snd (generateRandomSample sample_demo alternating_draws) n =
     alternating_draws
       (length (filter (fun c => stochastic c = true) (data sample_demo)) + n)%nat) /\
  frame sample_demo (fst (generateRandomSample sample_demo alternating_draws)).
Proof.
  apply (generateRandomSample_takes_one_draw_per_stochastic_cell sample_demo
           alternating_draws).
  unfold grid_wf, sample_demo; simpl. lia.
Defined.

(** ** Rendering: whole pixels *)

Lemma store_rgba_pixels s j r g b a :
  0 <= j -> (Z.to_nat (j * 4 + 3) < length (pixels s))%nat ->
  length (pixels (store_rgba s (j * 4) r g b a)) = length (pixels s) /\
  forall j' k, 0 <= j' -> 0 <= k < 4 ->
    pixel_at (pixels (store_rgba s (j * 4) r g b a)) (j' * 4 + k) =
    if decide (j' = j)
    then default None (bytes_of r g b a !! Z.to_nat k)
    else pixel_at (pixels s) (j' * 4 + k).
Proof.
  intros Hj Hlen. unfold store_rgba. cbn [pixels with_pixels].
  split; [by rewrite !length_pixel_store|].
  intros j' k Hj' Hk. rewrite !pixel_at_store by lia.
  rewrite !length_pixel_store.
  assert (Hk' : k = 0 \/ k = 1 \/ k = 2 \/ k = 3) by lia.
  destruct Hk' as [-> | [-> | [-> | ->]]]; cbn [bytes_of Z.to_nat lookup];
    repeat case_decide; try done; exfalso; lia.
Qed.

(** The pixel of a cell after the stores for the cell [(x, y)]. *)
Lemma store_rgba_rgba_at s x y r g b a x' y' :
  0 <= width s -> 0 <= height s -> pixels_wf s ->
  in_grid s x y -> in_grid s x' y' ->
  rgba_at (store_rgba s ((y * width s + x) * 4) r g b a) x' y' =
  if decide (x' = x /\ y' = y) then bytes_of r g b a else rgba_at s x' y'.
Proof.
  intros Hw Hh Hp Hxy Hxy'.
  destruct (cell_index_bound s x y Hw Hh Hp Hxy) as [Hi0 Hi].
  destruct (cell_index_bound s x' y' Hw Hh Hp Hxy') as [Hi0' _].
  destruct (store_rgba_pixels s (y * width s + x) r g b a Hi0 Hi) as [_ Hpx].
  unfold rgba_at. cbn [map].
  replace (width (store_rgba s ((y * width s + x) * 4) r g b a)) with (width s)
    by done.
  rewrite !Hpx by lia.
  destruct (decide (x' = x /\ y' = y)) as [[-> ->]|Hne].
  - by rewrite !decide_True by done.
  - assert (Hidx : y' * width s + x' <> y * width s + x).
    { intros Heq. apply Hne. by apply (cell_index_inj s x y x' y'). }
    by rewrite !decide_False by done.
Qed.

Section RenderPixels.
Variable sin_pi : Q -> Q.
Variable o : Options.t.
(** A property of the bytes of a pixel that holds for whatever colour
    [pixel_color] computes for a cell value. *)
Variable ok : cell -> list (option Z) -> Prop.
Hypothesis Hok : forall val u ulen hue saturation g,
  ok val
    (bytes_of
       (Rgb.r (fst (fst (V002.pixel_color sin_pi o val u ulen hue saturation g))))
       (Rgb.g (fst (fst (V002.pixel_color sin_pi o val u ulen hue saturation g))))
       (Rgb.b (fst (fst (V002.pixel_color sin_pi o val u ulen hue saturation g))))
       (snd (fst (V002.pixel_color sin_pi o val u ulen hue saturation g)))).

Lemma render_cell_pixels (vert : bool) (ulen vlen u : Z) hue saturation (v : Z)
    (s : Sprite) (g : rng) :
  let x := if vert then v else u in
  let y := if vert then u else v in
  (if vert then vlen else ulen) = width s ->
  0 <= width s -> 0 <= height s -> pixels_wf s -> in_grid s x y ->
  let s' := fst (V002.render_cell sin_pi o vert ulen vlen u hue saturation v (s, g)) in
  same_grid s s' /\ length (pixels s') = length (pixels s) /\
  ok (getData s x y) (rgba_at s' x y) /\
  forall x' y', in_grid s x' y' -> ~ (x' = x /\ y' = y) ->
    rgba_at s' x' y' = rgba_at s x' y'.
Proof.
  intros x y Hlen Hw Hh Hp Hxy.
  unfold V002.render_cell.
  assert (E : (if vert
               then (getData s v u, (u * vlen + v) * 4)
               else (getData s u v, (v * ulen + u) * 4))
              = (getData s x y, (y * width s + x) * 4)).
  { unfold x, y. destruct vert; by rewrite Hlen. }
  rewrite E. clear E.
  pose proof (Hok (getData s x y) u ulen hue saturation g) as Hc.
  destruct (V002.pixel_color _ _ _ _ _ _ _ _) as [[rgba a] g'].
  cbn [fst snd] in Hc |- *.
  split; [by repeat split|].
  split; [unfold store_rgba; cbn [pixels with_pixels];
          by rewrite !length_pixel_store|].
  split.
  - rewrite store_rgba_rgba_at by done. by rewrite decide_True.
  - intros x' y' Hxy' Hne. rewrite store_rgba_rgba_at by done.
    by rewrite decide_False.
Qed.

Lemma same_grid_rgba_at s t x y :
  same_grid s t -> pixels t = pixels s -> rgba_at t x y = rgba_at s x y.
Proof. unfold rgba_at. intros (-> & _) ->. done. Qed.

Lemma render_cells_pixels (vert : bool) (ulen vlen u : Z) hue saturation
    (s0 s : Sprite) (g : rng) :
  (if vert then (ulen, vlen) else (vlen, ulen)) = (height s, width s) ->
  0 <= width s -> 0 <= height s -> pixels_wf s -> 0 <= u < ulen ->
  same_grid s0 s ->
  let s' := fst (for_ vlen
    (V002.render_cell sin_pi o vert ulen vlen u hue saturation) (s, g)) in
  same_grid s s' /\ length (pixels s') = length (pixels s) /\
  forall x y, in_grid s x y ->
    if decide ((if vert then y else x) = u)
    then ok (getData s0 x y) (rgba_at s' x y)
    else rgba_at s' x y = rgba_at s x y.
Proof.
  intros Hdim Hw Hh Hp Hu Hs0.
  assert (Hv0 : 0 <= vlen) by (destruct vert; injection Hdim; lia).
  set (inv := fun (v : Z) (st : Sprite * rng) =>
    same_grid s (fst st) /\ length (pixels (fst st)) = length (pixels s) /\
    forall x y, in_grid s x y ->
      if decide ((if vert then y else x) = u /\ (if vert then x else y) < v)
      then ok (getData s0 x y) (rgba_at (fst st) x y)
      else rgba_at (fst st) x y = rgba_at s x y).
  assert (H : inv vlen (for_ vlen
    (V002.render_cell sin_pi o vert ulen vlen u hue saturation) (s, g))).
  { apply for_ind; [done| |].
    - split; [apply same_grid_refl|]. split; [done|]. intros x y [Hx Hy].
      rewrite decide_False; [done|]. destruct vert; lia.
    - intros v [t g'] Hv (Hsg & Hl & Hc). cbn [fst] in Hsg, Hl, Hc.
      pose proof Hsg as (Ew & Eh & _).
      assert (Hin : in_grid t (if vert then v else u) (if vert then u else v)).
      { unfold in_grid. rewrite Ew, Eh. destruct vert; injection Hdim; lia. }
      destruct (render_cell_pixels vert ulen vlen u hue saturation v t g')
        as (Hsg' & Hl' & Hc1 & Hc2).
      { rewrite Ew. destruct vert; injection Hdim; lia. }
      { by rewrite Ew. } { by rewrite Eh. }
      { by apply (same_grid_pixels_wf s t). } { done. }
      split; [by eapply same_grid_trans|]. split; [congruence|].
      intros x y Hxy. cbn [fst].
      assert (Hxyt : in_grid t x y) by by apply (same_grid_in_grid s t).
      specialize (Hc x y Hxy).
      destruct (decide (x = (if vert then v else u) /\
                        y = (if vert then u else v))) as [[Ex Ey]|Hne].
      + rewrite decide_True by (destruct vert; lia).
        rewrite Ex, Ey.
        rewrite <- (same_grid_getData s0 t) by by eapply same_grid_trans.
        exact Hc1.
      + rewrite Hc2 by done. destruct Hxy as [Hx Hy].
        destruct vert; repeat case_decide; try done; exfalso; lia. }
  destruct H as (Hsg & Hl & Hc). split; [done|]. split; [done|].
  intros x y Hxy. specialize (Hc x y Hxy). destruct Hxy as [Hx Hy].
  destruct vert; injection Hdim as E1 E2;
    repeat case_decide; try done; exfalso; lia.
Qed.

Lemma render_line_pixels (vert : bool) (ulen vlen u : Z) saturation
    (s0 s : Sprite) (g : rng) (hue : Q) :
  (if vert then (ulen, vlen) else (vlen, ulen)) = (height s, width s) ->
  0 <= width s -> 0 <= height s -> pixels_wf s -> 0 <= u < ulen ->
  same_grid s0 s ->
  let s' := fst (fst (V002.render_line sin_pi o vert ulen vlen saturation u
                        (s, g, hue))) in
  same_grid s s' /\ length (pixels s') = length (pixels s) /\
  forall x y, in_grid s x y ->
    if decide ((if vert then y else x) = u)
    then ok (getData s0 x y) (rgba_at s' x y)
    else rgba_at s' x y = rgba_at s x y.
Proof.
  intros Hdim Hw Hh Hp Hu Hs0. unfold V002.render_line, Math_random.
  destruct (if Qgtb _ _ then _ else _) as [hue' g'].
  pose proof (render_cells_pixels vert ulen vlen u hue' saturation s0 s g'
                Hdim Hw Hh Hp Hu Hs0) as H.
  destruct (for_ vlen _ _) as [t g'']. done.
Qed.

(** After [renderPixelData] the grid is as before, the buffer has its
    length, and the pixel of every cell satisfies [ok]. *)
Lemma renderPixelData_pixels s g :
  0 <= width s -> 0 <= height s -> pixels_wf s ->
  let s' := fst (V002.renderPixelData sin_pi o s g) in
  same_grid s s' /\ length (pixels s') = length (pixels s) /\
  forall x y, in_grid s x y -> ok (getData s x y) (rgba_at s' x y).
Proof.
  intros Hw Hh Hp. unfold V002.renderPixelData, Math_random.
  set (vert := Qgtb (g 0%nat) (1 # 2)).
  set (sat := V002.sprite_saturation o _). set (g3 := fun n : nat => g (S (S (S n)))).
  set (ulen := if vert then height s else width s).
  set (vlen := if vert then width s else height s).
  assert (Hdims : (if vert then (height s, width s) else (width s, height s))
                  = (ulen, vlen)) by (unfold ulen, vlen; by destruct vert).
  rewrite Hdims.
  assert (Hdim : (if vert then (ulen, vlen) else (vlen, ulen))
                 = (height s, width s)) by (unfold ulen, vlen; by destruct vert).
  assert (Hu0 : 0 <= ulen) by (unfold ulen; destruct vert; lia).
  set (inv := fun (u : Z) (st : Sprite * rng * Q) =>
    same_grid s (fst (fst st)) /\
    length (pixels (fst (fst st))) = length (pixels s) /\
    forall x y, in_grid s x y -> (if vert then y else x) < u ->
      ok (getData s x y) (rgba_at (fst (fst st)) x y)).
  assert (H : inv ulen (for_ ulen
    (V002.render_line sin_pi o vert ulen vlen sat) (s, g3, g 2%nat))).
  { apply for_ind; [done| |].
    - split; [apply same_grid_refl|]. split; [done|]. intros x y [Hx Hy] Hlt.
      exfalso. destruct vert; lia.
    - intros u [[t g'] hue'] Hu (Hsg & Hl & Hc). cbn [fst] in Hsg, Hl, Hc.
      pose proof Hsg as (Ew & Eh & _).
      destruct (render_line_pixels vert ulen vlen u sat s t g' hue')
        as (Hsg' & Hl' & Hc').
      { by rewrite Ew, Eh. } { by rewrite Ew. } { by rewrite Eh. }
      { by apply (same_grid_pixels_wf s t). } { done. } { done. }
      split; [by eapply same_grid_trans|]. split; [congruence|].
      intros x y Hxy Hlt. cbn [fst].
      specialize (Hc' x y ltac:(by apply (same_grid_in_grid s t))).
      case_decide as Hd; [done|]. rewrite Hc'. apply Hc; [done|lia]. }
  destruct (for_ ulen _ _) as [[t g'] hue']. cbn [fst] in *.
  destruct H as (Hsg & Hl & Hc). split; [done|]. split; [done|].
  intros x y Hxy. apply Hc; [done|].
  destruct Hxy as [Hx Hy]. unfold ulen. destruct vert; lia.
Qed.
End RenderPixels.

Lemma V001_renderPixelData_pixels s :
  0 <= width s -> 0 <= height s -> pixels_wf s ->
  same_grid s (V001.renderPixelData s) /\
  length (pixels (V001.renderPixelData s)) = length (pixels s) /\
  forall x y, in_grid s x y ->
    rgba_at (V001.renderPixelData s) x y =
    if is_border (getData s x y) then opaque_black else opaque_white.
Proof.
  intros Hw Hh Hp.
  set (inv := fun (y x : Z) (t : Sprite) =>
    same_grid s t /\ length (pixels t) = length (pixels s) /\
    forall a b, in_grid s a b -> visited y x a b ->
      rgba_at t a b =
      if is_border (getData s a b) then opaque_black else opaque_white).
  assert (H : inv (height s) 0 (V001.renderPixelData s)).
  { unfold V001.renderPixelData. apply for_yx_ind; [done|done| | |].
    - split; [apply same_grid_refl|]. split; [done|]. intros a b [Ha Hb] Hv.
      exfalso. unfold visited in Hv. lia.
    - intros x y t Hx Hy (Hsg & Hl & Hc). pose proof Hsg as (Ew & Eh & _).
      assert (Hxy : in_grid t x y) by (unfold in_grid; rewrite Ew, Eh; lia).
      assert (Hpt : pixels_wf t) by by apply (same_grid_pixels_wf s t).
      split; [by eapply same_grid_trans|].
      split; [unfold store_rgba; cbn [pixels with_pixels];
              by rewrite !length_pixel_store|].
      intros a b Hab Hv.
      assert (Hab' : in_grid t a b) by by apply (same_grid_in_grid s t).
      rewrite store_rgba_rgba_at;
        [|by rewrite Ew|by rewrite Eh|done|done|done].
      destruct (decide (a = x /\ b = y)) as [[-> ->]|Hne].
      + rewrite (same_grid_getData s t) by done.
        by destruct (is_border (getData s x y)).
      + apply Hc; [done|]. apply visited_next in Hv. tauto.
    - intros y t Hy (Hsg & Hl & Hc). split; [done|]. split; [done|].
      intros a b Hab Hv. apply Hc; [done|].
      apply (visited_row y (width s)) in Hv; [done|]. by destruct Hab. }
  destruct H as (Hsg & Hl & Hc). split; [done|]. split; [done|].
  intros x y Hxy. apply Hc; [done|].
  destruct Hxy as [_ Hy]. unfold visited. lia.
Qed.

(** What [pixel_color] computes where the colour does not depend on the
    draws: for an empty cell, and for any cell when [colored] is false. *)
Lemma pixel_color_plain sin_pi o val u ulen hue saturation g :
  let c := V002.pixel_color sin_pi o val u ulen hue saturation g in
  (val = Some 0 ->
   bytes_of (Rgb.r (fst (fst c))) (Rgb.g (fst (fst c))) (Rgb.b (fst (fst c)))
     (snd (fst c)) = transparent_white) /\
  (Options.colored o = false -> val <> Some 0 ->
   bytes_of (Rgb.r (fst (fst c))) (Rgb.g (fst (fst c))) (Rgb.b (fst (fst c)))
     (snd (fst c)) = if is_border val then opaque_black else opaque_white).
Proof.
  cbn zeta. unfold V002.pixel_color. split.
  - intros ->. reflexivity.
  - intros Hc Hv. rewrite Hc.
    destruct (is_zero val) eqn:Hz; [by apply is_zero_spec in Hz|].
    cbn [negb]. by destruct (is_border val).
Qed.

Lemma V002_init_pixels sin_pi vals (ok : cell -> list (option Z) -> Prop) m l g :
  (forall val u ulen hue saturation g,
     ok val
       (bytes_of
          (Rgb.r (fst (fst (V002.pixel_color sin_pi vals val u ulen hue saturation g))))
          (Rgb.g (fst (fst (V002.pixel_color sin_pi vals val u ulen hue saturation g))))
          (Rgb.b (fst (fst (V002.pixel_color sin_pi vals val u ulen hue saturation g))))
          (snd (fst (V002.pixel_color sin_pi vals val u ulen hue saturation g))))) ->
  let s := fst (V002.init sin_pi vals (blank m l) g) in
  let t := fst (grid_phases mirrorY (blank m l) g) in
  same_grid t s /\ grid_wf t /\
  width t = width (blank m l) /\ height t = height (blank m l) /\
  length (pixels s) = Z.to_nat (width t * height t * 4) /\
  forall x y, in_grid t x y -> ok (getData t x y) (rgba_at s x y).
Proof.
  intros Hok. cbn zeta. rewrite V002_init_unfold.
  destruct (grid_phases_shape mirrorY mirrorY_frame (blank m l) g
              (blank_wf m _)) as (Wt & Ew & Eh & _); try apply blank_mask_fits.
  pose proof (grid_phases_pixels_wf mirrorY m l g mirrorY_frame) as Hp.
  destruct (renderPixelData_pixels sin_pi vals ok Hok
              (fst (grid_phases mirrorY (blank m l) g))
              (snd (grid_phases mirrorY (blank m l) g)))
    as (Hsg & Hl & Hc); [apply Wt|apply Wt|done|].
  split; [done|]. split; [done|]. split; [done|]. split; [done|].
  split; [by rewrite Hl|done].
Qed.

Lemma V001_finished_pixels m g :
  let s := fst (V001.new_Sprite m g) in
  let t := fst (grid_phases mirrorX (blank m None) g) in
  same_grid t s /\ grid_wf t /\
  width t = width (blank m None) /\ height t = height (blank m None) /\
  length (pixels s) = Z.to_nat (width t * height t * 4) /\
  forall x y, in_grid t x y ->
    rgba_at s x y =
    if is_border (getData t x y) then opaque_black else opaque_white.
Proof.
  cbn zeta. unfold V001.new_Sprite. fold (blank m None).
  rewrite V001_init_unfold. cbn [fst].
  destruct (grid_phases_shape mirrorX mirrorX_frame (blank m None) g
              (blank_wf m _)) as (Wt & Ew & Eh & _); try apply blank_mask_fits.
  pose proof (grid_phases_pixels_wf mirrorX m None g mirrorX_frame) as Hp.
  destruct (V001_renderPixelData_pixels
              (fst (grid_phases mirrorX (blank m None) g)))
    as (Hsg & Hl & Hc); [apply Wt|apply Wt|done|].
  split; [done|]. split; [done|]. split; [done|]. split; [done|].
  split; [by rewrite Hl|done].
Qed.

(** ** The finished sprite *)

(** X10: the sizes of a finished sprite, in both revisions: the width and
    the height of the mask, doubled along each mirrored axis; one array
    element per cell; four bytes of pixel buffer per cell.  The mask is
    shared, not copied. *)
Theorem finished_sprite_sizes sin_pi m opts σ g :
  let W := Z.of_nat (Mask.width m) * (if Mask.mirrorX m then 2 else 1) in
  let H := Z.of_nat (Mask.height m) * (if Mask.mirrorY m then 2 else 1) in
  let s2 := fst (fst (V002.new_Sprite sin_pi m opts σ g)) in
  let s1 := fst (V001.new_Sprite m g) in
  (width s2 = W /\ height s2 = H /\ mask s2 = m /\
   length (data s2) = Z.to_nat (W * H) /\
   length (pixels s2) = Z.to_nat (W * H * 4)) /\
  (width s1 = W /\ height s1 = H /\ mask s1 = m /\
   length (data s1) = Z.to_nat (W * H) /\
   length (pixels s1) = Z.to_nat (W * H * 4)).
Proof.
  cbn zeta. split.
  - destruct (V002_new_Sprite_unfold sin_pi m opts σ g) as (vals & E).
    rewrite E.
    destruct (V002_init_pixels sin_pi vals (fun _ _ => True) m
                (Some (options_ref opts σ)) g ltac:(done))
      as ((Ew' & Eh' & Em' & _ & Ed') & Wt & Ew & Eh & Hl & _).
    destruct (grid_phases_shape mirrorY mirrorY_frame
                (blank m (Some (options_ref opts σ))) g (blank_wf m _))
      as (_ & _ & _ & Em & _); try apply blank_mask_fits.
    destruct Wt as (_ & _ & Hlen).
    rewrite Ew', Eh', Em', Ed', Hl, Hlen, Ew, Eh, Em. done.
  - destruct (V001_finished_pixels m g)
      as ((Ew' & Eh' & Em' & _ & Ed') & Wt & Ew & Eh & Hl & _).
    destruct (grid_phases_shape mirrorX mirrorX_frame (blank m None) g
                (blank_wf m _))
      as (_ & _ & _ & Em & _); try apply blank_mask_fits.
    destruct Wt as (_ & _ & Hlen).
    rewrite Ew', Eh', Em', Ed', Hl, Hlen, Ew, Eh, Em. done.
Qed.

(** X11: v0.0.1 renders in black and white without transparency: in the
    finished sprite the pixel of a border cell is opaque black and the
    pixel of every other cell, empty cells included, is opaque white. *)
Theorem V001_pixels_are_black_or_white m g x y :
  let s := fst (V001.new_Sprite m g) in
  0 <= x < width s -> 0 <= y < height s ->
  rgba_at s x y =
  if is_border (getData s x y) then opaque_black else opaque_white.
Proof.
  intros s Hx Hy.
  destruct (V001_finished_pixels m g) as (Hsg & _ & _ & _ & _ & Hc).
  fold s in Hsg, Hc. rewrite (same_grid_getData _ s) by done.
  apply Hc. apply (same_grid_in_grid _ s); [done|]. by split.
Qed.

Lemma V001_pixels_are_black_or_white_witness :
  let s := fst (V001.new_Sprite demo_mask alternating_draws) in
  rgba_at s 1 0 =
  if is_border (getData s 1 0) then opaque_black else opaque_white.
Proof.
  apply (V001_pixels_are_black_or_white demo_mask alternating_draws 1 0).
  - vm_compute. split; [discriminate|reflexivity].
  - vm_compute. split; [discriminate|reflexivity].
Defined.

(** X12: in v0.0.2 the pixel of an empty cell is transparent white
    whatever the options are; and when the caller's options say
    [colored: false], the pixel of a border cell is opaque black and the
    pixel of every other non-empty cell opaque white: no draw and no
    numeric option has a part in a monochrome sprite. *)
Theorem V002_plain_pixels sin_pi m l o σ g x y :
  σ !! l = Some o ->
  let s := fst (fst (V002.new_Sprite sin_pi m (Some l) σ g)) in
  0 <= x < width s -> 0 <= y < height s ->
  (getData s x y = Some 0 -> rgba_at s x y = transparent_white) /\
  (o !! "colored" = Some (VBool false) -> getData s x y <> Some 0 ->
   rgba_at s x y =
   if is_border (getData s x y) then opaque_black else opaque_white).
Proof.
  intros Hl s Hx Hy.
  set (vals := V002.read_options (foldl with_default o V002.defaults)).
  set (ok := fun (val : cell) (bytes : list (option Z)) =>
    (val = Some 0 -> bytes = transparent_white) /\
    (Options.colored vals = false -> val <> Some 0 ->
     bytes = if is_border val then opaque_black else opaque_white)).
  destruct (V002_init_pixels sin_pi vals ok m (Some l) g)
    as (Hsg & _ & _ & _ & _ & Hc).
  { intros val u ulen hue saturation g'. apply pixel_color_plain. }
  unfold s. rewrite (new_Sprite_options sin_pi m l o σ g Hl). fold vals.
  set (s' := fst (V002.init sin_pi vals (blank m (Some l)) g)) in *.
  assert (Hin : in_grid (fst (grid_phases mirrorY (blank m (Some l)) g)) x y).
  { apply (same_grid_in_grid _ s'); [done|]. split.
    - unfold s in Hx. by rewrite (new_Sprite_options sin_pi m l o σ g Hl) in Hx.
    - unfold s in Hy. by rewrite (new_Sprite_options sin_pi m l o σ g Hl) in Hy. }
  destruct (Hc x y Hin) as [H0 H1].
  rewrite <- !(same_grid_getData _ s' x y Hsg) in H0, H1.
  split; [done|]. intros Hcol. apply H1.
  unfold vals, V002.read_options. cbn [Options.colored].
  rewrite (with_defaults_default o "colored" (VBool true)), Hcol; [done|].
  apply list_elem_of_here.
Qed.

Lemma V002_plain_pixels_witness :
  let s := fst (fst (V002.new_Sprite flat_sine demo_mask (Some 1%positive)
                       {[ 1%positive := monochrome_options ]} alternating_draws)) in
  (getData s 0 0 = Some 0 -> rgba_at s 0 0 = transparent_white) /\
  (monochrome_options !! "colored" = Some (VBool false) ->
   getData s 0 0 <> Some 0 ->
   rgba_at s 0 0 =
   if is_border (getData s 0 0) then opaque_black else opaque_white).
Proof.
  apply (V002_plain_pixels flat_sine demo_mask 1%positive monochrome_options
           {[ 1%positive := monochrome_options ]} alternating_draws 0 0).
  - reflexivity.
  - vm_compute. split; [discriminate|reflexivity].
  - vm_compute. split; [discriminate|reflexivity].
Defined.

(** ** Where the cells of the finished grid come from *)

Lemma masked_sampled_cells this g :
  grid_wf this ->
  Z.of_nat (Mask.width (mask this)) <= width this ->
  Z.of_nat (Mask.height (mask this)) <= height this ->
  let s := fst (generateRandomSample (applyMask (initData (initContext this))) g) in
  forall a b, in_grid this a b ->
    exists n, getData s a b = resolve (masked_cell (mask this) a b) (g n).
Proof.
  intros Hwf Hmw Hmh s a b Hab.
  assert (W0 : grid_wf (initContext this)) by done.
  destruct (initData_spec _ W0) as [F1 C1].
  pose proof (frame_wf _ _ F1 W0) as W1.
  assert (Em : mask (initData (initContext this)) = mask this)
    by (by destruct F1 as (_ & _ & -> & _)).
  destruct (applyMask_spec (initData (initContext this))) as [F2 C2]; [done| | |].
  { rewrite Em. by destruct F1 as (-> & _). }
  { rewrite Em. by destruct F1 as (_ & -> & _). }
  pose proof (frame_wf _ _ F2 W1) as W2.
  destruct (generateRandomSample_spec
              (applyMask (initData (initContext this))) g W2) as (F3 & _ & C3).
  assert (H1 : in_grid (initData (initContext this)) a b)
    by (by apply (frame_in_grid _ _ _ _ F1)).
  assert (H2 : in_grid (applyMask (initData (initContext this))) a b)
    by (by apply (frame_in_grid _ _ _ _ F2)).
  eexists. unfold s. rewrite C3 by done. f_equal.
  rewrite C2 by done. rewrite Em. unfold masked_cell.
  case_decide; [done|]. by apply C1.
Qed.

Lemma reflect_bounds n i : 0 <= i < n -> 0 <= reflect n i < n.
Proof.
  intros Hi. unfold reflect.
  pose proof (Z.div_mod n 2 ltac:(lia)).
  pose proof (Z.mod_pos_bound n 2 ltac:(lia)).
  case_decide; lia.
Qed.

Lemma reflect_half n i : 0 <= i < 2 * n -> 0 <= reflect (2 * n) i < n.
Proof.
  intros Hi. unfold reflect.
  assert (2 * n / 2 = n) as -> by (rewrite Z.mul_comm; apply Z.div_mul; lia).
  case_decide; lia.
Qed.

Lemma reflect_involutive_half n i : 0 <= i < n -> reflect n (reflect n i) = reflect n i.
Proof.
  intros Hi. unfold reflect.
  pose proof (Z.div_mod n 2 ltac:(lia)).
  pose proof (Z.mod_pos_bound n 2 ltac:(lia)).
  repeat case_decide; lia.
Qed.

Lemma mirrorX_reflect s a b :
  grid_wf s -> in_grid s a b ->
  getData (mirrorX s) a b = getData s (reflect (width s) a) b.
Proof. intros Hwf Hab. destruct (mirrorX_spec s Hwf) as [_ Hc].
  rewrite Hc by done. unfold reflect. by case_decide.
Qed.

Lemma mirrorY_reflect s a b :
  grid_wf s -> in_grid s a b ->
  getData (mirrorY s) a b = getData s a (reflect (height s) b).
Proof. intros Hwf Hab. destruct (mirrorY_spec s Hwf) as [_ Hc].
  rewrite Hc by done. unfold reflect. by case_decide.
Qed.

Lemma generateEdges_outlined s a b :
  grid_wf s -> in_grid s a b ->
  outlined (getData s a b) (getData (generateEdges s) a b).
Proof.
  intros Hwf Hab. destruct (generateEdges_spec s Hwf) as [_ Hc].
  rewrite Hc by done. unfold outlined. case_decide as He; [|by left].
  right. split; [apply He|done].
Qed.

Section Provenance.
Variable second_mirror : Sprite -> Sprite.
Variable source : Z -> Z -> Z -> Z -> Z * Z.
Hypothesis Hframe : forall s, grid_wf s -> frame s (second_mirror s).
Hypothesis Hsource : forall s a b, grid_wf s -> in_grid s a b ->
  in_grid s (source (width s) (height s) a b).1 (source (width s) (height s) a b).2 /\
  getData (second_mirror s) a b =
  getData s (source (width s) (height s) a b).1 (source (width s) (height s) a b).2.
Variable this : Sprite.
Variable g : rng.
Hypothesis Hwf : grid_wf this.
Hypothesis Hmw : Z.of_nat (Mask.width (mask this)) <= width this.
Hypothesis Hmh : Z.of_nat (Mask.height (mask this)) <= height this.

Lemma grid_phases_cells x y :
  in_grid this x y ->
  let p := if Mask.mirrorY (mask this)
           then source (width this) (height this) x y else (x, y) in
  let a := if Mask.mirrorX (mask this) then reflect (width this) p.1 else p.1 in
  in_grid this a p.2 /\
  exists n,
    outlined (resolve (masked_cell (mask this) a p.2) (g n))
             (getData (fst (grid_phases second_mirror this g)) x y).
Proof.
  intros Hxy. cbn zeta.
  pose proof (masked_sampled_cells this g Hwf Hmw Hmh) as Hcells. cbn zeta in Hcells.
  unfold grid_phases, initCanvas.
  pose proof (sampled_shape this g Hwf Hmw Hmh) as Hs. cbn zeta in Hs.
  destruct (generateRandomSample _ g) as [s4 g4]. cbn [fst] in Hs, Hcells.
  destruct Hs as (W4 & Ew & Eh & Em & Eo & Ep). rewrite Em.
  set (s5 := if Mask.mirrorX (mask this) then mirrorX s4 else s4).
  assert (F5 : frame s4 s5).
  { unfold s5. destruct (Mask.mirrorX _); [by apply mirrorX_spec|apply frame_refl]. }
  pose proof (frame_wf _ _ F5 W4) as W5.
  assert (Em5 : mask s5 = mask this) by (destruct F5 as (_&_&->&_); done).
  assert (Ew5 : width s5 = width this) by (destruct F5 as (->&_); done).
  assert (Eh5 : height s5 = height this) by (destruct F5 as (_&->&_); done).
  rewrite Em5.
  set (s6 := if Mask.mirrorY (mask this) then second_mirror s5 else s5).
  assert (F6 : frame s5 s6).
  { unfold s6. destruct (Mask.mirrorY _); [by apply Hframe|apply frame_refl]. }
  pose proof (frame_wf _ _ F6 W5) as W6.
  assert (Ew6 : width s6 = width this) by (destruct F6 as (->&_); done).
  assert (Eh6 : height s6 = height this) by (destruct F6 as (_&->&_); done).
  cbn [fst].
  assert (H6 : in_grid s6 x y) by (unfold in_grid; by rewrite Ew6, Eh6).
  pose proof (generateEdges_outlined s6 x y W6 H6) as Hout.
  set (p := if Mask.mirrorY (mask this)
            then source (width this) (height this) x y else (x, y)) in *.
  assert (Hp : in_grid this p.1 p.2 /\ getData s6 x y = getData s5 p.1 p.2).
  { unfold p, s6. destruct (Mask.mirrorY _); [|done].
    destruct (Hsource s5 x y W5) as [Hi Hg].
    { unfold in_grid. by rewrite Ew5, Eh5. }
    rewrite Ew5, Eh5 in Hi, Hg. split; [|done].
    unfold in_grid in *. by rewrite Ew5, Eh5 in Hi. }
  destruct Hp as [Hp E6].
  set (a := if Mask.mirrorX (mask this) then reflect (width this) p.1 else p.1) in *.
  assert (Ha : in_grid this a p.2 /\ getData s5 p.1 p.2 = getData s4 a p.2).
  { unfold a, s5. destruct (Mask.mirrorX _); [|done]. split.
    - destruct Hp as [Hp1 Hp2]. split; [by apply reflect_bounds|done].
    - rewrite mirrorX_reflect; [by rewrite Ew|done|].
      unfold in_grid. by rewrite Ew, Eh. }
  destruct Ha as [Ha E5]. split; [done|].
  destruct (Hcells a p.2 Ha) as [n Hn]. exists n.
  by rewrite <- Hn, <- E5, <- E6.
Qed.
End Provenance.

Lemma mirrorY_source s a b :
  grid_wf s -> in_grid s a b ->
  in_grid s (a, reflect (height s) b).1 (a, reflect (height s) b).2 /\
  getData (mirrorY s) a b =
  getData s (a, reflect (height s) b).1 (a, reflect (height s) b).2.
Proof.
  intros Hwf Hab. cbn [fst snd]. split; [|by apply mirrorY_reflect].
  destruct Hab as [Ha Hb]. split; [done|by apply reflect_bounds].
Qed.

Lemma mirrorX_source s a b :
  grid_wf s -> in_grid s a b ->
  in_grid s (reflect (width s) a, b).1 (reflect (width s) a, b).2 /\
  getData (mirrorX s) a b =
  getData s (reflect (width s) a, b).1 (reflect (width s) a, b).2.
Proof.
  intros Hwf Hab. cbn [fst snd]. split; [|by apply mirrorX_reflect].
  destruct Hab as [Ha Hb]. split; [by apply reflect_bounds|done].
Qed.

(** Folding a coordinate of the finished grid back along the mirrored axes
    lands inside the rectangle of the mask. *)
Lemma blank_fold m opts x y :
  in_grid (blank m opts) x y ->
  let a := if Mask.mirrorX m then reflect (width (blank m opts)) x else x in
  let b := if Mask.mirrorY m then reflect (height (blank m opts)) y else y in
  0 <= a < Z.of_nat (Mask.width m) /\ 0 <= b < Z.of_nat (Mask.height m).
Proof.
  unfold in_grid, blank. cbn [width height]. intros [Hx Hy]. cbn zeta.
  split.
  - destruct (Mask.mirrorX m); [|lia].
    rewrite (Z.mul_comm _ 2). apply reflect_half. lia.
  - destruct (Mask.mirrorY m); [|lia].
    rewrite (Z.mul_comm _ 2). apply reflect_half. lia.
Qed.

Lemma outlined_cases v c :
  outlined v c ->
  (v <> Some 0 -> c = v) /\ (v = Some 0 -> c = Some 0 \/ c = Some (-1)).
Proof.
  intros [-> | [-> ->]]; split; auto; intros; congruence.
Qed.

Lemma resolve_cases code r :
  (0 <= r)%Q -> (r < 1)%Q ->
  (stochastic code = false -> resolve code r = code) /\
  (code = Some 1 -> resolve code r = Some 1 \/ resolve code r = Some 0) /\
  (code = Some 2 -> resolve code r = Some 1 \/ resolve code r = Some (-1)).
Proof.
  intros H0 H1. split; [apply resolve_plain|]. split; intros ->.
  - rewrite resolve_code1 by done. destruct (Qle_bool _ _); auto.
  - rewrite resolve_code2. destruct (Qgtb _ _); auto.
Qed.

Lemma masked_cell_valid m a b :
  0 <= a -> 0 <= b ->
  length (Mask.data m) = (Mask.width m * Mask.height m)%nat ->
  Forall (fun c => -1 <= c <= 2) (Mask.data m) ->
  exists c, masked_cell m a b = Some c /\ -1 <= c <= 2.
Proof.
  intros Ha Hb Hlen Hall. unfold masked_cell.
  case_decide as Hd; [|exists (-1); split; [done|lia]].
  unfold Mask.data_at.
  destruct (Z.ltb_spec (b * Z.of_nat (Mask.width m) + a) 0); [nia|].
  destruct (lookup_lt_is_Some_2 (Mask.data m)
              (Z.to_nat (b * Z.of_nat (Mask.width m) + a))) as [c Hc].
  { rewrite Hlen. nia. }
  exists c. split; [done|].
  rewrite Forall_forall in Hall. apply Hall. apply list_elem_of_lookup. eauto.
Qed.

Section Domain.
Variable second_mirror : Sprite -> Sprite.
Variable source : Z -> Z -> Z -> Z -> Z * Z.
Hypothesis Hframe : forall s, grid_wf s -> frame s (second_mirror s).
Hypothesis Hsource : forall s a b, grid_wf s -> in_grid s a b ->
  in_grid s (source (width s) (height s) a b).1 (source (width s) (height s) a b).2 /\
  getData (second_mirror s) a b =
  getData s (source (width s) (height s) a b).1 (source (width s) (height s) a b).2.

Lemma grid_phases_domain m opts g x y :
  length (Mask.data m) = (Mask.width m * Mask.height m)%nat ->
  Forall (fun c => -1 <= c <= 2) (Mask.data m) ->
  unit_draws g ->
  in_grid (blank m opts) x y ->
  let v := getData (fst (grid_phases second_mirror (blank m opts) g)) x y in
  v = Some (-1) \/ v = Some 0 \/ v = Some 1.
Proof.
  intros Hlen Hall Hg Hxy.
  destruct (grid_phases_cells second_mirror source Hframe Hsource
              (blank m opts) g (blank_wf m opts)) with (x := x) (y := y)
    as [Hin (n & Hout)]; try apply blank_mask_fits; [done|].
  cbn zeta in Hin, Hout. cbn zeta.
  change (mask (blank m opts)) with m in *.
  set (p := if Mask.mirrorY m then _ else _) in *.
  set (a := if Mask.mirrorX m then _ else _) in *.
  destruct (masked_cell_valid m a p.2) as (c & Ec & Hc);
    [apply Hin|apply Hin|done|done|].
  rewrite Ec in Hout. destruct (Hg n) as [H0 H1].
  destruct (resolve_cases (Some c) (g n) H0 H1) as (Hp & Hb1 & Hb2).
  destruct (outlined_cases _ _ Hout) as [Hne Hz].
  assert (Hcases : c = -1 \/ c = 0 \/ c = 1 \/ c = 2) by lia.
  destruct Hcases as [-> | [-> | [-> | ->]]].
  - rewrite Hp in Hne by done. left. by apply Hne.
  - rewrite Hp in Hz by done. destruct Hz; auto.
  - destruct Hb1 as [E|E]; [done| |]; rewrite E in Hne, Hz.
    + right; right. by apply Hne.
    + destruct Hz; auto.
  - destruct Hb2 as [E|E]; [done| |]; rewrite E in Hne.
    + right; right. by apply Hne.
    + left. by apply Hne.
Qed.
End Domain.

Lemma grid_phases_mirrorX_again this g :
  grid_wf this ->
  Z.of_nat (Mask.width (mask this)) <= width this ->
  Z.of_nat (Mask.height (mask this)) <= height this ->
  Mask.mirrorY (mask this) = true ->
  symmetricX (fst (grid_phases mirrorX this g)).
Proof.
  intros Hwf Hmw Hmh HmY. unfold grid_phases, initCanvas.
  pose proof (sampled_shape this g Hwf Hmw Hmh) as Hs. cbn zeta in Hs.
  destruct (generateRandomSample _ g) as [s4 g4]. cbn [fst] in Hs.
  destruct Hs as (W4 & Ew & Eh & Em & Eo & Ep). rewrite Em.
  set (s5 := if Mask.mirrorX (mask this) then mirrorX s4 else s4).
  assert (F5 : frame s4 s5).
  { unfold s5. destruct (Mask.mirrorX _); [by apply mirrorX_spec|apply frame_refl]. }
  pose proof (frame_wf _ _ F5 W4) as W5.
  assert (Em5 : mask s5 = mask this) by (destruct F5 as (_&_&->&_); done).
  rewrite Em5, HmY. cbn [fst].
  apply generateEdges_symmetricX.
  - eapply frame_wf; [by apply mirrorX_spec|done].
  - by apply mirrorX_symmetricX.
Qed.

(** X13: the cell codes of a mask, as v0.0.2 treats them.  The cell
    [(x, y)] of the finished sprite answers to the mask code found by
    folding [x] and [y] back along the mirrored axes.  A code other than
    0, 1 and 2 is kept as it is (-1 stays a border cell, a missing code
    stays undefined); 0 ends as 0 or as -1; 1 ends as 1, 0 or -1; 2 ends
    as 1 or -1, never as an empty cell. *)
Theorem V002_mask_code_table sin_pi m opts σ g x y :
  unit_draws g ->
  let s := fst (fst (V002.new_Sprite sin_pi m opts σ g)) in
  0 <= x < width s -> 0 <= y < height s ->
  let a := if Mask.mirrorX m then reflect (width s) x else x in
  let b := if Mask.mirrorY m then reflect (height s) y else y in
  let code := Mask.data_at m (b * Z.of_nat (Mask.width m) + a) in
  let v := getData s x y in
  (0 <= a < Z.of_nat (Mask.width m) /\ 0 <= b < Z.of_nat (Mask.height m)) /\
  (stochastic code = false -> code <> Some 0 -> v = code) /\
  (code = Some 0 -> v = Some 0 \/ v = Some (-1)) /\
  (code = Some 1 -> v = Some 1 \/ v = Some 0 \/ v = Some (-1)) /\
  (code = Some 2 -> v = Some 1 \/ v = Some (-1)).
Proof.
  intros Hg s Hx Hy.
  destruct (V002_finished sin_pi m opts σ g) as (Hsg & Wt & Ew & Eh & _).
  fold s in Hsg.
  set (l := options_ref opts σ) in *.
  set (t := fst (grid_phases mirrorY (blank m (Some l)) g)) in *.
  assert (Ews : width s = width (blank m (Some l))).
  { destruct Hsg as (-> & _). exact Ew. }
  assert (Ehs : height s = height (blank m (Some l))).
  { destruct Hsg as (_ & -> & _). exact Eh. }
  assert (Hin : in_grid (blank m (Some l)) x y).
  { unfold in_grid. by rewrite <- Ews, <- Ehs. }
  rewrite (same_grid_getData t s) by done. rewrite Ews, Ehs.
  pose proof (blank_fold m (Some l) x y Hin) as Hfold. cbn zeta in Hfold.
  destruct (grid_phases_cells mirrorY (fun W H a b => (a, reflect H b))
              mirrorY_frame mirrorY_source
              (blank m (Some l)) g (blank_wf m _)) with (x := x) (y := y)
    as [_ (n & Hout)]; try apply blank_mask_fits; [done|].
  cbn zeta in Hout. fold t in Hout.
  change (mask (blank m (Some l))) with m in Hout.
  cbn zeta.
  set (a := if Mask.mirrorX m then reflect _ x else x) in *.
  set (b := if Mask.mirrorY m then reflect _ y else y) in *.
  assert (E : masked_cell m
                (if Mask.mirrorX m
                 then reflect (width (blank m (Some l)))
                        (if Mask.mirrorY m
                         then (x, reflect (height (blank m (Some l))) y)
                         else (x, y)).1
                 else (if Mask.mirrorY m
                       then (x, reflect (height (blank m (Some l))) y)
                       else (x, y)).1)
                (if Mask.mirrorY m
                 then (x, reflect (height (blank m (Some l))) y)
                 else (x, y)).2 =
              Mask.data_at m (b * Z.of_nat (Mask.width m) + a)).
  { unfold masked_cell, a, b in *. destruct (Mask.mirrorY m), (Mask.mirrorX m);
      cbn [fst snd] in *; by rewrite decide_True by lia. }
  rewrite E in Hout. clear E.
  destruct (Hg n) as [H0 H1].
  destruct (resolve_cases (Mask.data_at m (b * Z.of_nat (Mask.width m) + a))
              (g n) H0 H1) as (Hp & Hb1 & Hb2).
  destruct (outlined_cases _ _ Hout) as [Hne Hz].
  split; [done|]. split; [|split; [|split]].
  - intros Hs Hc. rewrite Hp in Hne by done. by apply Hne.
  - intros Hc. rewrite resolve_plain in Hz by (by rewrite Hc). by apply Hz.
  - intros Hc. destruct (Hb1 Hc) as [E|E]; rewrite E in Hne, Hz.
    + left. by apply Hne.
    + right. by apply Hz.
  - intros Hc. destruct (Hb2 Hc) as [E|E]; rewrite E in Hne.
    + left. by apply Hne.
    + right. by apply Hne.
Qed.

Lemma V002_mask_code_table_witness :
  let s := fst (fst (V002.new_Sprite flat_sine demo_mask None ∅
                       alternating_draws)) in
  let a := if Mask.mirrorX demo_mask then reflect (width s) 2 else 2 in
  let b := if Mask.mirrorY demo_mask then reflect (height s) 3 else 3 in
  let code := Mask.data_at demo_mask (b * Z.of_nat (Mask.width demo_mask) + a) in
  let v := getData s 2 3 in
  (0 <= a < Z.of_nat (Mask.width demo_mask) /\
   0 <= b < Z.of_nat (Mask.height demo_mask)) /\
  (stochastic code = false -> code <> Some 0 -> v = code) /\
  (code = Some 0 -> v = Some 0 \/ v = Some (-1)) /\
  (code = Some 1 -> v = Some 1 \/ v = Some 0 \/ v = Some (-1)) /\
  (code = Some 2 -> v = Some 1 \/ v = Some (-1)).
Proof.
  apply (V002_mask_code_table flat_sine demo_mask None ∅ alternating_draws 2 3).
  - exact alternating_draws_unit.
  - vm_compute. split; [discriminate|reflexivity].
  - vm_compute. split; [discriminate|reflexivity].
Defined.

(** X14: for a mask whose data fill the [width * height] rectangle with
    codes from -1 to 2, and draws in [0, 1), every cell of the finished
    sprite is -1, 0 or 1, in v0.0.2 and in v0.0.1: no stochastic code and
    no undefined cell is left in the grid. *)
Theorem finished_cells_are_border_empty_or_body sin_pi m opts σ g x y :
  length (Mask.data m) = (Mask.width m * Mask.height m)%nat ->
  Forall (fun c => -1 <= c <= 2) (Mask.data m) ->
  unit_draws g ->
  0 <= x < Z.of_nat (Mask.width m) * (if Mask.mirrorX m then 2 else 1) ->
  0 <= y < Z.of_nat (Mask.height m) * (if Mask.mirrorY m then 2 else 1) ->
  let s2 := fst (fst (V002.new_Sprite sin_pi m opts σ g)) in
  let s1 := fst (V001.new_Sprite m g) in
  (getData s2 x y = Some (-1) \/ getData s2 x y = Some 0 \/
   getData s2 x y = Some 1) /\
  (getData s1 x y = Some (-1) \/ getData s1 x y = Some 0 \/
   getData s1 x y = Some 1).
Proof.
  intros Hlen Hall Hg Hx Hy s2 s1. split.
  - destruct (V002_finished sin_pi m opts σ g) as (Hsg & _).
    fold s2 in Hsg. rewrite !(same_grid_getData _ s2 x y Hsg).
    by apply (grid_phases_domain mirrorY (fun W H a b => (a, reflect H b))
                mirrorY_frame mirrorY_source).
  - destruct (V001_finished m g) as (Hsg & _).
    fold s1 in Hsg. rewrite !(same_grid_getData _ s1 x y Hsg).
    by apply (grid_phases_domain mirrorX (fun W H a b => (reflect W a, b))
                mirrorX_frame mirrorX_source).
Qed.

Lemma finished_cells_are_border_empty_or_body_witness :
  let s2 := fst (fst (V002.new_Sprite flat_sine demo_mask None ∅
                        alternating_draws)) in
  let s1 := fst (V001.new_Sprite demo_mask alternating_draws) in
  (getData s2 1 2 = Some (-1) \/ getData s2 1 2 = Some 0 \/
   getData s2 1 2 = Some 1) /\
  (getData s1 1 2 = Some (-1) \/ getData s1 1 2 = Some 0 \/
   getData s1 1 2 = Some 1).
Proof.
  apply (finished_cells_are_border_empty_or_body flat_sine demo_mask None ∅
           alternating_draws 1 2).
  - reflexivity.
  - unfold demo_mask; cbn [Mask.data]. repeat constructor; lia.
  - exact alternating_draws_unit.
  - vm_compute. split; [discriminate|reflexivity].
  - vm_compute. split; [discriminate|reflexivity].
Defined.

(** X15: what the second [mirrorX()] call of v0.0.1 does.  When the mask
    asks for vertical mirroring, the finished grid of v0.0.1 is symmetric
    about its vertical axis whether or not the mask asks for that, and
    every row below the rows of the mask holds only border cells: the
    lower half is never filled from the upper half. *)
Theorem V001_mirrorY_mirrors_columns_instead m g :
  Mask.mirrorY m = true ->
  let s := fst (V001.new_Sprite m g) in
  symmetricX s /\
  height s = 2 * Z.of_nat (Mask.height m) /\
  forall x y,
    0 <= x < width s -> Z.of_nat (Mask.height m) <= y < height s ->
    getData s x y = Some (-1).
Proof.
  intros HmY s.
  destruct (V001_finished m g) as (Hsg & Wt & Ew & Eh & _). fold s in Hsg.
  set (t := fst (grid_phases mirrorX (blank m None) g)) in *.
  split; [|split].
  - apply (same_grid_symmetricX t s); [done|].
    apply grid_phases_mirrorX_again; try apply blank_mask_fits; [apply blank_wf|done].
  - destruct Hsg as (_ & -> & _). rewrite Eh. unfold blank. cbn [height].
    rewrite HmY. lia.
  - intros x y Hx Hy. rewrite (same_grid_getData t s) by done.
    destruct Hsg as (Ew' & Eh' & _). rewrite Ew', Ew in Hx. rewrite Eh', Eh in Hy.
    destruct (grid_phases_cells mirrorX (fun W H a b => (reflect W a, b))
                mirrorX_frame mirrorX_source
                (blank m None) g (blank_wf m _)) with (x := x) (y := y)
      as [_ (n & Hout)]; try apply blank_mask_fits.
    { split; [done|lia]. }
    cbn zeta in Hout. fold t in Hout.
    change (mask (blank m None)) with m in Hout. rewrite HmY in Hout.
    cbn [fst snd] in Hout.
    unfold masked_cell in Hout. rewrite decide_False in Hout by lia.
    destruct (outlined_cases _ _ Hout) as [Hne _]. by apply Hne.
Qed.

Lemma V001_mirrorY_mirrors_columns_instead_witness :
  let s := fst (V001.new_Sprite demo_mask alternating_draws) in
  symmetricX s /\
  height s = 2 * Z.of_nat (Mask.height demo_mask) /\
  forall x y,
    0 <= x < width s -> Z.of_nat (Mask.height demo_mask) <= y < height s ->
    getData s x y = Some (-1).
Proof.
  apply (V001_mirrorY_mirrors_columns_instead demo_mask alternating_draws).
  reflexivity.
Defined.

(** ** The constructor without options *)

(** X16: [new Sprite(mask)] (v0.0.2), called without options for a mask
    it can build a sprite for, returns a sprite whose [options] is a
    fresh object holding exactly the five defaults, [{colored: true,
    edgeBrightness: 0.3, colorVariations: 0.2, brightnessNoise: 0.3,
    saturation: 0.5}]; every object that was in the heap is left as it
    was, and the call returns what [new Sprite(mask, {})] returns for a
    fresh empty object. *)
Theorem new_Sprite_without_options sin_pi m σ g :
  buildable m ->
  let l := fresh (dom σ : gset loc) in
  exists s σ' g',
    Sprite_outcome sin_pi m None σ g = Returns (s, σ', g') /\
    σ !! l = None /\
    options s = Some l /\
    σ' !! l =
      Some (<["colored" := VBool true]>
            (<["edgeBrightness" := VNum (3 # 10)]>
            (<["colorVariations" := VNum (2 # 10)]>
            (<["brightnessNoise" := VNum (3 # 10)]>
            (<["saturation" := VNum (5 # 10)]> ∅))))) /\
    (forall l', l' <> l -> σ' !! l' = σ !! l') /\
    Sprite_outcome sin_pi m (Some l) (<[l := ∅]> σ) g = Returns (s, σ', g').
Proof.
  intros Hm l.
  assert (Hl : σ !! l = None).
  { apply not_elem_of_dom. apply is_fresh. }
  assert (Hsame : V002.new_Sprite sin_pi m None σ g =
                  V002.new_Sprite sin_pi m (Some l) (<[l := ∅]> σ) g) by done.
  destruct (V002.new_Sprite sin_pi m None σ g) as [[s σ'] g'] eqn:Hnew.
  exists s, σ', g'.
  assert (Hσ' : σ' = <[l := foldl with_default ∅ V002.defaults]> σ).
  { pose proof (new_Sprite_heap sin_pi m l ∅ (<[l := ∅]> σ) g) as H.
    rewrite <- Hsame in H. cbn [fst snd] in H.
    rewrite H by apply lookup_insert_eq. apply insert_insert_eq. }
  split; [by rewrite Sprite_outcome_returns, Hnew|].
  split; [done|]. split; [|split; [|split]].
  - destruct (V002_finished sin_pi m None σ g) as ((_ & _ & _ & Eo & _) & _).
    rewrite Hnew in Eo. cbn [fst] in Eo. rewrite Eo.
    destruct (grid_phases_shape mirrorY mirrorY_frame
                (blank m (Some (options_ref None σ))) g (blank_wf m _))
      as (_ & _ & _ & _ & Eo' & _); try apply blank_mask_fits.
    exact Eo'.
  - rewrite Hσ', lookup_insert_eq. f_equal.
  - intros l' Hne. by rewrite Hσ', lookup_insert_ne.
  - by rewrite Sprite_outcome_returns, <- Hsame.
Qed.

Lemma new_Sprite_without_options_witness :
  let l := fresh (dom (∅ : heap) : gset loc) in
  exists s σ' g',
    Sprite_outcome flat_sine demo_mask None ∅ half_draws = Returns (s, σ', g') /\
    (∅ : heap) !! l = None /\
    options s = Some l /\
    σ' !! l =
      Some (<["colored" := VBool true]>
            (<["edgeBrightness" := VNum (3 # 10)]>
            (<["colorVariations" := VNum (2 # 10)]>
            (<["brightnessNoise" := VNum (3 # 10)]>
            (<["saturation" := VNum (5 # 10)]> ∅))))) /\
    (forall l', l' <> l -> σ' !! l' = (∅ : heap) !! l') /\
    Sprite_outcome flat_sine demo_mask (Some l) (<[l := ∅]> ∅) half_draws =
    Returns (s, σ', g').
Proof.
  apply (new_Sprite_without_options flat_sine demo_mask ∅ half_draws).
  unfold buildable. simpl. lia.
Defined.

(** ** Colours *)

Lemma Qfloor_fraction (x : Q) :
  (0 <= x - inject_Z (Qfloor x))%Q /\ (x - inject_Z (Qfloor x) < 1)%Q.
Proof.
  pose proof (Qfloor_le x) as Hlo. pose proof (Qlt_floor x) as Hhi.
  rewrite inject_Z_plus in Hhi. change (inject_Z 1) with 1%Q in Hhi.
  split; lra.
Qed.

Lemma Qmax3_eq (a b c l : Q) :
  (a <= l)%Q -> (b <= l)%Q -> (c <= l)%Q ->
  (a == l \/ b == l \/ c == l)%Q ->
  (Qmax a (Qmax b c) == l)%Q.
Proof.
  intros Ha Hb Hc Hex. apply Qle_antisym.
  - apply Q.max_lub; [done|]. by apply Q.max_lub.
  - destruct Hex as [E | [E | E]]; rewrite <- E.
    + apply Q.le_max_l.
    + eapply Qle_trans; [apply Q.le_max_l|]. apply Q.le_max_r.
    + eapply Qle_trans; [apply Q.le_max_r|]. apply Q.le_max_r.
Qed.

Lemma Qmin3_eq (a b c p : Q) :
  (p <= a)%Q -> (p <= b)%Q -> (p <= c)%Q ->
  (a == p \/ b == p \/ c == p)%Q ->
  (Qmin a (Qmin b c) == p)%Q.
Proof.
  intros Ha Hb Hc Hex. apply Qle_antisym.
  - destruct Hex as [E | [E | E]]; rewrite <- E.
    + apply Q.le_min_l.
    + eapply Qle_trans; [apply Q.le_min_r|]. apply Q.le_min_l.
    + eapply Qle_trans; [apply Q.le_min_r|]. apply Q.le_min_r.
  - apply Q.min_glb; [done|]. by apply Q.min_glb.
Qed.

(** X17: the channels that [hslToRgb] returns lie between [l * (1 - s)]
    and [l], and both bounds are met: the largest channel is [l] itself
    and the smallest is [l * (1 - s)].  The third argument is thus the
    value of the HSV model rather than a lightness: [l = 1] gives the
    saturated colour of the hue, white only for [s = 0]. *)
Theorem hslToRgb_largest_and_smallest_channel h s l result :
  (0 <= h)%Q -> (0 <= s)%Q -> (s <= 1)%Q -> (0 <= l)%Q ->
  let c := V002.hslToRgb h s l result in
  (Qmax (Rgb.r c) (Qmax (Rgb.g c) (Rgb.b c)) == l)%Q /\
  (Qmin (Rgb.r c) (Qmin (Rgb.g c) (Rgb.b c)) == l * (1 - s))%Q.
Proof.
  intros Hh Hs0 Hs1 Hl. unfold V002.hslToRgb. cbn zeta.
  assert (Hi : 0 <= Qfloor (h * 6)).
  { change 0 with (Qfloor 0). apply Qfloor_resp_le. lra. }
  rewrite Z.rem_mod_nonneg by lia.
  pose proof (Z.mod_pos_bound (Qfloor (h * 6)) 6 ltac:(lia)) as Hm.
  destruct (Qfloor_fraction (h * 6)) as [Hf0 Hf1].
  remember (h * 6 - inject_Z (Qfloor (h * 6)))%Q as f eqn:Ef. clear Ef.
  remember (Qfloor (h * 6) mod 6) as sextant eqn:E. clear E Hi.
  assert (Hp : (l * (1 - s) <= l)%Q) by nra.
  assert (Hq1 : (l * (1 - s) <= l * (1 - f * s))%Q) by nra.
  assert (Hq2 : (l * (1 - f * s) <= l)%Q) by nra.
  assert (Ht1 : (l * (1 - s) <= l * (1 - (1 - f) * s))%Q) by nra.
  assert (Ht2 : (l * (1 - (1 - f) * s) <= l)%Q) by nra.
  remember (l * (1 - s))%Q as p eqn:Ep. clear Ep.
  remember (l * (1 - f * s))%Q as q eqn:Eq. clear Eq.
  remember (l * (1 - (1 - f) * s))%Q as t eqn:Et. clear Et.
  assert (Hcase : sextant = 0 \/ sextant = 1 \/ sextant = 2 \/
                  sextant = 3 \/ sextant = 4 \/ sextant = 5) by lia.
  assert (Hll : (l <= l)%Q) by apply Qle_refl.
  assert (Hpp : (p <= p)%Q) by apply Qle_refl.
  destruct Hcase as [-> | [-> | [-> | [-> | [-> | ->]]]]]; cbn [Rgb.r Rgb.g Rgb.b];
    (split; [apply Qmax3_eq|apply Qmin3_eq]); try done;
    auto using Qeq_refl.
Qed.

Lemma hslToRgb_largest_and_smallest_channel_witness :
  let c := V002.hslToRgb (7 # 12) (1 # 4) (1 # 2) None in
  (Qmax (Rgb.r c) (Qmax (Rgb.g c) (Rgb.b c)) == 1 # 2)%Q /\
  (Qmin (Rgb.r c) (Qmin (Rgb.g c) (Rgb.b c)) == (1 # 2) * (1 - (1 # 4)))%Q.
Proof.
  apply (hslToRgb_largest_and_smallest_channel (7 # 12) (1 # 4) (1 # 2) None);
    unfold Qle; simpl; lia.
Defined.

(** ** Symmetry and outline of the finished sprite *)

Lemma grid_phases_last_step f this g :
  (forall s, grid_wf s -> frame s (f s)) ->
  grid_wf this ->
  Z.of_nat (Mask.width (mask this)) <= width this ->
  Z.of_nat (Mask.height (mask this)) <= height this ->
  exists s6, grid_wf s6 /\ fst (grid_phases f this g) = generateEdges s6.
Proof.
  intros Hframe Hwf Hmw Hmh. unfold grid_phases, initCanvas.
  pose proof (sampled_shape this g Hwf Hmw Hmh) as Hs. cbn zeta in Hs.
  destruct (generateRandomSample _ g) as [s4 g4]. cbn [fst] in Hs.
  destruct Hs as (W4 & _).
  set (s5 := if Mask.mirrorX (mask s4) then mirrorX s4 else s4).
  assert (W5 : grid_wf s5).
  { unfold s5. destruct (Mask.mirrorX _); [|done].
    eapply frame_wf; [by apply mirrorX_spec|done]. }
  set (s6 := if Mask.mirrorY (mask s5) then f s5 else s5).
  assert (W6 : grid_wf s6).
  { unfold s6. destruct (Mask.mirrorY _); [|done].
    eapply frame_wf; [by apply Hframe|done]. }
  by exists s6.
Qed.

(** X18: v0.0.2 mirrors the rows as the mask asks: with [mirrorY] the
    finished grid satisfies [cell(x, y) = cell(x, height - 1 - y)], and
    with both flags also [cell(x, y) = cell(width - 1 - x, height - 1 - y)]:
    the sprite is unchanged by a half turn. *)
Theorem V002_mirrorY_gives_vertical_symmetry sin_pi m opts σ g x y :
  Mask.mirrorY m = true ->
  let s := fst (fst (V002.new_Sprite sin_pi m opts σ g)) in
  0 <= x < width s -> 0 <= y < height s ->
  getData s x y = getData s x (height s - 1 - y) /\
  (Mask.mirrorX m = true ->
   getData s x y = getData s (width s - 1 - x) (height s - 1 - y)).
Proof.
  intros HmY s Hx Hy.
  destruct (V002_finished sin_pi m opts σ g) as (Hsg & _).
  fold s in Hsg.
  assert (HsymY : symmetricY s).
  { eapply same_grid_symmetricY; [done|].
    apply grid_phases_symmetricY;
      [apply blank_wf|apply blank_mask_fits|apply blank_mask_fits|done]. }
  split; [by apply HsymY|].
  intros HmX.
  assert (HsymX : symmetricX s).
  { eapply same_grid_symmetricX; [done|].
    apply grid_phases_symmetricX;
      [apply mirrorY_frame|apply blank_wf|apply blank_mask_fits
      |apply blank_mask_fits|done|apply mirrorY_symmetricX]. }
  rewrite (HsymY x y) by done. apply HsymX. unfold in_grid. lia.
Qed.

Lemma V002_mirrorY_gives_vertical_symmetry_witness :
  let s := fst (fst (V002.new_Sprite flat_sine demo_mask None ∅ alternating_draws)) in
  getData s 1 0 = getData s 1 (height s - 1 - 0) /\
  (Mask.mirrorX demo_mask = true ->
   getData s 1 0 = getData s (width s - 1 - 1) (height s - 1 - 0)).
Proof.
  apply (V002_mirrorY_gives_vertical_symmetry flat_sine demo_mask None ∅
           alternating_draws 1 0).
  - reflexivity.
  - vm_compute. split; [discriminate|reflexivity].
  - vm_compute. split; [discriminate|reflexivity].
Defined.

(** X19: the outline of the finished sprite is closed.  In both revisions
    a cell next to a body cell (a cell holding a positive value) is never
    empty; in v0.0.2, where the empty cells are the transparent ones, the
    pixel of such a neighbour is opaque. *)
Theorem finished_body_is_enclosed sin_pi m opts σ g x y a b :
  let s2 := fst (fst (V002.new_Sprite sin_pi m opts σ g)) in
  let s1 := fst (V001.new_Sprite m g) in
  0 <= x < width s2 -> 0 <= y < height s2 ->
  0 <= a < width s2 -> 0 <= b < height s2 ->
  adjacent x y a b ->
  (is_pos (getData s2 x y) = true ->
   getData s2 a b <> Some 0 /\ alpha_at s2 a b = Some 255) /\
  (is_pos (getData s1 x y) = true -> getData s1 a b <> Some 0).
Proof.
  intros s2 s1 Hx Hy Ha Hb Hadj.
  destruct (V002_finished sin_pi m opts σ g) as (Hsg & Wt & Ew & Eh & Halpha).
  fold s2 in Hsg, Halpha.
  destruct (V001_finished m g) as (Hsg1 & Wt1 & Ew1 & Eh1 & _). fold s1 in Hsg1.
  pose proof Hsg as (Ew2 & Eh2 & _).
  set (t2 := fst (grid_phases mirrorY (blank m (Some (options_ref opts σ))) g)) in *.
  set (t1 := fst (grid_phases mirrorX (blank m None) g)) in *.
  assert (Hxy2 : in_grid t2 x y) by (unfold in_grid; by rewrite <- Ew2, <- Eh2).
  assert (Hab2 : in_grid t2 a b) by (unfold in_grid; by rewrite <- Ew2, <- Eh2).
  assert (Hxy1 : in_grid t1 x y).
  { unfold in_grid. rewrite Ew1, Eh1. rewrite Ew2, Ew in Hx. by rewrite Eh2, Eh in Hy. }
  assert (Hab1 : in_grid t1 a b).
  { unfold in_grid. rewrite Ew1, Eh1. rewrite Ew2, Ew in Ha. by rewrite Eh2, Eh in Hb. }
  rewrite !(same_grid_getData t2 s2) by done.
  rewrite !(same_grid_getData t1 s1) by done.
  assert (Hclosed : forall f this g0,
    (forall s, grid_wf s -> frame s (f s)) ->
    grid_wf this ->
    Z.of_nat (Mask.width (mask this)) <= width this ->
    Z.of_nat (Mask.height (mask this)) <= height this ->
    let t := fst (grid_phases f this g0) in
    in_grid t x y -> in_grid t a b ->
    is_pos (getData t x y) = true -> getData t a b <> Some 0).
  { intros f this g0 Hf Hwf Hmw Hmh t Hxy Hab Hp Hz.
    destruct (grid_phases_last_step f this g0 Hf Hwf Hmw Hmh) as (s6 & W6 & E).
    unfold t in *. rewrite E in *.
    destruct (generateEdges_spec s6 W6) as [Hfr _].
    apply (generateEdges_not_exposed s6 a b W6).
    { by apply (frame_in_grid s6 (generateEdges s6)). }
    split; [done|]. apply near_body_adjacent. exists x, y.
    split; [|done].
    unfold adjacent in *. lia. }
  split.
  - intros Hp.
    assert (Hne : getData t2 a b <> Some 0).
    { apply (Hclosed mirrorY _ g mirrorY_frame (blank_wf m _)); try done;
        apply blank_mask_fits. }
    split; [done|]. rewrite (Halpha a b Hab2).
    destruct (is_zero (getData t2 a b)) eqn:Hz; [|done].
    by apply is_zero_spec in Hz.
  - intros Hp.
    apply (Hclosed mirrorX _ g mirrorX_frame (blank_wf m _)); try done;
      apply blank_mask_fits.
Qed.

Lemma finished_body_is_enclosed_witness :
  let s2 := fst (fst (V002.new_Sprite flat_sine demo_mask None ∅ alternating_draws)) in
  let s1 := fst (V001.new_Sprite demo_mask alternating_draws) in
  (getData s2 0 1 <> Some 0 /\ alpha_at s2 0 1 = Some 255) /\
  getData s1 0 1 <> Some 0.
Proof.
  destruct (finished_body_is_enclosed flat_sine demo_mask None ∅
              alternating_draws 1 1 0 1) as [H2 H1].
  - vm_compute. split; [discriminate|reflexivity].
  - vm_compute. split; [discriminate|reflexivity].
  - vm_compute. split; [discriminate|reflexivity].
  - vm_compute. split; [discriminate|reflexivity].
  - unfold adjacent. lia.
  - split; [apply H2|apply H1]; reflexivity.
Defined.

(** ** Strings *)

Lemma string_app_cons ch (a b : string) : String ch a +:+ b = String ch (a +:+ b).
Proof. reflexivity. Qed.

Lemma string_app_nil_l (b : string) : EmptyString +:+ b = b.
Proof. reflexivity. Qed.

Lemma string_app_assoc (a b c : string) : (a +:+ b) +:+ c = a +:+ (b +:+ c).
Proof.
  induction a as [|ch a IH]; [done|]. by rewrite !string_app_cons, IH.
Qed.

Lemma string_app_nil_r (a : string) : a +:+ EmptyString = a.
Proof. induction a as [|ch a IH]; [done|]. by rewrite string_app_cons, IH. Qed.

Lemma string_length_app (a b : string) :
  String.length (a +:+ b) = (String.length a + String.length b)%nat.
Proof.
  induction a as [|ch a IH]; [done|].
  rewrite string_app_cons. cbn [String.length]. by rewrite IH.
Qed.

Lemma substring_app_l n m (a b : string) :
  (n + m <= String.length a)%nat ->
  String.substring n m (a +:+ b) = String.substring n m a.
Proof.
  revert n m. induction a as [|ch a IH]; intros n m Hnm.
  - cbn in Hnm. assert (n = 0%nat) as -> by lia. assert (m = 0%nat) as -> by lia.
    rewrite string_app_nil_l. by destruct b.
  - cbn [String.length] in Hnm. rewrite string_app_cons. destruct n as [|n].
    + destruct m as [|m]; [done|]. cbn [String.substring]. f_equal. apply IH. lia.
    + cbn [String.substring]. apply IH. lia.
Qed.

Lemma substring_app_r n m (a b : string) :
  String.substring (String.length a + n) m (a +:+ b) = String.substring n m b.
Proof.
  induction a as [|ch a IH]; [done|].
  rewrite string_app_cons. cbn [String.length Nat.add String.substring]. apply IH.
Qed.

Lemma substring_full (a : string) : String.substring 0 (String.length a) a = a.
Proof.
  induction a as [|ch a IH]; [done|]. cbn [String.length String.substring]. by rewrite IH.
Qed.

Lemma foldl_append {A} (body : A -> string -> string) (f : A -> string) l :
  (forall a out, body a out = out +:+ f a) ->
  forall out, foldl (fun out a => body a out) out l = out +:+ join (map f l).
Proof.
  intros Hbody. induction l as [|a l IH]; intros out.
  - cbn [foldl map]. change (join []) with EmptyString.
    by rewrite string_app_nil_r.
  - cbn [foldl map]. change (join (f a :: map f l)) with (f a +:+ join (map f l)).
    rewrite IH, Hbody. apply string_app_assoc.
Qed.

Lemma join_fixed (k : nat) (l : list string) :
  Forall (fun p => String.length p = k) l ->
  String.length (join l) = (length l * k)%nat /\
  forall i p a m,
    l !! i = Some p -> (a + m <= k)%nat ->
    String.substring (i * k + a) m (join l) = String.substring a m p.
Proof.
  induction 1 as [|p l Hp Hl [IHlen IH]]; [done|]. split.
  - change (join (p :: l)) with (p +:+ join l).
    rewrite string_length_app, IHlen, Hp. cbn [length]. lia.
  - intros i q a m Hi Ham. change (join (p :: l)) with (p +:+ join l).
    destruct i as [|i]; cbn in Hi.
    + injection Hi as ->. apply substring_app_l. lia.
    + replace (S i * k + a)%nat with (String.length p + (i * k + a))%nat by lia.
      rewrite substring_app_r. by apply IH.
Qed.

Lemma cell_text_length c : one_digit c -> String.length (cell_text c) = 2%nat.
Proof.
  intros (z & -> & Hz).
  assert (H : z = -9 \/ z = -8 \/ z = -7 \/ z = -6 \/ z = -5 \/ z = -4 \/
              z = -3 \/ z = -2 \/ z = -1 \/ z = 0 \/ z = 1 \/ z = 2 \/
              z = 3 \/ z = 4 \/ z = 5 \/ z = 6 \/ z = 7 \/ z = 8 \/ z = 9) by lia.
  repeat (destruct H as [-> | H]; [reflexivity|]). by subst.
Qed.

Lemma cell_text_inj c d :
  one_digit c -> one_digit d -> cell_text c = cell_text d -> c = d.
Proof.
  intros (z & -> & Hz) (z' & -> & Hz') E. f_equal.
  unfold cell_text, is_nonneg, ToString in E.
  destruct (Z.leb_spec 0 z), (Z.leb_spec 0 z').
  - apply (inj (String.app " ")) in E. by apply (inj pretty) in E.
  - exfalso. destruct z' as [|p|p]; [lia|lia|]. discriminate.
  - exfalso. destruct z as [|p|p]; [lia|lia|]. discriminate.
  - rewrite !string_app_nil_l in E. by apply (inj pretty) in E.
Qed.

(** The text of one row and of the whole grid, as [toString] builds them. *)
Lemma toString_join s :
  toString s =
  join (map (fun y =>
               join (map (fun x => cell_text (getData s x y)) (seqZ 0 (width s)))
               +:+ newline)
          (seqZ 0 (height s))).
Proof.
  unfold toString, for_.
  rewrite (foldl_append _
    (fun y => join (map (fun x => cell_text (getData s x y)) (seqZ 0 (width s)))
              +:+ newline)); [done|].
  intros y out.
  rewrite (foldl_append _ (fun x => cell_text (getData s x y))); [|done].
  apply string_app_assoc.
Qed.

Lemma toString_layout_gen s :
  0 <= width s -> 0 <= height s ->
  (forall x y, in_grid s x y -> one_digit (getData s x y)) ->
  String.length (toString s) = Z.to_nat (height s * (2 * width s + 1)) /\
  (forall x y, in_grid s x y ->
     String.substring (Z.to_nat (y * (2 * width s + 1) + 2 * x)) 2 (toString s) =
     cell_text (getData s x y)) /\
  (forall y, 0 <= y < height s ->
     String.substring (Z.to_nat (y * (2 * width s + 1) + 2 * width s)) 1 (toString s) =
     newline).
Proof.
  intros Hw Hh Hcells. rewrite toString_join.
  set (cells := fun y => map (fun x => cell_text (getData s x y)) (seqZ 0 (width s))).
  set (row := fun y => join (cells y) +:+ newline).
  change (map _ (seqZ 0 (height s))) with (map row (seqZ 0 (height s))).
  set (w := Z.to_nat (width s)).
  assert (Hcell : forall y, 0 <= y < height s ->
            Forall (fun p => String.length p = 2%nat) (cells y)).
  { intros y Hy. unfold cells. apply Forall_fmap, Forall_forall.
    intros x Hx. apply elem_of_seqZ in Hx. cbn.
    apply cell_text_length, Hcells. split; [lia|done]. }
  assert (Hclen : forall y, length (cells y) = w).
  { intros y. unfold cells. by rewrite length_map, length_seqZ. }
  assert (Hrow : Forall (fun p => String.length p = (2 * w + 1)%nat)
                   (map row (seqZ 0 (height s)))).
  { apply Forall_fmap, Forall_forall. intros y Hy. apply elem_of_seqZ in Hy. cbn.
    unfold row. rewrite string_length_app.
    destruct (join_fixed 2 (cells y)) as [-> _]; [apply Hcell; lia|].
    rewrite Hclen. cbn. lia. }
  destruct (join_fixed _ _ Hrow) as [Hlen Hsub].
  assert (Hlook : forall y, 0 <= y < height s ->
            map row (seqZ 0 (height s)) !! Z.to_nat y = Some (row y)).
  { intros y Hy. rewrite list_lookup_fmap, lookup_seqZ_lt by lia. cbn.
    do 2 f_equal. lia. }
  split; [|split].
  - rewrite Hlen, length_map, length_seqZ. unfold w. nia.
  - intros x y [Hx Hy].
    replace (Z.to_nat (y * (2 * width s + 1) + 2 * x))
      with (Z.to_nat y * (2 * w + 1) + 2 * Z.to_nat x)%nat by (unfold w; nia).
    rewrite (Hsub _ (row y)) by (try apply Hlook; unfold w; lia).
    unfold row. rewrite substring_app_l.
    2:{ destruct (join_fixed 2 (cells y)) as [-> _]; [apply Hcell; lia|].
        rewrite Hclen. unfold w. lia. }
    destruct (join_fixed 2 (cells y)) as [_ Hc]; [apply Hcell; lia|].
    replace (2 * Z.to_nat x)%nat with (Z.to_nat x * 2 + 0)%nat by lia.
    rewrite (Hc _ (cell_text (getData s x y))); [| |lia].
    + rewrite <- (cell_text_length (getData s x y)) at 1
        by (apply Hcells; by split).
      apply substring_full.
    + unfold cells. rewrite list_lookup_fmap, lookup_seqZ_lt by lia. cbn.
      do 3 f_equal. lia.
  - intros y Hy.
    replace (Z.to_nat (y * (2 * width s + 1) + 2 * width s))
      with (Z.to_nat y * (2 * w + 1) + 2 * w)%nat by (unfold w; nia).
    rewrite (Hsub _ (row y)) by (try apply Hlook; lia).
    unfold row.
    replace (2 * w)%nat with (String.length (join (cells y)) + 0)%nat.
    + by rewrite substring_app_r.
    + destruct (join_fixed 2 (cells y)) as [-> _]; [apply Hcell; lia|].
      rewrite Hclen. lia.
Qed.


(** ** [toString] *)


Lemma edge_demo_one_digit x y :
  in_grid edge_demo x y -> one_digit (getData edge_demo x y).
Proof.
  unfold in_grid. cbn [width height edge_demo]. intros [Hx Hy].
  assert (y = 0) as -> by lia.
  assert (Hc : x = 0 \/ x = 1 \/ x = 2) by lia.
  destruct Hc as [-> | [-> | ->]]; eexists; (split; [reflexivity|lia]).
Defined.


(** X21: [toString] loses nothing of such a grid: two sprites of the same
    width and height whose cells are one-digit integers and whose texts
    are equal hold the same array of cells. *)
Theorem toString_determines_the_grid s t :
  grid_wf s -> grid_wf t ->
  width t = width s -> height t = height s ->
  (forall x y, in_grid s x y -> one_digit (getData s x y)) ->
  (forall x y, in_grid t x y -> one_digit (getData t x y)) ->
  toString t = toString s ->
  data t = data s.
Proof.
  intros Ws Wt Ew Eh Hs Ht E.
  destruct (toString_layout_gen s) as (_ & Hcs & _); [apply Ws|apply Ws|done|].
  destruct (toString_layout_gen t) as (_ & Hct & _); [apply Wt|apply Wt|done|].
  change (data t) with (data (with_data s (data t))).
  apply data_ext; [done| |].
  - unfold frame, with_data; cbn. repeat split; try done.
    destruct Ws as (_ & _ & ->). destruct Wt as (_ & _ & ->). by rewrite Ew, Eh.
  - intros x y Hxy.
    assert (Hxy' : in_grid t x y) by (unfold in_grid in *; by rewrite Ew, Eh).
    change (getData (with_data s (data t)) x y)
      with (array_get (data t) (y * width s + x)).
    rewrite <- Ew. change (array_get (data t) (y * width t + x)) with (getData t x y).
    apply cell_text_inj; [by apply Ht|by apply Hs|].
    rewrite <- (Hct x y Hxy'), <- (Hcs x y Hxy). by rewrite E, Ew.
Qed.

Lemma toString_determines_the_grid_witness :
  data (with_pixels edge_demo [0]) = data edge_demo.
Proof.
  apply (toString_determines_the_grid edge_demo (with_pixels edge_demo [0])).
  - vm_compute. repeat split; discriminate.
  - vm_compute. repeat split; discriminate.
  - reflexivity.
  - reflexivity.
  - exact edge_demo_one_digit.
  - exact edge_demo_one_digit.
  - vm_compute. reflexivity.
Defined.
